(** * QLoRA fine-tuning app: the front end's dataset utilities, API client,
      job pages and polling hooks, and the job life cycle of the spec.

    Source files embedded here (TypeScript, under [frontend/]):
    - [utils/dataset.ts]: [convertRowsToFormat], [parseFileForSampleCount],
      [formatFileSize];
    - [app/datasets/page.tsx]: [fetchDatasets], [handleOpenModal],
      [handleCloseModal], [handleAddCsvRow], [handleDeleteCsvRow],
      [handleCsvCellChange], [handleSaveDataset], [handleDeleteDataset];
    - [components/datasets/DatasetModal.tsx] and [DatasetFormContent.tsx]:
      when the save button and the delete button of a row are disabled;
    - [lib/api-client.ts]: [ApiError], [fetchWithRetry], [apiRequest], the
      methods of [apiClient];
    - [lib/api-config.ts] and [constants/api.ts]: [getApiUrl], [API_URL],
      [API_ENDPOINTS];
    - [app/page.tsx] (the jobs list): [fetchJobs], the handlers of the
      actions drop-down, [filteredJobs] and the tabs;
    - [components/ui/status-badge.tsx]: [StatusBadge];
    - [app/jobs/[id]/page.tsx]: [handleDownloadCheckpoint], the polling
      effect, [getStatusBadge];
    - [hooks/useApi.ts]: [useApi], [useApiPolling], the updaters of
      [useListData].

    A JavaScript string is a sequence of UTF-16 code units; it is modelled as
    a list of code units, each an [N].  The built-ins the code calls
    ([trim], [split], [join], [toLowerCase], [JSON.parse], [JSON.stringify],
    [Response.json], ...) are modelled after ECMA-262 and the Fetch standard. *)

From Stdlib Require Import List NArith ZArith Bool Ascii String Lia.
From stdpp Require Import base option list gmap.
Import ListNotations.

Local Open Scope N_scope.

(** ** JavaScript strings *)

Definition jsstring := list N.

(** An ASCII literal as a JavaScript string. *)
Definition js (s : string) : jsstring :=
  List.map N_of_ascii (list_ascii_of_string s).

Definition LF : N := 10.
Definition QUOTE : N := 34.
Definition BACKSLASH : N := 92.

Definition jsstring_eqb (a b : jsstring) : bool :=
  bool_decide (a = b).

Definition is_empty {A} (s : list A) : bool :=
  match s with [] => true | _ => false end.

(** [WhiteSpace] and [LineTerminator] code points of ECMA-262, the ones
    [String.prototype.trim] strips. *)
Definition isWhiteSpace (c : N) : bool :=
  (c =? 9) || (c =? 10) || (c =? 11) || (c =? 12) || (c =? 13) || (c =? 32)
  || (c =? 160) || (c =? 5760) || ((8192 <=? c) && (c <=? 8202))
  || (c =? 8232) || (c =? 8233) || (c =? 8239) || (c =? 8287)
  || (c =? 12288) || (c =? 65279).

Fixpoint trimStart (s : jsstring) : jsstring :=
  match s with
  | [] => []
  | c :: r => if isWhiteSpace c then trimStart r else s
  end.

Definition trimEnd (s : jsstring) : jsstring :=
  rev (trimStart (rev s)).

Definition trim (s : jsstring) : jsstring :=
  trimEnd (trimStart s).

(** [s.split(sep)] for a separator of one code unit: never the empty array. *)
Fixpoint split (sep : N) (s : jsstring) : list jsstring :=
  match s with
  | [] => [[]]
  | c :: r =>
      if c =? sep then [] :: split sep r
      else match split sep r with
           | h :: t => (c :: h) :: t
           | [] => [[c]]
           end
  end.

(** [parts.join(sep)]. *)
Fixpoint join (sep : jsstring) (parts : list jsstring) : jsstring :=
  match parts with
  | [] => []
  | [p] => p
  | p :: rest => p ++ sep ++ join sep rest
  end.

(** [parts.pop()] on the array [split] returns: its last element. *)
Definition pop (parts : list jsstring) : option jsstring :=
  List.last (List.map Some parts) None.

(** [toLowerCase] and [toUpperCase] on the ASCII letters.  Code units
    outside ASCII are left as they are: no Unicode lower-case mapping yields
    one of the letters of [json], [jsonl] or [csv], so the comparisons of
    [parseFileForSampleCount] do not depend on them. *)
Definition toLowerCase (s : jsstring) : jsstring :=
  List.map (fun c => if (65 <=? c) && (c <=? 90) then c + 32 else c) s.

Definition toUpperCase (s : jsstring) : jsstring :=
  List.map (fun c => if (97 <=? c) && (c <=? 122) then c - 32 else c) s.

(** [s.replace] of the source's CSV branch, with the global pattern that
    matches one double quote and the replacement of two: every double quote
    of [s] is doubled. *)
Fixpoint replace_quotes (s : jsstring) : jsstring :=
  match s with
  | [] => []
  | c :: r => if c =? QUOTE then QUOTE :: QUOTE :: replace_quotes r
              else c :: replace_quotes r
  end.

(** Decimal digits of a natural number, most significant first
    ([Number.prototype.toString] on a non-negative integer below 2^53). *)
Fixpoint decimal_digits (fuel : nat) (n : N) (acc : jsstring) : jsstring :=
  match fuel with
  | O => acc
  | S f =>
      let acc' := (48 + n mod 10) :: acc in
      if n <? 10 then acc' else decimal_digits f (n / 10) acc'
  end.

Definition decimal (n : N) : jsstring :=
  decimal_digits (S (N.to_nat (N.log2 n))) n [].

(** ** JSON values

    A number keeps the exact decimal value of its lexeme, [m * 10^e] with a
    sign; the double it denotes is only needed to tell whether it is zero. *)

Unset Elimination Schemes.
Inductive json : Type :=
| JNull
| JBool (b : bool)
| JNumber (neg : bool) (m : N) (e : Z)
| JString (s : jsstring)
| JArray (items : list json)
| JObject (members : list (jsstring * json)).
Set Elimination Schemes.

(** Outcome of a parser run on fuel: a value and the unread input, a syntax
    error, or fuel exhausted (which [JSON_parse] never meets, see
    [parse_value_fuel]). *)
Inductive parse_result (A : Type) : Type :=
| POk (a : A) (rest : jsstring)
| PError
| POutOfFuel.
Arguments POk {A} a rest.
Arguments PError {A}.
Arguments POutOfFuel {A}.

Definition pbind {A B} (r : parse_result A)
    (k : A -> jsstring -> parse_result B) : parse_result B :=
  match r with
  | POk a rest => k a rest
  | PError => PError
  | POutOfFuel => POutOfFuel
  end.

(** JSON white space: tab, line feed, carriage return, space. *)
Definition json_ws (c : N) : bool :=
  (c =? 9) || (c =? 10) || (c =? 13) || (c =? 32).

Fixpoint json_skip_ws (s : jsstring) : jsstring :=
  match s with
  | c :: r => if json_ws c then json_skip_ws r else s
  | [] => []
  end.

Definition hex_value (c : N) : option N :=
  if (48 <=? c) && (c <=? 57) then Some (c - 48)
  else if (97 <=? c) && (c <=? 102) then Some (c - 87)
  else if (65 <=? c) && (c <=? 70) then Some (c - 55)
  else None.

(** The character an escape letter stands for. *)
Definition unescape (c : N) : option N :=
  if c =? 34 then Some 34
  else if c =? 92 then Some 92
  else if c =? 47 then Some 47
  else if c =? 98 then Some 8
  else if c =? 102 then Some 12
  else if c =? 110 then Some 10
  else if c =? 114 then Some 13
  else if c =? 116 then Some 9
  else None.

Definition cons_char (c : N) (r : option (jsstring * jsstring))
    : option (jsstring * jsstring) :=
  match r with
  | Some (str, rest) => Some (c :: str, rest)
  | None => None
  end.

(** The characters of a string literal after its opening quote, up to and
    including the closing quote. *)
Fixpoint parse_string_body (s : jsstring) : option (jsstring * jsstring) :=
  match s with
  | [] => None
  | c :: r =>
      if c =? QUOTE then Some ([], r)
      else if c =? BACKSLASH then
        match r with
        | [] => None
        | l :: r1 =>
            if l =? 117 then
              match r1 with
              | h1 :: h2 :: h3 :: h4 :: r2 =>
                  match hex_value h1, hex_value h2, hex_value h3, hex_value h4 with
                  | Some x1, Some x2, Some x3, Some x4 =>
                      cons_char (4096 * x1 + 256 * x2 + 16 * x3 + x4)
                                (parse_string_body r2)
                  | _, _, _, _ => None
                  end
              | _ => None
              end
            else
              match unescape l with
              | Some u => cons_char u (parse_string_body r1)
              | None => None
              end
        end
      else if c <? 32 then None
      else cons_char c (parse_string_body r)
  end.

Definition is_digit (c : N) : bool := (48 <=? c) && (c <=? 57).

Fixpoint span_digits (s : jsstring) : jsstring * jsstring :=
  match s with
  | c :: r =>
      if is_digit c then let (d, r') := span_digits r in (c :: d, r')
      else ([], s)
  | [] => ([], [])
  end.

Definition digits_value (d : jsstring) : N :=
  fold_left (fun acc c => 10 * acc + (c - 48)) d 0.

(** The input behind the character [c], when the input starts with it. *)
Definition starts (c : N) (s : jsstring) : option jsstring :=
  match s with
  | x :: r => if x =? c then Some r else None
  | [] => None
  end.

(** The input behind the prefix [p], when the input starts with it. *)
Fixpoint strip_prefix (p s : jsstring) : option jsstring :=
  match p with
  | [] => Some s
  | c :: p' =>
      match starts c s with
      | Some r => strip_prefix p' r
      | None => None
      end
  end.

(** The fraction of a number token: a dot and one or more digits, or
    nothing. *)
Definition parse_fraction (s : jsstring) : option (jsstring * jsstring) :=
  match starts 46 s with
  | Some r =>
      let (fd, rest) := span_digits r in
      if is_empty fd then None else Some (fd, rest)
  | None => Some ([], s)
  end.

(** The exponent of a number token: [e] or [E], an optional sign and one or
    more digits, or nothing. *)
Definition parse_exponent (s : jsstring) : option (Z * jsstring) :=
  match s with
  | x :: r =>
      if (x =? 101) || (x =? 69) then
        let (sgn, r') := match starts 43 r, starts 45 r with
                         | Some r', _ => (1%Z, r')
                         | None, Some r' => ((-1)%Z, r')
                         | None, None => (1%Z, r)
                         end in
        let (ed, rest) := span_digits r' in
        if is_empty ed then None
        else Some ((sgn * Z.of_N (digits_value ed))%Z, rest)
      else Some (0%Z, s)
  | [] => Some (0%Z, s)
  end.

(** A number token: optional minus, integer part without a leading zero,
    optional fraction, optional exponent. *)
Definition parse_number (s : jsstring) : option (json * jsstring) :=
  let (neg, s1) := match starts 45 s with
                   | Some r => (true, r)
                   | None => (false, s)
                   end in
  match s1 with
  | c :: r =>
      if is_digit c then
        let (ip, s2) := if c =? 48 then ([c], r) else span_digits s1 in
        match parse_fraction s2 with
        | None => None
        | Some (fd, s3) =>
            match parse_exponent s3 with
            | None => None
            | Some (ex, s4) =>
                Some (JNumber neg (digits_value (ip ++ fd))
                              (ex - Z.of_nat (length fd))%Z, s4)
            end
        end
      else None
  | [] => None
  end.

Definition of_option {A} (o : option (A * jsstring)) : parse_result A :=
  match o with
  | Some (a, rest) => POk a rest
  | None => PError
  end.

(** The value of a literal name, when the input goes on with its tail. *)
Definition parse_literal (tail_ : jsstring) (v : json) (r : jsstring)
    : parse_result json :=
  match strip_prefix tail_ r with
  | Some r' => POk v r'
  | None => PError
  end.

(** The JSON grammar of ECMA-404, which [JSON.parse] accepts.  An object
    keeps its members in source order, duplicates included ([get_prop] reads
    the last one, as the object [JSON.parse] builds does). *)
Fixpoint parse_value (fuel : nat) (s : jsstring) : parse_result json :=
  match fuel with
  | O => POutOfFuel
  | S f =>
      match json_skip_ws s with
      | [] => PError
      | c :: r =>
          if c =? 123 then
            match starts 125 (json_skip_ws r) with
            | Some r' => POk (JObject []) r'
            | None => pbind (parse_members f r) (fun ms rest => POk (JObject ms) rest)
            end
          else if c =? 91 then
            match starts 93 (json_skip_ws r) with
            | Some r' => POk (JArray []) r'
            | None => pbind (parse_elements f r) (fun vs rest => POk (JArray vs) rest)
            end
          else if c =? QUOTE then
            pbind (of_option (parse_string_body r))
                  (fun str rest => POk (JString str) rest)
          else if c =? 116 then parse_literal [114; 117; 101] (JBool true) r
          else if c =? 102 then parse_literal [97; 108; 115; 101] (JBool false) r
          else if c =? 110 then parse_literal [117; 108; 108] JNull r
          else of_option (parse_number (c :: r))
      end
  end
with parse_elements (fuel : nat) (s : jsstring) : parse_result (list json) :=
  match fuel with
  | O => POutOfFuel
  | S f =>
      pbind (parse_value f s) (fun v rest =>
        match starts 44 (json_skip_ws rest), starts 93 (json_skip_ws rest) with
        | Some r, _ => pbind (parse_elements f r) (fun vs rest' => POk (v :: vs) rest')
        | None, Some r => POk [v] r
        | None, None => PError
        end)
  end
with parse_members (fuel : nat) (s : jsstring)
    : parse_result (list (jsstring * json)) :=
  match fuel with
  | O => POutOfFuel
  | S f =>
      match starts QUOTE (json_skip_ws s) with
      | Some r0 =>
          pbind (of_option (parse_string_body r0)) (fun key rest0 =>
            match starts 58 (json_skip_ws rest0) with
            | Some r1 =>
                pbind (parse_value f r1) (fun v rest =>
                  match starts 44 (json_skip_ws rest),
                        starts 125 (json_skip_ws rest) with
                  | Some r, _ => pbind (parse_members f r)
                                   (fun ms rest' => POk ((key, v) :: ms) rest')
                  | None, Some r => POk [(key, v)] r
                  | None, None => PError
                  end)
            | None => PError
            end)
      | None => PError
      end
  end.

(** [JSON.parse(text)]: [None] is the SyntaxError it throws. *)
Definition JSON_parse (text : jsstring) : option json :=
  match parse_value (2 * length text + 2) text with
  | POk v rest =>
      match json_skip_ws rest with
      | [] => Some v
      | _ => None
      end
  | _ => None
  end.

(** ** JavaScript values read from JSON

    A value is a JSON value or [undefined] ([None]). *)

Definition jsval := option json.

(** The double a decimal denotes is zero when the decimal is zero or not
    above 2^-1075, half the least positive double (ties go to the even
    neighbour, zero). *)
Definition is_zero_double (m : N) (e : Z) : bool :=
  (m =? 0)
  || ((e <? 0)%Z && (Z.of_N m * 2 ^ 1075 <=? 10 ^ (- e))%Z).

(** [ToBoolean]. *)
Definition truthy (v : jsval) : bool :=
  match v with
  | None => false
  | Some JNull => false
  | Some (JBool b) => b
  | Some (JNumber _ m e) => negb (is_zero_double m e)
  | Some (JString s) => match s with [] => false | _ => true end
  | Some (JArray _) => true
  | Some (JObject _) => true
  end.

(** [a || b]. *)
Definition js_or (a b : jsval) : jsval :=
  if truthy a then a else b.

(** The last member of an object with the given key. *)
Fixpoint lookup_member (k : jsstring) (ms : list (jsstring * json)) : jsval :=
  match ms with
  | [] => None
  | (k', v) :: rest =>
      match lookup_member k rest with
      | Some v' => Some v'
      | None => if jsstring_eqb k' k then Some v else None
      end
  end.

Definition is_LENGTH (k : jsstring) : bool := jsstring_eqb k (js "length").

(** [v.k] for a property name [k] that is not an array index and that no
    prototype defines (the names the source reads: [detail], [message],
    [jobs], [checkpoints], [id], [step]) or [length].  [None] on the left is
    the TypeError of reading a property of [undefined] or [null]. *)
Definition get_prop (v : jsval) (k : jsstring) : option jsval :=
  match v with
  | None => None
  | Some JNull => None
  | Some (JObject ms) => Some (lookup_member k ms)
  | Some (JArray items) =>
      Some (if is_LENGTH k then Some (JNumber false (N.of_nat (length items)) 0)
            else None)
  | Some (JString s) =>
      Some (if is_LENGTH k then Some (JNumber false (N.of_nat (length s)) 0)
            else None)
  | Some _ => Some None
  end.

(** [v?.k]. *)
Definition get_prop_opt (v : jsval) (k : jsstring) : jsval :=
  match get_prop v k with
  | Some r => r
  | None => None
  end.

(** ** The browser: requests, responses, errors, events *)

Record request : Type := mk_request {
  req_url : jsstring;
  req_method : option jsstring;
  req_headers : list (jsstring * jsstring);
  req_body : option jsstring
}.

(** The method [fetch] uses: GET unless the options name one. *)
Definition method_of (r : request) : jsstring :=
  match req_method r with
  | Some m => m
  | None => js "GET"
  end.

(** A [Response]: its body is a stream that can be read once; [None] is the
    null body. *)
Record Response : Type := mk_response {
  status : N;
  statusText : jsstring;
  body : option jsstring;
  bodyUsed : bool
}.

(** [response.ok]. *)
Definition ok (r : Response) : bool :=
  (200 <=? status r) && (status r <=? 299).

(** What [throw] carries: an [Error] with its name and message, or an
    [ApiError] with the optional status and data. *)
Inductive exn : Type :=
| JsError (name message : jsstring)
| ApiError (message : jsstring) (api_status : option N) (data : api_data)
with api_data : Type :=
| NoData
| DataValue (v : json)
| DataError (e : exn).

Definition TypeError (message : jsstring) : exn := JsError (js "TypeError") message.
Definition SyntaxError (message : jsstring) : exn := JsError (js "SyntaxError") message.
Definition Error (message : jsstring) : exn := JsError (js "Error") message.

(** [e.message]. *)
Definition exn_message (e : exn) : jsstring :=
  match e with
  | JsError _ m => m
  | ApiError m _ _ => m
  end.

(** What a download link points to: a URL, or the object URL of a blob. *)
Inductive download_source : Type :=
| FromUrl (url : jsstring)
| FromBlob (bytes : jsstring).

Inductive event : Type :=
| EvFetch (req : request)
| EvSleep (ms : N)
| EvConfirm (text : jsstring)
| EvAlert (text : jsstring)
| EvConsoleError (label : jsstring)
| EvDownload (href : download_source) (filename : jsstring)
| EvNavigate (url : jsstring).

(** What becomes of the promise of a call of [fetch]: it resolves with a
    response, it is rejected, or it never settles (the code sets no timeout
    and passes no signal). *)
Inductive fetch_outcome : Type :=
| Resolves (r : Response)
| Rejects (e : exn)
| NeverSettles.

(** What the code cannot decide: [Number.prototype.toString] outside the
    integers up to 2^53, the network (the outcome of the n-th call of
    [fetch]), the user's answer to [window.confirm], the clock and the
    platform's date and query-string formatting, the API base URL of
    [constants/api.ts]; and the property key of [x - 1], the number below
    [x] printed as a key, for a number [x] outside the integers below 2^53
    and for a string [x] (which is read as a number first). *)
Record Env : Type := mk_env {
  Number_toString_other : bool -> N -> Z -> jsstring;
  net : nat -> request -> fetch_outcome;
  confirm_answer : jsstring -> bool;
  Date_now : N;
  toISOString : N -> jsstring;
  URLSearchParams_toString : list (jsstring * jsstring) -> jsstring;
  API_URL : jsstring;
  Number_below_other : bool -> N -> Z -> jsstring;
  String_below : jsstring -> jsstring
}.

Record World (P : Type) : Type := mk_world {
  page : P;
  trace : list event;
  calls : nat
}.
Arguments mk_world {P} page trace calls.
Arguments page {P} w.
Arguments trace {P} w.
Arguments calls {P} w.

(** How an [async] function ends: it returns, throws, never continues
    (awaits a promise that never settles), or leaves the model (a payload
    outside the type the source declares for it). *)
Inductive outcome (A : Type) : Type :=
| Ret (a : A)
| Throw (e : exn)
| Hang
| OutOfModel.
Arguments Ret {A} a.
Arguments Throw {A} e.
Arguments Hang {A}.
Arguments OutOfModel {A}.

Definition M (P A : Type) : Type := World P -> World P * outcome A.

Definition ret {P A} (a : A) : M P A := fun w => (w, Ret a).

Definition bind {P A B} (m : M P A) (k : A -> M P B) : M P B :=
  fun w =>
    match m w with
    | (w', Ret a) => k a w'
    | (w', Throw e) => (w', Throw e)
    | (w', Hang) => (w', Hang)
    | (w', OutOfModel) => (w', OutOfModel)
    end.

Definition throw {P A} (e : exn) : M P A := fun w => (w, Throw e).

(** [try { m } catch (e) { h e }]. *)
Definition try_catch {P A} (m : M P A) (h : exn -> M P A) : M P A :=
  fun w =>
    match m w with
    | (w', Throw e) => h e w'
    | r => r
    end.

(** [try { m } finally { f }]. *)
Definition try_finally {P A} (m : M P A) (f : M P unit) : M P A :=
  fun w =>
    match m w with
    | (w', Ret a) => bind f (fun _ => ret a) w'
    | (w', Throw e) => bind f (fun _ => throw e) w'
    | r => r
    end.

Definition emit {P} (e : event) : M P unit :=
  fun w => (mk_world (page w) (trace w ++ [e]) (calls w), Ret tt).

Definition get_page {P} : M P P := fun w => (w, Ret (page w)).

Definition set_page {P} (f : P -> P) : M P unit :=
  fun w => (mk_world (f (page w)) (trace w) (calls w), Ret tt).

Definition lift_option {P A} (o : option A) (e : exn) : M P A :=
  match o with
  | Some a => ret a
  | None => throw e
  end.

#[global] Instance M_ret {P} : MRet (M P) := fun A a => ret a.
#[global] Instance M_bind {P} : MBind (M P) := fun A B k m => bind m k.

(** The environment the code runs in, as a class: the definitions below
    take it as an implicit argument. *)
Class Runtime : Type := env : Env.

Section Embedding.

Context {rt : Runtime}.

(** ** [ToString] *)

(** [Number.prototype.toString] of the double nearest to [m * 10^e], with
    its sign: the decimal digits when that is an integer up to 2^53, minus
    zero printing as zero; the environment's answer otherwise. *)
Definition Number_toString (neg : bool) (m : N) (e : Z) : jsstring :=
  if (0 <=? e)%Z && (m * 10 ^ Z.to_N e <=? 2 ^ 53) then
    (if neg && (0 <? m) then js "-" else []) ++ decimal (m * 10 ^ Z.to_N e)
  else Number_toString_other env neg m e.

(** An object has an own member with the key. *)
Definition has_own (k : jsstring) (members : list (jsstring * json)) : bool :=
  existsb (fun kv => jsstring_eqb (fst kv) k) members.

(** [ToString], as a template literal, the [Error] constructor and a
    computed property name apply it; [None] is the TypeError of
    [OrdinaryToPrimitive].  An object that [JSON.parse] built inherits
    [toString] from [Object.prototype] unless it has an own member of that
    name; the own member is a JSON value, so it is not callable, [valueOf]
    gives back the object, and the conversion throws.  An array is joined:
    [null] is the empty string, and an item that cannot be converted makes
    the join throw. *)
Fixpoint ToString_json (v : json) : option jsstring :=
  match v with
  | JNull => Some (js "null")
  | JBool true => Some (js "true")
  | JBool false => Some (js "false")
  | JNumber neg m e => Some (Number_toString neg m e)
  | JString s => Some s
  | JArray items =>
      option_map (join (js ","))
        ((fix parts (l : list json) : option (list jsstring) :=
            match l with
            | [] => Some []
            | x :: rest =>
                match match x with
                      | JNull => Some []
                      | _ => ToString_json x
                      end, parts rest with
                | Some s, Some ss => Some (s :: ss)
                | _, _ => None
                end
            end) items)
  | JObject members =>
      if has_own (js "toString") members then None
      else Some (js "[object Object]")
  end.

Definition ToString (v : jsval) : option jsstring :=
  match v with
  | None => Some (js "undefined")
  | Some j => ToString_json j
  end.

Definition to_primitive_error : exn :=
  TypeError (js "Cannot convert object to primitive value").

(** ** [JSON.stringify] *)

Definition hex_digit (d : N) : N :=
  if d <? 10 then 48 + d else 87 + d.

Definition unicode_escape (c : N) : jsstring :=
  [BACKSLASH; 117; hex_digit (c / 4096); hex_digit ((c / 256) mod 16);
   hex_digit ((c / 16) mod 16); hex_digit (c mod 16)].

Definition is_high_surrogate (c : N) : bool := (55296 <=? c) && (c <=? 56319).
Definition is_low_surrogate (c : N) : bool := (56320 <=? c) && (c <=? 57343).

(** [QuoteJSONString] without the surrounding quotes: the short escapes,
    [\u00XX] for the other control characters, [\uXXXX] for a surrogate that
    is not part of a pair. *)
Fixpoint quote_chars (s : jsstring) : jsstring :=
  match s with
  | [] => []
  | c :: r =>
      if c =? 8 then BACKSLASH :: 98 :: quote_chars r
      else if c =? 9 then BACKSLASH :: 116 :: quote_chars r
      else if c =? 10 then BACKSLASH :: 110 :: quote_chars r
      else if c =? 12 then BACKSLASH :: 102 :: quote_chars r
      else if c =? 13 then BACKSLASH :: 114 :: quote_chars r
      else if c =? QUOTE then BACKSLASH :: QUOTE :: quote_chars r
      else if c =? BACKSLASH then BACKSLASH :: BACKSLASH :: quote_chars r
      else if c <? 32 then unicode_escape c ++ quote_chars r
      else if is_high_surrogate c then
        match r with
        | d :: r' =>
            if is_low_surrogate d then c :: d :: quote_chars r'
            else unicode_escape c ++ quote_chars r
        | [] => unicode_escape c
        end
      else if is_low_surrogate c then unicode_escape c ++ quote_chars r
      else c :: quote_chars r
  end.

Definition QuoteJSONString (s : jsstring) : jsstring :=
  QUOTE :: quote_chars s ++ [QUOTE].

(** Brackets around the serialised items, one per line behind the
    indentation when there is a gap. *)
Definition wrap_items (opening closing : N) (gap indent : jsstring)
    (parts : list jsstring) : jsstring :=
  match parts with
  | [] => [opening; closing]
  | _ =>
      match gap with
      | [] => opening :: join (js ",") parts ++ [closing]
      | _ =>
          let inner := indent ++ gap in
          opening :: LF :: inner ++ join (44 :: LF :: inner) parts
            ++ LF :: indent ++ [closing]
      end
  end.

(** [SerializeJSONProperty], with the gap and the current indentation. *)
Fixpoint serialize (gap indent : jsstring) (v : json) : jsstring :=
  match v with
  | JNull => js "null"
  | JBool true => js "true"
  | JBool false => js "false"
  | JNumber neg m e => Number_toString neg m e
  | JString s => QuoteJSONString s
  | JArray items =>
      wrap_items 91 93 gap indent
        (List.map (serialize gap (indent ++ gap)) items)
  | JObject members =>
      wrap_items 123 125 gap indent
        (List.map (fun kv =>
                     QuoteJSONString (fst kv)
                       ++ (match gap with [] => [58] | _ => [58; 32] end)
                       ++ serialize gap (indent ++ gap) (snd kv)) members)
  end.

(** [JSON.stringify(v)] and [JSON.stringify(v, null, 2)]. *)
Definition JSON_stringify (v : json) : jsstring := serialize [] [] v.
Definition JSON_stringify_2 (v : json) : jsstring := serialize [32; 32] [] v.


(** [await fetch(url, options)]. *)
Definition fetch {P} (req : request) : M P Response :=
  fun w =>
    let w' := mk_world (page w) (trace w ++ [EvFetch req]) (S (calls w)) in
    match net env (calls w) req with
    | Resolves r => (w', Ret r)
    | Rejects e => (w', Throw e)
    | NeverSettles => (w', Hang)
    end.

(** Reading the body: a TypeError when the stream was read before.  A
    response of the model has its body with it. *)
Definition consume (r : Response) : Response * option jsstring :=
  match body r with
  | None => (r, Some [])
  | Some text =>
      if bodyUsed r then (r, None)
      else (mk_response (status r) (statusText r) (body r) true, Some text)
  end.

Definition body_used_error : exn := TypeError (js "body stream already read").

(** [await response.json()]: the response as the call leaves it, and the
    value or the error. *)
Definition Response_json (r : Response) : Response * (json + exn) :=
  match consume r with
  | (r', None) => (r', inr body_used_error)
  | (r', Some text) =>
      match JSON_parse text with
      | Some v => (r', inl v)
      | None => (r', inr (SyntaxError (js "Unexpected token")))
      end
  end.

(** [await response.text()]. *)
Definition Response_text (r : Response) : Response * (jsstring + exn) :=
  match consume r with
  | (r', None) => (r', inr body_used_error)
  | (r', Some text) => (r', inl text)
  end.

(** [await response.blob()]. *)
Definition Response_blob (r : Response) : Response * (jsstring + exn) :=
  Response_text r.

Definition await_json {P} (r : Response) : M P json :=
  match snd (Response_json r) with
  | inl v => ret v
  | inr e => throw e
  end.

(** [v.k], throwing on [undefined] and [null]. *)
Definition get {P} (v : jsval) (k : jsstring) : M P jsval :=
  lift_option (get_prop v k) (TypeError (js "Cannot read properties")).

(** [ToString(v)] where the code converts a value: it can throw. *)
Definition to_string {P} (v : jsval) : M P jsstring :=
  lift_option (ToString v) to_primitive_error.

(** ** [utils/dataset.ts] *)

Record CSVRow : Type := mk_row {
  instruction : jsstring;
  input : jsstring;
  output : jsstring
}.

Inductive DatasetFormat : Type := json_format | jsonl_format | csv_format.

(** The format as the string of the TypeScript union. *)
Definition format_name (f : DatasetFormat) : jsstring :=
  match f with
  | json_format => js "json"
  | jsonl_format => js "jsonl"
  | csv_format => js "csv"
  end.

(** A row as the object the page keeps: keys in the order of creation. *)
Definition row_json (r : CSVRow) : json :=
  JObject [(js "instruction", JString (instruction r));
           (js "input", JString (input r));
           (js "output", JString (output r))].

Definition csv_quoted (field : jsstring) : jsstring :=
  QUOTE :: replace_quotes field ++ [QUOTE].

Definition csv_row (r : CSVRow) : jsstring :=
  csv_quoted (instruction r) ++ js "," ++ csv_quoted (input r)
    ++ js "," ++ csv_quoted (output r).

Definition convertRowsToFormat (rows : list CSVRow) (format : DatasetFormat)
    : jsstring :=
  match format with
  | json_format => JSON_stringify_2 (JArray (List.map row_json rows))
  | jsonl_format =>
      join [LF] (List.map (fun row => JSON_stringify (row_json row)) rows)
  | csv_format =>
      let header := js "instruction,input,output" in
      let csvRows := List.map csv_row rows in
      join [LF] (header :: csvRows)
  end.

(** A [File]: [file_text] is what [readAsText] delivers to [onload], [None]
    when the read fails (no [onload]). *)
Record File : Type := mk_file {
  file_name : jsstring;
  file_size : N;
  file_text : option jsstring
}.

Inductive promise (A : Type) : Type :=
| Resolved (a : A)
| Rejected (e : exn)
| Pending.
#[global] Arguments Resolved {A} a.
#[global] Arguments Rejected {A} e.
#[global] Arguments Pending {A}.

(** [file.name.split(".").pop()?.toLowerCase()]. *)
Definition file_ext (name : jsstring) : option jsstring :=
  option_map toLowerCase (pop (split 46 name)).

Definition ext_is (ext : option jsstring) (s : string) : bool :=
  match ext with
  | Some e => jsstring_eqb e (js s)
  | None => false
  end.

(** The body of the [onload] handler: the [try] block with its [catch]. *)
Definition sample_count (ext : option jsstring) (content : jsstring) : Z :=
  if ext_is ext "json" then
    match JSON_parse content with
    | Some (JArray items) => Z.of_nat (length items)
    | Some _ => 1
    | None => 0
    end
  else if ext_is ext "jsonl" then
    Z.of_nat (length (List.filter (fun line => negb (is_empty (trim line)))
                                  (split LF (trim content))))
  else if ext_is ext "csv" then
    let lines := split LF (trim content) in
    Z.max 0 (Z.of_nat (length lines) - 1)
  else 0.

Definition parseFileForSampleCount (file : File) : promise Z :=
  match file_text file with
  | Some content => Resolved (sample_count (file_ext (file_name file)) content)
  | None => Pending
  end.

(** [x.toFixed(2)] for [x = num / den] with [den] a power of two, so that
    the double is exact: the nearest multiple of 1/100, the larger on a tie. *)
Definition toFixed2 (num den : N) : jsstring :=
  let n := (200 * num + den) / (2 * den) in
  decimal (n / 100) ++ js "." ++ decimal ((n mod 100) / 10) ++ decimal (n mod 10).

Definition formatFileSize (bytes : N) : jsstring :=
  if bytes <? 1024 then decimal bytes ++ js " B"
  else if bytes <? 1024 * 1024 then toFixed2 bytes 1024 ++ js " KB"
  else toFixed2 bytes (1024 * 1024) ++ js " MB".

(** ** [app/datasets/page.tsx] *)

Record Dataset : Type := mk_dataset {
  ds_id : jsstring;
  ds_name : jsstring;
  samples : Z;
  size : jsstring;
  format : jsstring;
  createdAt : jsstring;
  content : option jsstring
}.

(** The object literal [newDataset], as [JSON.stringify] sees it: a missing
    [content] is no member. *)
Definition dataset_json (d : Dataset) : json :=
  JObject ([(js "id", JString (ds_id d));
            (js "name", JString (ds_name d));
            (js "samples", JNumber (samples d <? 0)%Z (Z.abs_N (samples d)) 0);
            (js "size", JString (size d));
            (js "format", JString (format d));
            (js "createdAt", JString (createdAt d))]
           ++ match content d with
              | Some c => [(js "content", JString c)]
              | None => []
              end).

Inductive ModalMode : Type := upload_mode | create_mode.

Record DatasetsPage : Type := mk_datasets_page {
  datasets : jsval;
  isModalOpen : bool;
  modalMode : ModalMode;
  loading : bool;
  uploadedFile : option File;
  datasetName : jsstring;
  selectedFormat : DatasetFormat;
  csvRows : list CSVRow
}.

(** Bytes of the UTF-8 encoding, the [size] of [new Blob([content])]; a
    surrogate outside a pair is encoded as U+FFFD. *)
Fixpoint utf8_length (s : jsstring) : N :=
  match s with
  | [] => 0
  | c :: r =>
      if c <? 128 then 1 + utf8_length r
      else if c <? 2048 then 2 + utf8_length r
      else if is_high_surrogate c then
        match r with
        | d :: r' => if is_low_surrogate d then 4 + utf8_length r'
                     else 3 + utf8_length r
        | [] => 3
        end
      else 3 + utf8_length r
  end.

(** [name.replace(re, empty)] where [re] matches a dot followed, up to the
    end, by one or more characters other than slash and dot: the name
    without its extension. *)
Definition strip_extension (name : jsstring) : jsstring :=
  match rev (split 46 name) with
  | last :: before =>
      if is_empty before || is_empty last || existsb (N.eqb 47) last then name
      else join (js ".") (rev before)
  | [] => name
  end.

Definition json_headers : list (jsstring * jsstring) :=
  [(js "Content-Type", js "application/json")].

Definition fetchDatasets : M DatasetsPage unit :=
  try_finally
    (try_catch
       (set_page (fun p => mk_datasets_page (datasets p) (isModalOpen p)
                   (modalMode p) true (uploadedFile p) (datasetName p)
                   (selectedFormat p) (csvRows p));;
        response ← fetch (mk_request (API_URL env ++ js "/datasets") None [] None);
        if ok response then
          data ← await_json response;
          ds ← get (Some data) (js "datasets");
          set_page (fun p => mk_datasets_page (js_or ds (Some (JArray [])))
                      (isModalOpen p) (modalMode p) (loading p) (uploadedFile p)
                      (datasetName p) (selectedFormat p) (csvRows p))
        else mret tt)
       (fun _ => emit (EvConsoleError (js "Error fetching datasets:"))))
    (set_page (fun p => mk_datasets_page (datasets p) (isModalOpen p)
                (modalMode p) false (uploadedFile p) (datasetName p)
                (selectedFormat p) (csvRows p))).

Definition empty_row : CSVRow := mk_row [] [] [].

Definition handleCloseModal : M DatasetsPage unit :=
  set_page (fun p => mk_datasets_page (datasets p) false (modalMode p)
              (loading p) None [] json_format [empty_row]).

(** [await p]. *)
Definition await {P A} (p : promise A) : M P A :=
  match p with
  | Resolved a => ret a
  | Rejected e => throw e
  | Pending => fun w => (w, Hang)
  end.

Definition post_dataset (newDataset : Dataset) : M DatasetsPage unit :=
  response ← fetch (mk_request (API_URL env ++ js "/datasets") (Some (js "POST"))
                      json_headers
                      (Some (JSON_stringify (dataset_json newDataset))));
  if ok response then fetchDatasets;; handleCloseModal else mret tt.

Definition today : jsstring :=
  List.hd [] (split 84 (toISOString env (Date_now env))).

(** [newDataset] of the create branch. *)
Definition created_dataset (p : DatasetsPage) : Dataset :=
  let content := convertRowsToFormat (csvRows p) (selectedFormat p) in
  let size := utf8_length content in
  mk_dataset (js "ds-" ++ decimal (Date_now env)) (datasetName p)
    (Z.of_nat (length (csvRows p))) (formatFileSize size)
    (toUpperCase (format_name (selectedFormat p))) today (Some content).

(** [newDataset] of the upload branch. *)
Definition uploaded_dataset (file : File) (samples : Z) : Dataset :=
  mk_dataset (js "ds-" ++ decimal (Date_now env))
    (strip_extension (file_name file)) samples
    (formatFileSize (file_size file))
    (match pop (split 46 (file_name file)) with
     | Some e => if is_empty (toUpperCase e) then js "UNKNOWN" else toUpperCase e
     | None => js "UNKNOWN"
     end)
    today None.

Definition handleSaveDataset : M DatasetsPage unit :=
  try_catch
    (p ← get_page;
     match modalMode p, is_empty (datasetName p), uploadedFile p with
     | create_mode, false, _ => post_dataset (created_dataset p)
     | upload_mode, _, Some file =>
         samples ← await (parseFileForSampleCount file);
         post_dataset (uploaded_dataset file samples)
     | _, _, _ => mret tt
     end)
    (fun _ => emit (EvConsoleError (js "Error saving dataset:"))).

(** The page as [useState] initialises it. *)
Definition datasets_page_init : DatasetsPage :=
  mk_datasets_page (Some (JArray [])) false create_mode true None []
                   json_format [empty_row].

Definition setCsvRows (rows : list CSVRow) : M DatasetsPage unit :=
  set_page (fun p => mk_datasets_page (datasets p) (isModalOpen p) (modalMode p)
              (loading p) (uploadedFile p) (datasetName p) (selectedFormat p)
              rows).

Definition setDatasetName (name : jsstring) : M DatasetsPage unit :=
  set_page (fun p => mk_datasets_page (datasets p) (isModalOpen p) (modalMode p)
              (loading p) (uploadedFile p) name (selectedFormat p) (csvRows p)).

Definition setSelectedFormat (f : DatasetFormat) : M DatasetsPage unit :=
  set_page (fun p => mk_datasets_page (datasets p) (isModalOpen p) (modalMode p)
              (loading p) (uploadedFile p) (datasetName p) f (csvRows p)).

Definition setUploadedFile (file : option File) : M DatasetsPage unit :=
  set_page (fun p => mk_datasets_page (datasets p) (isModalOpen p) (modalMode p)
              (loading p) file (datasetName p) (selectedFormat p) (csvRows p)).

Definition handleOpenModal (mode : ModalMode) : M DatasetsPage unit :=
  set_page (fun p => mk_datasets_page (datasets p) true mode (loading p)
              (uploadedFile p) (datasetName p)
              (match mode with
               | create_mode => json_format
               | upload_mode => selectedFormat p
               end)
              (csvRows p)).

Definition handleAddCsvRow : M DatasetsPage unit :=
  p ← get_page;
  setCsvRows (csvRows p ++ [empty_row]).

(** [rows.filter((_, i) => keep(i))], from the index [i] on. *)
Fixpoint filter_index {A} (keep : nat -> bool) (i : nat) (rows : list A)
    : list A :=
  match rows with
  | [] => []
  | row :: rest =>
      if keep i then row :: filter_index keep (S i) rest
      else filter_index keep (S i) rest
  end.

(** The index is the one the table passes: the position of a row. *)
Definition handleDeleteCsvRow (index : nat) : M DatasetsPage unit :=
  p ← get_page;
  if (1 <? length (csvRows p))%nat then
    setCsvRows (filter_index (fun i => negb (i =? index)%nat) 0 (csvRows p))
  else mret tt.

Inductive CSVField : Type := instruction_field | input_field | output_field.

(** [row[field] = value]. *)
Definition set_field (field : CSVField) (value : jsstring) (row : CSVRow)
    : CSVRow :=
  match field with
  | instruction_field => mk_row value (input row) (output row)
  | input_field => mk_row (instruction row) value (output row)
  | output_field => mk_row (instruction row) (input row) value
  end.

(** [handleCsvCellChange]: the assignment goes to the row object that the
    copied array shares with the old one, and the copy becomes the state;
    where the array has no row at [index] the assignment throws and no state
    is set. *)
Definition handleCsvCellChange (index : nat) (field : CSVField)
    (value : jsstring) : M DatasetsPage unit :=
  p ← get_page;
  let newRows := csvRows p in
  match newRows !! index with
  | Some row => setCsvRows (<[index := set_field field value row]> newRows)
  | None => throw (TypeError (js "Cannot set properties of undefined"))
  end.

Definition handleDeleteDataset (id : jsstring) : M DatasetsPage unit :=
  try_catch
    (response ← fetch (mk_request (API_URL env ++ js "/datasets/" ++ id)
                         (Some (js "DELETE")) [] None);
     if ok response then fetchDatasets else mret tt)
    (fun _ => emit (EvConsoleError (js "Error deleting dataset:"))).

(** ** [components/datasets/DatasetModal.tsx] and [DatasetFormContent.tsx]:
    when the buttons are disabled *)

Definition isSaveDisabled (mode : ModalMode) (datasetName : jsstring)
    (csvRows : list CSVRow) (uploadedFile : option File) : bool :=
  match mode with
  | create_mode => is_empty datasetName || (length csvRows =? 0)%nat
  | upload_mode => match uploadedFile with Some _ => false | None => true end
  end.

(** [disabled] of the button that deletes a row. *)
Definition isDeleteRowDisabled (csvRows : list CSVRow) : bool :=
  (length csvRows =? 1)%nat.

(** What the user does on the page: each input calls the handler the
    components wire to it.  An exception of a handler leaves the page as the
    handler left it. *)
Inductive page_input : Type :=
| ClickOpen (mode : ModalMode)
| ClickClose
| ClickAddRow
| ClickDeleteRow (index : nat)
| TypeCell (index : nat) (field : CSVField) (value : jsstring)
| TypeName (name : jsstring)
| ClickFormat (f : DatasetFormat)
| PickFile (file : option File)
| ClickSave
| ClickDeleteDataset (id : jsstring)
| Reload.

Definition page_handler (i : page_input) : M DatasetsPage unit :=
  match i with
  | ClickOpen mode => handleOpenModal mode
  | ClickClose => handleCloseModal
  | ClickAddRow => handleAddCsvRow
  | ClickDeleteRow index => handleDeleteCsvRow index
  | TypeCell index field value => handleCsvCellChange index field value
  | TypeName name => setDatasetName name
  | ClickFormat f => setSelectedFormat f
  | PickFile file => setUploadedFile file
  | ClickSave => handleSaveDataset
  | ClickDeleteDataset id => handleDeleteDataset id
  | Reload => fetchDatasets
  end.

Definition page_run (inputs : list page_input) (w : World DatasetsPage)
    : World DatasetsPage :=
  fold_left (fun w i => fst (page_handler i w)) inputs w.

(** ** [lib/api-client.ts] *)

Record RequestOptions : Type := mk_options {
  opt_params : option (list (jsstring * jsstring));
  opt_retry : option nat;
  opt_retryDelay : option N;
  opt_method : option jsstring;
  opt_headers : list (jsstring * jsstring);
  opt_body : option jsstring
}.

Definition no_options : RequestOptions :=
  mk_options None None None None [] None.

(** The options [fetch] reads. *)
Definition fetch_request (url : jsstring) (o : RequestOptions) : request :=
  mk_request url (opt_method o) (opt_headers o) (opt_body o).

Definition retry_of (o : RequestOptions) : nat :=
  match opt_retry o with Some r => r | None => 0%nat end.

Definition retryDelay_of (o : RequestOptions) : N :=
  match opt_retryDelay o with Some d => d | None => 1000 end.

(** The error thrown behind the loop. *)
Definition retry_failure (retry : nat) (lastError : option exn) : exn :=
  ApiError
    (js "Network request failed after " ++ decimal (N.of_nat (retry + 1))
       ++ js " attempts: "
       ++ match lastError with
          | Some e => exn_message e
          | None => js "undefined"
          end)
    None
    (match lastError with Some e => DataError e | None => NoData end).

(** The [for] loop of [fetchWithRetry], at the iteration [attempt], with
    [todo] iterations left to run ([attempt + todo = retry + 1]). *)
Fixpoint retry_loop {P} (req : request) (retry : nat) (retryDelay : N)
    (todo attempt : nat) (lastError : option exn) : M P Response :=
  match todo with
  | O => throw (retry_failure retry lastError)
  | S todo' =>
      try_catch (fetch req)
        (fun error =>
           (if (attempt <? retry)%nat then emit (EvSleep retryDelay)
            else mret tt);;
           retry_loop req retry retryDelay todo' (S attempt) (Some error))
  end.

Definition fetchWithRetry {P} (url : jsstring) (options : RequestOptions)
    : M P Response :=
  let retry := retry_of options in
  retry_loop (fetch_request url options) retry (retryDelay_of options)
             (S retry) 0%nat None.

(** [{ ...a, ...b }] on header objects: a key of [b] replaces the value of
    the same key of [a] in place, a new key goes to the end. *)
Fixpoint set_header (k v : jsstring) (hs : list (jsstring * jsstring))
    : list (jsstring * jsstring) :=
  match hs with
  | [] => [(k, v)]
  | (k', v') :: rest =>
      if jsstring_eqb k' k then (k, v) :: rest
      else (k', v') :: set_header k v rest
  end.

Definition spread_headers (a b : list (jsstring * jsstring))
    : list (jsstring * jsstring) :=
  fold_left (fun acc kv => set_header (fst kv) (snd kv) acc) b a.

Definition http_message (response : Response) : jsstring :=
  js "HTTP " ++ decimal (status response) ++ js ": " ++ statusText response.

(** The body of a response that is not OK: the JSON value, or the text when
    [json()] throws; the response is the one [json()] left behind.  The
    constructor of [ApiError] hands the message to the one of [Error], which
    converts it to a string; when that throws, the TypeError is what
    [apiRequest] throws. *)
Definition read_errorData {P} (response : Response) : M P json :=
  match Response_json response with
  | (_, inl v) => ret v
  | (response', inr _) =>
      match Response_text response' with
      | (_, inl text) => ret (JString text)
      | (_, inr e) => throw e
      end
  end.

Definition apiRequest {P} (endpoint : jsstring) (options : RequestOptions)
    : M P json :=
  let url := API_URL env ++ endpoint
               ++ match opt_params options with
                  | Some params => js "?" ++ URLSearchParams_toString env params
                  | None => []
                  end in
  let headers := spread_headers json_headers (opt_headers options) in
  response ← fetchWithRetry url
               (mk_options None (opt_retry options) (opt_retryDelay options)
                  (opt_method options) headers (opt_body options));
  if negb (ok response) then
    errorData ← read_errorData response;
    message ← to_string
                (js_or (get_prop_opt (Some errorData) (js "detail"))
                   (js_or (get_prop_opt (Some errorData) (js "message"))
                      (Some (JString (http_message response)))));
    throw (ApiError message (Some (status response)) (DataValue errorData))
  else
    try_catch (await_json response) (fun _ => ret (JObject [])).

Definition with_method (o : RequestOptions) (m : string) (b : option jsstring)
    : RequestOptions :=
  mk_options (opt_params o) (opt_retry o) (opt_retryDelay o) (Some (js m))
             (opt_headers o) b.

(** [data ? JSON.stringify(data) : undefined]. *)
Definition body_of (data : jsval) : option jsstring :=
  match data with
  | Some v => if truthy data then Some (JSON_stringify v) else None
  | None => None
  end.

Definition apiClient_get {P} (endpoint : jsstring) (o : RequestOptions) : M P json :=
  apiRequest endpoint (with_method o "GET" (opt_body o)).

Definition apiClient_post {P} (endpoint : jsstring) (data : jsval)
    (o : RequestOptions) : M P json :=
  apiRequest endpoint (with_method o "POST" (body_of data)).

Definition apiClient_delete {P} (endpoint : jsstring) (o : RequestOptions) : M P json :=
  apiRequest endpoint (with_method o "DELETE" (opt_body o)).

Definition apiClient_download {P} (endpoint filename : jsstring)
    (o : RequestOptions) : M P unit :=
  response ← fetchWithRetry (API_URL env ++ endpoint) o;
  if negb (ok response) then
    throw (ApiError (js "Download failed: HTTP " ++ decimal (status response))
                    (Some (status response)) NoData)
  else
    match snd (Response_blob response) with
    | inl blob => emit (EvDownload (FromBlob blob) filename)
    | inr e => throw e
    end.

Definition apiClient_put {P} (endpoint : jsstring) (data : jsval)
    (o : RequestOptions) : M P json :=
  apiRequest endpoint (with_method o "PUT" (body_of data)).

Definition apiClient_patch {P} (endpoint : jsstring) (data : jsval)
    (o : RequestOptions) : M P json :=
  apiRequest endpoint (with_method o "PATCH" (body_of data)).

(** ** [types/common.ts] and the jobs list, [app/page.tsx] *)

Inductive JobStatus : Type :=
| running | completed | failed | pending | paused | stopped.

#[global] Instance JobStatus_eq_dec : EqDecision JobStatus.
Proof. solve_decision. Defined.

Record FineTuningJob : Type := mk_job {
  job_id : jsstring;
  job_name : jsstring;
  job_model : jsstring;
  job_dataset : jsstring;
  job_status : JobStatus;
  job_progress : Z;
  job_createdAt : jsstring;
  job_duration : jsstring
}.

Record HomePage : Type := mk_home {
  jobs : jsval;
  jobs_loading : bool
}.

Definition setJobs (v : jsval) : M HomePage unit :=
  set_page (fun p => mk_home v (jobs_loading p)).

Definition setLoading (b : bool) : M HomePage unit :=
  set_page (fun p => mk_home (jobs p) b).

Definition alert {P} (text : jsstring) : M P unit := emit (EvAlert text).

Definition console_error {P} (label : jsstring) : M P unit :=
  emit (EvConsoleError label).

(** [window.confirm(text)]. *)
Definition confirm {P} (text : jsstring) : M P bool :=
  emit (EvConfirm text);; mret (confirm_answer env text).

(** [window.location.href = url]. *)
Definition navigate {P} (url : jsstring) : M P unit := emit (EvNavigate url).

Definition fetchJobs : M HomePage unit :=
  try_finally
    (try_catch
       (setLoading true;;
        jobsRes ← fetch (mk_request (API_URL env ++ js "/jobs") None [] None);
        if ok jobsRes then
          jobsData ← await_json jobsRes;
          js_jobs ← get (Some jobsData) (js "jobs");
          setJobs (js_or js_jobs (Some (JArray [])))
        else mret tt)
       (fun _ => console_error (js "Error fetching jobs:")))
    (setLoading false).

(** The [else] branch of the handlers: the alert with the [detail] of the
    error body. *)
Definition alert_detail {P} (prefix : string) (response : Response) : M P unit :=
  error ← await_json response;
  detail ← get (Some error) (js "detail");
  text ← to_string (js_or detail (Some (JString (js "Unknown error"))));
  alert (js prefix ++ text).

Definition job_url (job : FineTuningJob) : jsstring :=
  API_URL env ++ js "/jobs/" ++ job_id job.

Definition post (url : jsstring) : request :=
  mk_request url (Some (js "POST")) [] None.

Definition handleView (job : FineTuningJob) : M HomePage unit :=
  navigate (js "/jobs/" ++ job_id job).

Definition handleStart (job : FineTuningJob) : M HomePage unit :=
  try_catch
    (response ← fetch (post (job_url job ++ js "/start"));
     if ok response then
       fetchJobs;; navigate (js "/jobs/" ++ job_id job)
     else alert_detail "Failed to start job: " response)
    (fun _ => console_error (js "Error starting job:");;
              alert (js "Failed to start job. Please try again.")).

Definition handleEdit (job : FineTuningJob) : M HomePage unit :=
  navigate (js "/new-job?"
              ++ URLSearchParams_toString env
                   [(js "edit", job_id job); (js "name", job_name job);
                    (js "model", job_model job); (js "dataset", job_dataset job)]).

Definition handlePause (job : FineTuningJob) : M HomePage unit :=
  try_catch
    (response ← fetch (post (job_url job ++ js "/pause"));
     if ok response then fetchJobs
     else alert_detail "Failed to pause job: " response)
    (fun _ => console_error (js "Error pausing job:");;
              alert (js "Failed to pause job. Please try again.")).

Definition stop_question : jsstring :=
  js "Are you sure you want to stop this training job?" ++ [LF; LF]
    ++ js "This action cannot be undone.".

Definition handleStop (job : FineTuningJob) : M HomePage unit :=
  confirmed ← confirm stop_question;
  if negb confirmed then mret tt
  else
    try_catch
      (response ← fetch (post (job_url job ++ js "/stop"));
       if ok response then fetchJobs
       else alert_detail "Failed to stop job: " response)
      (fun _ => console_error (js "Error stopping job:");;
                alert (js "Failed to stop job. Please try again.")).

Definition handleViewLogs (job : FineTuningJob) : M HomePage unit :=
  navigate (js "/jobs/" ++ job_id job ++ js "#logs").

(** The object literal [newJobData] of [handleRetry]. *)
Definition newJobData (job : FineTuningJob) : json :=
  JObject [(js "name", JString (job_name job ++ js " (Retry)"));
           (js "model", JString (job_model job));
           (js "dataset", JString (job_dataset job))].

Definition retry_question : jsstring :=
  js "Create a new training job with the same configuration?".

Definition retry_request (job : FineTuningJob) : request :=
  mk_request (API_URL env ++ js "/jobs") (Some (js "POST")) json_headers
             (Some (JSON_stringify (newJobData job))).

Definition handleRetry (job : FineTuningJob) : M HomePage unit :=
  confirmed ← confirm retry_question;
  if negb confirmed then mret tt
  else
    try_catch
      (response ← fetch (retry_request job);
       if ok response then
         fetchJobs;; alert (js "New training job created successfully")
       else alert_detail "Failed to create retry job: " response)
      (fun _ => console_error (js "Error retrying job:");;
                alert (js "Failed to retry job. Please try again.")).

Definition delete_question : jsstring :=
  js "Are you sure you want to delete this job?" ++ [LF; LF]
    ++ js "This action cannot be undone.".

Definition handleDeleteJob (job : FineTuningJob) : M HomePage unit :=
  confirmed ← confirm delete_question;
  if negb confirmed then mret tt
  else
    try_catch
      (response ← fetch (mk_request (job_url job) (Some (js "DELETE")) [] None);
       if ok response then fetchJobs
       else alert_detail "Failed to delete job: " response)
      (fun _ => console_error (js "Error deleting job:");;
                alert (js "Failed to delete job. Please try again.")).

(** The name the jobs list gives the downloaded file, for the step as the
    template literal prints it. *)
Definition list_download_name (job : FineTuningJob) (step : jsstring) : jsstring :=
  job_id job ++ js "-checkpoint-" ++ step ++ js ".json".

(** [len === 0]. *)
Definition is_zero_number (len : jsval) : bool :=
  match len with
  | Some (JNumber _ m e) => is_zero_double m e
  | _ => false
  end.

(** The property key of [len - 1] for a value [len]: [ToNumber], the
    subtraction, and the number printed as a key.  [None] is the TypeError of
    [ToNumber] for an object or array that cannot be converted.  The
    integers below 2^53 are computed here; an object that can be converted
    is no number, and so is what lies below it. *)
Definition key_below (len : jsval) : option jsstring :=
  match len with
  | None => Some (js "NaN")
  | Some JNull => Some (js "-1")
  | Some (JBool true) => Some (js "0")
  | Some (JBool false) => Some (js "-1")
  | Some (JNumber neg m e) =>
      Some (if (0 <=? e)%Z && (m * 10 ^ Z.to_N e <? 2 ^ 53) then
              let n := m * 10 ^ Z.to_N e in
              if neg || (n =? 0) then js "-" ++ decimal (n + 1)
              else decimal (n - 1)
            else Number_below_other env neg m e)
  | Some (JString s) => Some (String_below env s)
  | Some (JArray items) => option_map (String_below env) (ToString_json (JArray items))
  | Some (JObject members) =>
      if has_own (js "toString") members then None else Some (js "NaN")
  end.

(** [v[v.length - 1]] for a truthy [v] whose [length] is [len]: the last
    item of an array, the last code unit of a string, the member of an
    object whose key is the number below its [length]; a number and [true]
    have no [length] and no such member. *)
Definition item_below {P} (v len : jsval) : M P jsval :=
  match v with
  | Some (JArray []) => ret None
  | Some (JArray (first :: others)) => ret (Some (List.last others first))
  | Some (JString s) => ret (option_map (fun c => JString [c]) (last s))
  | Some (JObject members) =>
      key ← lift_option (key_below len) to_primitive_error;
      ret (lookup_member key members)
  | _ => ret None
  end.

(** [handleDownload]: the last checkpoint of the list the server sent. *)
Definition handleDownload (job : FineTuningJob) : M HomePage unit :=
  try_catch
    (response ← fetch (mk_request (job_url job ++ js "/checkpoints") None [] None);
     (if negb (ok response) then throw (Error (js "Failed to fetch checkpoints"))
      else mret tt);;
     data ← await_json response;
     checkpoints ← get (Some data) (js "checkpoints");
     len ← (if truthy checkpoints then get checkpoints (js "length")
            else mret None);
     if negb (truthy checkpoints) || is_zero_number len then
       alert (js "No checkpoints available for download")
     else
       lastCheckpoint ← item_below checkpoints len;
       cp_id ← get lastCheckpoint (js "id");
       id_text ← to_string cp_id;
       let downloadUrl := job_url job ++ js "/checkpoints/" ++ id_text
                            ++ js "/download" in
       step ← get lastCheckpoint (js "step");
       step_text ← to_string step;
       emit (EvDownload (FromUrl downloadUrl) (list_download_name job step_text)))
    (fun _ => console_error (js "Error downloading model:");;
              alert (js "Failed to download model. Please try again.")).

(** The items of the actions menu. *)
Inductive MenuItem : Type :=
| View | Start | Edit | Pause | Stop | DownloadModel | ViewLogs | Retry | Delete.

#[global] Instance MenuItem_eq_dec : EqDecision MenuItem.
Proof. solve_decision. Defined.

Definition status_is (s t : JobStatus) : bool := bool_decide (s = t).

Definition when (b : bool) (item : MenuItem) : list MenuItem :=
  if b then [item] else [].

(** The children of [DropdownMenuContent] for a job of status [s], in the
    order of the source. *)
Definition menu (s : JobStatus) : list MenuItem :=
  [View]
    ++ when (status_is s pending || status_is s paused) Start
    ++ when (status_is s pending) Edit
    ++ when (status_is s running) Pause
    ++ when (status_is s running || status_is s paused) Stop
    ++ when (status_is s completed) DownloadModel
    ++ when (status_is s running || status_is s completed || status_is s failed) ViewLogs
    ++ when (status_is s failed) Retry
    ++ [Delete].

(** The [onClick] of each item. *)
Definition onClick (item : MenuItem) (job : FineTuningJob) : M HomePage unit :=
  match item with
  | View => handleView job
  | Start => handleStart job
  | Edit => handleEdit job
  | Pause => handlePause job
  | Stop => handleStop job
  | DownloadModel => handleDownload job
  | ViewLogs => handleViewLogs job
  | Retry => handleRetry job
  | Delete => handleDeleteJob job
  end.

(** ** [components/ui/status-badge.tsx] *)

(** [labels[status]] and [styles[status]]. *)
Definition StatusBadge_label (s : JobStatus) : jsstring :=
  match s with
  | running => js "Running"
  | completed => js "Completed"
  | failed => js "Failed"
  | pending => js "Pending"
  | paused => js "Paused"
  | stopped => js "Stopped"
  end.

Definition StatusBadge_style (s : JobStatus) : jsstring :=
  match s with
  | running => js "bg-neutral-100 text-black"
  | completed => js "bg-green-50 text-green-700"
  | failed => js "bg-red-50 text-red-700"
  | pending => js "bg-neutral-100 text-neutral-600"
  | paused => js "bg-yellow-50 text-yellow-700"
  | stopped => js "bg-neutral-100 text-neutral-500"
  end.

(** ** The job page, [app/jobs/[id]/page.tsx]: the download handler *)

Record JobInfo : Type := mk_info {
  info_id : jsstring;
  info_name : jsstring;
  info_model : jsstring;
  info_dataset : jsstring;
  info_status : jsval
}.

Record JobDetailPage : Type := mk_detail {
  jobId : jsstring;
  jobInfo : option JobInfo
}.

(** [jobInfo?.name || jobId]. *)
Definition download_stem (p : JobDetailPage) : jsstring :=
  match jobInfo p with
  | Some info => if is_empty (info_name info) then jobId p else info_name info
  | None => jobId p
  end.

Definition detail_download_name (p : JobDetailPage) (step : N) : jsstring :=
  download_stem p ++ js "-checkpoint-" ++ Number_toString false step 0
    ++ js ".json".

Definition handleDownloadCheckpoint (checkpointId : jsstring) (step : N)
    : M JobDetailPage unit :=
  try_catch
    (p ← get_page;
     response ← fetch (mk_request
                         (API_URL env ++ js "/jobs/" ++ jobId p
                            ++ js "/checkpoints/" ++ checkpointId ++ js "/download")
                         None [] None);
     (if negb (ok response) then throw (Error (js "Failed to download checkpoint"))
      else mret tt);;
     match snd (Response_blob response) with
     | inl blob => emit (EvDownload (FromBlob blob) (detail_download_name p step))
     | inr e => throw e
     end)
    (fun _ => console_error (js "Error downloading checkpoint:");;
              alert (js "Failed to download checkpoint. Please try again.")).

(** ** The job page: the status badge *)

Record badge_config : Type := mk_badge {
  badge_icon : jsstring;
  badge_text : jsstring;
  badge_bg : jsstring;
  badge_text_color : jsstring;
  badge_border : jsstring;
  badge_dot : jsstring
}.

(** The own properties of the object literal [statusConfig]. *)
Definition statusConfig (key : jsstring) : option badge_config :=
  if jsstring_eqb key (js "running") then
    Some (mk_badge (js "Activity") (js "Running") (js "bg-neutral-100")
            (js "text-black") (js "border-neutral-200") (js "bg-black"))
  else if jsstring_eqb key (js "completed") then
    Some (mk_badge (js "CheckCircle2") (js "Completed") (js "bg-green-50")
            (js "text-green-700") (js "border-green-200") (js "bg-green-500"))
  else if jsstring_eqb key (js "failed") then
    Some (mk_badge (js "AlertCircle") (js "Failed") (js "bg-red-50")
            (js "text-red-700") (js "border-red-200") (js "bg-red-500"))
  else if jsstring_eqb key (js "pending") then
    Some (mk_badge (js "Clock") (js "Pending") (js "bg-neutral-50")
            (js "text-neutral-700") (js "border-neutral-200") (js "bg-neutral-500"))
  else None.

(** The property names every object inherits from [Object.prototype]. *)
Definition Object_prototype_names : list jsstring :=
  [js "constructor"; js "hasOwnProperty"; js "isPrototypeOf";
   js "propertyIsEnumerable"; js "toLocaleString"; js "toString";
   js "valueOf"; js "__proto__"; js "__defineGetter__";
   js "__defineSetter__"; js "__lookupGetter__"; js "__lookupSetter__"].

(** [getStatusBadge], for the job info that is loaded: the entry of
    [statusConfig] the badge is built from.  The key is the status as the
    server sent it, converted to a property key.  Without an entry [config]
    is [undefined] and reading [config.icon] throws; an inherited name finds
    a value that is no entry, and what is built from it is outside the
    model. *)
Definition getStatusBadge (info : JobInfo) : outcome badge_config :=
  match ToString (info_status info) with
  | None => Throw to_primitive_error
  | Some key =>
      match statusConfig key with
      | Some config => Ret config
      | None =>
          if existsb (jsstring_eqb key) Object_prototype_names then OutOfModel
          else Throw (TypeError (js "Cannot read properties of undefined"))
      end
  end.

(** ** Timers: [setInterval] and [clearInterval]

    The table of the intervals that are set; [C] is what a callback closes
    over.  Identifiers start at 1, as in a browser, so that an identifier is
    truthy. *)

Record timer (C : Type) : Type := mk_timer {
  timer_id : nat;
  timer_period : N;
  timer_closure : C
}.
#[global] Arguments mk_timer {C} timer_id timer_period timer_closure.
#[global] Arguments timer_id {C} t.
#[global] Arguments timer_period {C} t.
#[global] Arguments timer_closure {C} t.

Record timers (C : Type) : Type := mk_timers {
  active : list (timer C);
  next_id : nat
}.
#[global] Arguments mk_timers {C} active next_id.
#[global] Arguments active {C} t.
#[global] Arguments next_id {C} t.

Definition no_timers {C} : timers C := mk_timers [] 1.

Definition setInterval {C} (closure : C) (period : N) (t : timers C)
    : nat * timers C :=
  (next_id t,
   mk_timers (active t ++ [mk_timer (next_id t) period closure]) (S (next_id t))).

Definition clearInterval {C} (id : nat) (t : timers C) : timers C :=
  mk_timers (List.filter (fun x => negb (timer_id x =? id)%nat) (active t))
            (next_id t).

Definition find_timer {C} (id : nat) (t : timers C) : option (timer C) :=
  List.find (fun x => (timer_id x =? id)%nat) (active t).

(** ** The job page: the polling effect

    The calls the effect and its interval make, by the name of the local
    function; each issues one GET request for the job. *)

Inductive poll_call : Type :=
| fetchJobInfo | fetchLossData | fetchLogs | fetchCheckpoints.

Definition poll_url (job : jsstring) (c : poll_call) : jsstring :=
  API_URL env ++ js "/jobs/" ++ job
    ++ match c with
       | fetchJobInfo => js "/info"
       | fetchLossData => js "/metrics"
       | fetchLogs => js "/logs"
       | fetchCheckpoints => js "/checkpoints"
       end.

(** The state the effect reads and writes: [isTraining], the dependencies
    and the interval of the effect that is in place, the timer table, and
    the calls made so far.  A callback closes over the [isTraining] of the
    render that created it. *)
Record Polling : Type := mk_polling {
  mounted : bool;
  isTraining : bool;
  effect_deps : option bool;
  effect_interval : option nat;
  page_timers : timers bool;
  poll_calls : list poll_call
}.

(** [useState(true)], before the component mounts. *)
Definition polling_init : Polling :=
  mk_polling false true None None no_timers [].

(** The clean-up of the effect in place: [clearInterval(interval)]. *)
Definition effect_cleanup (p : Polling) : Polling :=
  match effect_interval p with
  | Some id =>
      mk_polling (mounted p) (isTraining p) (effect_deps p) None
                 (clearInterval id (page_timers p)) (poll_calls p)
  | None => p
  end.

(** The body of the effect: the four calls, then [setInterval] with 3000. *)
Definition effect_body (p : Polling) : Polling :=
  let (id, tt') := setInterval (isTraining p) 3000 (page_timers p) in
  mk_polling (mounted p) (isTraining p) (Some (isTraining p)) (Some id) tt'
    (poll_calls p ++ [fetchJobInfo; fetchLossData; fetchLogs; fetchCheckpoints]).

(** After a render: the effect runs again when [isTraining] differs from the
    dependency it ran with (the job id of the page does not change). *)
Definition commit (p : Polling) : Polling :=
  match effect_deps p with
  | Some d => if Bool.eqb d (isTraining p) then p
              else effect_body (effect_cleanup p)
  | None => effect_body (effect_cleanup p)
  end.

(** [data.status === "running"]. *)
Definition is_running_value (v : jsval) : bool :=
  match v with
  | Some (JString s) => jsstring_eqb s (js "running")
  | _ => false
  end.

(** The callback of the interval. *)
Definition interval_callback (captured : bool) : list poll_call :=
  if captured then [fetchLossData; fetchLogs] else [].

(** What happens to the page: it mounts, a job-info response arrives (OK
    with a JSON body whose [status] is [reported], or not), a timer fires,
    it unmounts.  A response that arrives after the page is gone sets no
    state. *)
Inductive poll_input : Type :=
| Mount
| InfoArrives (usable : bool) (reported : jsval)
| Tick (id : nat)
| Unmount.

Definition poll_step (p : Polling) (i : poll_input) : Polling :=
  match i with
  | Mount =>
      if mounted p then p
      else commit (mk_polling true true None None (page_timers p) (poll_calls p))
  | InfoArrives true reported =>
      if mounted p then
        commit (mk_polling true (is_running_value reported) (effect_deps p)
                  (effect_interval p) (page_timers p) (poll_calls p))
      else p
  | InfoArrives false _ => p
  | Tick id =>
      match find_timer id (page_timers p) with
      | Some t =>
          mk_polling (mounted p) (isTraining p) (effect_deps p) (effect_interval p)
            (page_timers p)
            (poll_calls p ++ interval_callback (timer_closure t))
      | None => p
      end
  | Unmount =>
      let q := effect_cleanup p in
      mk_polling false (isTraining q) None None (page_timers q) (poll_calls q)
  end.

Definition poll_run (p : Polling) (inputs : list poll_input) : Polling :=
  fold_left poll_step inputs p.

(** The page together with the job it shows: the job's status on the server
    moves on its own, and a job-info response reports it. *)
Definition status_name (s : JobStatus) : jsstring :=
  match s with
  | running => js "running"
  | completed => js "completed"
  | failed => js "failed"
  | pending => js "pending"
  | paused => js "paused"
  | stopped => js "stopped"
  end.



(** ** The jobs list, [app/page.tsx]: the filter and the tabs *)

(** [s.includes(t)]: [t] occurs in [s]. *)
Fixpoint includes (s t : jsstring) : bool :=
  match strip_prefix t s with
  | Some _ => true
  | None => match s with
            | [] => false
            | _ :: r => includes r t
            end
  end.

(** The list the page shows, [filteredJobs].  [lowerCase] stands for
    [String.prototype.toLowerCase] with its mapping of all of Unicode. *)
Definition matchesSearch (lowerCase : jsstring -> jsstring)
    (searchQuery : jsstring) (job : FineTuningJob) : bool :=
  includes (lowerCase (job_name job)) (lowerCase searchQuery)
  || includes (lowerCase (job_model job)) (lowerCase searchQuery).

Definition matchesStatus (statusFilter : jsstring) (job : FineTuningJob) : bool :=
  jsstring_eqb statusFilter (js "all")
  || jsstring_eqb (status_name (job_status job)) statusFilter.

Definition filteredJobs (lowerCase : jsstring -> jsstring)
    (searchQuery statusFilter : jsstring) (jobs : list FineTuningJob)
    : list FineTuningJob :=
  List.filter (fun job => matchesSearch lowerCase searchQuery job
                          && matchesStatus statusFilter job) jobs.

(** The tabs above the list, each a value of [statusFilter], and the count
    a tab shows. *)
Definition tabs : list jsstring :=
  [js "all"; js "running"; js "completed"; js "failed"; js "pending"].

Definition tab_count (status : jsstring) (jobs : list FineTuningJob) : nat :=
  if jsstring_eqb status (js "all") then length jobs
  else length (List.filter
                 (fun j => jsstring_eqb (status_name (job_status j)) status) jobs).

(** ** [hooks/useApi.ts]: [useApiPolling] *)

Record PollingHook : Type := mk_hook {
  intervalRef : option nat;
  hook_deps : option (bool * N);
  hook_cleanup : bool;
  hook_timers : timers unit;
  executes : nat
}.

Definition hook_init : PollingHook := mk_hook None None false no_timers 0.

(** The defaults of the parameters: [interval = 3000], [enabled = true]. *)
Definition interval_arg (interval : option N) : N :=
  match interval with Some i => i | None => 3000 end.

Definition enabled_arg (enabled : option bool) : bool :=
  match enabled with Some b => b | None => true end.

(** The clean-up the enabled branch returns: it clears the interval and
    leaves the ref as it is. *)
Definition hook_run_cleanup (h : PollingHook) : PollingHook :=
  if hook_cleanup h then
    match intervalRef h with
    | Some id => mk_hook (intervalRef h) (hook_deps h) false
                   (clearInterval id (hook_timers h)) (executes h)
    | None => mk_hook (intervalRef h) (hook_deps h) false (hook_timers h) (executes h)
    end
  else h.

Definition hook_effect (enabled : bool) (interval : N) (h : PollingHook)
    : PollingHook :=
  if negb enabled then
    match intervalRef h with
    | Some id => mk_hook None (Some (enabled, interval)) false
                   (clearInterval id (hook_timers h)) (executes h)
    | None => mk_hook None (Some (enabled, interval)) false (hook_timers h) (executes h)
    end
  else
    let (id, tt') := setInterval tt interval (hook_timers h) in
    mk_hook (Some id) (Some (enabled, interval)) true tt' (S (executes h)).

(** A render of the component with the given arguments. *)
Definition useApiPolling (interval : option N) (enabled : option bool)
    (h : PollingHook) : PollingHook :=
  let i := interval_arg interval in
  let e := enabled_arg enabled in
  match hook_deps h with
  | Some (e0, i0) =>
      if Bool.eqb e0 e && (i0 =? i) then h
      else hook_effect e i (hook_run_cleanup h)
  | None => hook_effect e i (hook_run_cleanup h)
  end.

Inductive hook_input : Type :=
| Render (interval : option N) (enabled : option bool)
| HookTick (id : nat)
| HookUnmount.

Definition hook_step (h : PollingHook) (i : hook_input) : PollingHook :=
  match i with
  | Render interval enabled => useApiPolling interval enabled h
  | HookTick id =>
      match find_timer id (hook_timers h) with
      | Some _ => mk_hook (intervalRef h) (hook_deps h) (hook_cleanup h)
                    (hook_timers h) (S (executes h))
      | None => h
      end
  | HookUnmount =>
      let h' := hook_run_cleanup h in
      mk_hook None None false (hook_timers h') (executes h')
  end.

Definition hook_run (h : PollingHook) (inputs : list hook_input) : PollingHook :=
  fold_left hook_step inputs h.

(** ** [hooks/useApi.ts]: the list operations of [useListData]

    An item is an object, given by its members; [T extends { id: string }]
    says that it has an [id]. *)

Definition Item : Type := list (jsstring * json).

(** [item.id === id]. *)
Definition has_id (id : jsstring) (item : Item) : bool :=
  match lookup_member (js "id") item with
  | Some (JString s) => jsstring_eqb s id
  | _ => false
  end.

(** [{ ...item, ...updates }]: a member of [updates] replaces the member of
    [item] with its key, in place, and a new key goes to the end. *)
Fixpoint set_member (k : jsstring) (v : json) (item : Item) : Item :=
  match item with
  | [] => [(k, v)]
  | (k', v') :: rest =>
      if jsstring_eqb k' k then (k, v) :: rest
      else (k', v') :: set_member k v rest
  end.

Definition spread (item updates : Item) : Item :=
  fold_left (fun acc kv => set_member (fst kv) (snd kv) acc) updates item.

(** The updaters handed to [setItems], as functions of the previous list. *)
Definition addItem (item : Item) (prev : list Item) : list Item :=
  prev ++ [item].

Definition updateItem (id : jsstring) (updates : Item) (prev : list Item)
    : list Item :=
  List.map (fun item => if has_id id item then spread item updates else item) prev.

Definition removeItem (id : jsstring) (prev : list Item) : list Item :=
  List.filter (fun item => negb (has_id id item)) prev.

(** ** [hooks/useApi.ts]: the state of [useApi]

    [data] and [error] are [null] ([None]) or a value. *)

Record UseApiState : Type := mk_api_state {
  state_data : option json;
  state_loading : bool;
  state_error : option jsstring
}.

(** What a promise is rejected with, and what a callback throws: an [Error]
    (an [ApiError] is one) or any other value. *)
Inductive thrown : Type :=
| ThrownError (e : exn)
| ThrownValue (v : jsval).

Inductive settled : Type :=
| Fulfilled (data : json)
| RejectedWith (reason : thrown).

(** [errorMessage] of the [catch] block. *)
Definition errorMessage (t : thrown) : jsstring :=
  match t with
  | ThrownError e => exn_message e
  | ThrownValue _ => js "An unknown error occurred"
  end.

(** The hook of a component: its state, [isMountedRef.current], and the
    calls of the callbacks so far. *)
Record UseApi : Type := mk_use_api {
  api_state : UseApiState;
  isMountedRef : bool;
  onSuccess_calls : list json;
  onError_calls : list jsstring
}.

(** [useState] with [loading: immediate], and [useRef(true)]. *)
Definition useApi_init (immediate : bool) : UseApi :=
  mk_use_api (mk_api_state None immediate None) true [] [].

(** [execute] up to its [await]: the updater keeps the data, sets the
    loading flag and clears the error. *)
Definition execute_starts (h : UseApi) : UseApi :=
  mk_use_api (mk_api_state (state_data (api_state h)) true None)
             (isMountedRef h) (onSuccess_calls h) (onError_calls h).

(** The [catch] block. *)
Definition execute_catch (t : thrown) (h : UseApi) : UseApi :=
  if isMountedRef h then
    mk_use_api (mk_api_state None false (Some (errorMessage t))) true
               (onSuccess_calls h) (onError_calls h ++ [errorMessage t])
  else h.

(** [execute] behind its [await], once [apiFunction] has settled;
    [onSuccess_throws] is what [onSuccess] throws, when it is called and
    throws.  An exception of [onSuccess] is caught by the [catch] block as
    one of [apiFunction] is. *)
Definition execute_settles (r : settled) (onSuccess_throws : option thrown)
    (h : UseApi) : UseApi :=
  match r with
  | Fulfilled data =>
      if isMountedRef h then
        let h1 := mk_use_api (mk_api_state (Some data) false None) true
                             (onSuccess_calls h ++ [data]) (onError_calls h) in
        match onSuccess_throws with
        | Some t => execute_catch t h1
        | None => h1
        end
      else h
  | RejectedWith t => execute_catch t h
  end.

(** How the promise of [execute] settles, when [onError] does not throw:
    [return data], or [throw error] with what was caught. *)
Definition execute_result (r : settled) (onSuccess_throws : option thrown)
    (h : UseApi) : settled :=
  match r with
  | Fulfilled data =>
      if isMountedRef h then
        match onSuccess_throws with
        | Some t => RejectedWith t
        | None => Fulfilled data
        end
      else Fulfilled data
  | RejectedWith t => RejectedWith t
  end.

(** [reset]. *)
Definition useApi_reset (h : UseApi) : UseApi :=
  mk_use_api (mk_api_state None false None) (isMountedRef h)
             (onSuccess_calls h) (onError_calls h).

(** The clean-up of the first effect. *)
Definition useApi_unmount (h : UseApi) : UseApi :=
  mk_use_api (api_state h) false (onSuccess_calls h) (onError_calls h).

(** What happens to the hook: a call of [execute] starts (from the effect
    of an immediate hook, from [refetch], from a polling interval), a call
    that was started settles, [reset] is called, the component unmounts.
    Calls may overlap. *)
Inductive api_input : Type :=
| ExecuteStarts
| ExecuteSettles (r : settled) (onSuccess_throws : option thrown)
| ResetCalled
| Unmounted.

Definition api_step (h : UseApi) (i : api_input) : UseApi :=
  match i with
  | ExecuteStarts => execute_starts h
  | ExecuteSettles r t => execute_settles r t h
  | ResetCalled => useApi_reset h
  | Unmounted => useApi_unmount h
  end.

Definition api_run (h : UseApi) (inputs : list api_input) : UseApi :=
  fold_left api_step inputs h.

(** ** [lib/api-config.ts] and [constants/api.ts]

    Where the code runs: on the server there is no [window]; in a browser
    [window.location.port] is a string; [NEXT_PUBLIC_API_URL] may be unset. *)

Record Platform : Type := mk_platform {
  has_window : bool;
  location_port : jsstring;
  NEXT_PUBLIC_API_URL : option jsstring
}.

(** [process.env.NEXT_PUBLIC_API_URL || fallback]. *)
Definition env_url_or (fallback : jsstring) (p : Platform) : jsstring :=
  match NEXT_PUBLIC_API_URL p with
  | Some url => if is_empty url then fallback else url
  | None => fallback
  end.

Definition getApiUrl (p : Platform) : jsstring :=
  if negb (has_window p) then env_url_or (js "http://localhost:8000/api") p
  else
    let isProductionApp := jsstring_eqb (location_port p) (js "3002") in
    if isProductionApp then js "http://localhost:8001/api"
    else env_url_or (js "http://localhost:8000/api") p.

(** The constant [API_URL] of [constants/api.ts], and [API_ENDPOINTS]. *)
Definition constants_API_URL (p : Platform) : jsstring :=
  if has_window p then getApiUrl p
  else env_url_or (js "http://localhost:8000/api") p.

Record Endpoints : Type := mk_endpoints {
  endpoint_jobs : jsstring;
  endpoint_models : jsstring;
  endpoint_datasets : jsstring
}.

Definition API_ENDPOINTS (p : Platform) : Endpoints :=
  mk_endpoints (constants_API_URL p ++ js "/jobs")
               (constants_API_URL p ++ js "/models")
               (constants_API_URL p ++ js "/datasets").

(** ** The Job Controller of the spec, section 4.4 *)

(** Modelled from the spec: the job routes and services of the backend (the
    Job Store and the Job Controller with its state machine) are not in the
    source; the triggers, the table of legal transitions, the errors and the
    side effects on the job record follow sections 3, 4.1, 4.4 and 7. *)
Inductive Trigger : Type :=
| start
| pause
| stop
| edit (new_model new_dataset new_config : jsstring)
| runner_completion
| runner_error (reason : jsstring).

(** Modelled from the spec: the action a trigger attempts, as the
    [InvalidState] error names it. *)
Inductive Action : Type :=
| a_start | a_pause | a_stop | a_edit | a_completion | a_error.

#[global] Instance Action_eq_dec : EqDecision Action.
Proof. solve_decision. Defined.

Definition action_of (t : Trigger) : Action :=
  match t with
  | start => a_start
  | pause => a_pause
  | stop => a_stop
  | edit _ _ _ => a_edit
  | runner_completion => a_completion
  | runner_error _ => a_error
  end.

(** Modelled from the spec: the error taxonomy of section 7. *)
Inductive ControllerError : Type :=
| NotFound
| InvalidState (current : JobStatus) (attempted : Action)
| PreconditionFailed.

(** Modelled from the spec: the job record of section 3. *)
Record Job : Type := mk_controller_job {
  ctl_name : jsstring;
  ctl_model : jsstring;
  ctl_dataset : jsstring;
  ctl_config : jsstring;
  ctl_status : JobStatus;
  ctl_progress : Z;
  ctl_failure : option jsstring
}.

(** Modelled from the spec: the table of legal transitions of section 4.4,
    read as a function: the status a trigger leads to, or no edge. *)
Definition transition (s : JobStatus) (a : Action) : option JobStatus :=
  match s, a with
  | pending, a_start => Some running
  | running, a_pause => Some paused
  | paused, a_start => Some running
  | running, a_stop => Some stopped
  | paused, a_stop => Some stopped
  | running, a_completion => Some completed
  | running, a_error => Some failed
  | pending, a_edit => Some pending
  | _, _ => None
  end.

(** Modelled from the spec: the side effect of a legal trigger on the
    record: completion forces the progress to 100, an error records the
    reason, an edit updates model, dataset and config. *)
Definition apply_effect (t : Trigger) (to : JobStatus) (j : Job) : Job :=
  match t with
  | edit m d c =>
      mk_controller_job (ctl_name j) m d c to (ctl_progress j) (ctl_failure j)
  | runner_completion =>
      mk_controller_job (ctl_name j) (ctl_model j) (ctl_dataset j) (ctl_config j)
        to 100 (ctl_failure j)
  | runner_error reason =>
      mk_controller_job (ctl_name j) (ctl_model j) (ctl_dataset j) (ctl_config j)
        to (ctl_progress j) (Some reason)
  | _ =>
      mk_controller_job (ctl_name j) (ctl_model j) (ctl_dataset j) (ctl_config j)
        to (ctl_progress j) (ctl_failure j)
  end.

(** Modelled from the spec: the controller's state: the Job Store and the
    models and datasets that exist. *)
Record Controller : Type := mk_controller {
  store : gmap jsstring Job;
  known_models : gset jsstring;
  known_datasets : gset jsstring
}.

(** Modelled from the spec: [start] validates the references before the
    runner is invoked. *)
Definition references_exist (c : Controller) (j : Job) : bool :=
  bool_decide (ctl_model j ∈ known_models c)
  && bool_decide (ctl_dataset j ∈ known_datasets c).

(** Modelled from the spec: a trigger on a job: the store afterwards and the
    updated job or the error.  An unknown id is [NotFound]; a trigger with
    no edge from the current status is [InvalidState]; a [start] whose model
    or dataset is missing is [PreconditionFailed]; on an error the store is
    the one before. *)
Definition fire (c : Controller) (id : jsstring) (t : Trigger)
    : Controller * (Job + ControllerError) :=
  match store c !! id with
  | None => (c, inr NotFound)
  | Some j =>
      match transition (ctl_status j) (action_of t) with
      | None => (c, inr (InvalidState (ctl_status j) (action_of t)))
      | Some to =>
          if bool_decide (action_of t = a_start) && negb (references_exist c j)
          then (c, inr PreconditionFailed)
          else
            let j' := apply_effect t to j in
            (mk_controller (<[id := j']> (store c)) (known_models c)
                           (known_datasets c),
             inl j')
      end
  end.

(** Modelled from the spec: the rows of the table of section 4.4 whose
    trigger is one of start, pause, stop, edit, runner completion, runner
    error, one constructor per row. *)
Inductive edge : JobStatus -> Action -> JobStatus -> Prop :=
| edge_pending_start : edge pending a_start running
| edge_running_pause : edge running a_pause paused
| edge_paused_start : edge paused a_start running
| edge_running_stop : edge running a_stop stopped
| edge_paused_stop : edge paused a_stop stopped
| edge_running_completion : edge running a_completion completed
| edge_running_error : edge running a_error failed
| edge_pending_edit : edge pending a_edit pending.

(** The status of a job in the store. *)
Definition status_of (c : Controller) (id : jsstring) : option JobStatus :=
  ctl_status <$> store c !! id.

(** * The vocabulary of the properties *)

(** The action of the controller that a control item of the menu asks for. *)
Definition item_action (item : MenuItem) : option Action :=
  match item with
  | Start => Some a_start
  | Edit => Some a_edit
  | Pause => Some a_pause
  | Stop => Some a_stop
  | _ => None
  end.

(** A string with a character that is no white space, and a string without
    line feed. *)
Definition nonblank (s : jsstring) : bool :=
  existsb (fun c => negb (isWhiteSpace c)) s.

Definition blank (s : jsstring) : bool := forallb isWhiteSpace s.

Definition no_lf (s : jsstring) : bool :=
  forallb (fun c => negb (c =? LF)) s.

(** The lines of a trimmed text: the first line without its leading white
    space, the last without its trailing white space. *)
Fixpoint trim_last (l : jsstring) (ls : list jsstring) : list jsstring :=
  match ls with
  | [] => [trimEnd l]
  | l' :: ls' => l :: trim_last l' ls'
  end.

Definition trimmed_lines (l : jsstring) (ls : list jsstring) : list jsstring :=
  trim_last (trimStart l) ls.

(** The last of the lines [l :: ls]. *)
Fixpoint last_line (l : jsstring) (ls : list jsstring) : jsstring :=
  match ls with
  | [] => l
  | l' :: ls' => last_line l' ls'
  end.

(** A string without a dot, and a file name that ends in a dot and the
    extension [e], whatever the case of its letters. *)
Definition dot_free (s : jsstring) : bool :=
  forallb (fun c => negb (c =? 46)) s.

Definition has_extension (name : jsstring) (e : string) : Prop :=
  exists stem ext,
    name = stem ++ js "." ++ ext /\ dot_free ext = true
    /\ toLowerCase ext = js e.

(** A computation appends to the trace, and only events that satisfy [Q]. *)
Definition emits {P A} (Q : event -> Prop) (m : M P A) : Prop :=
  forall w, exists tr, trace (fst (m w)) = trace w ++ tr /\ Forall Q tr.

(** Every computation built here appends to the trace. *)
Definition grows {P A} (m : M P A) : Prop := emits (fun _ => True) m.

(** The number of lines of the trimmed content that are not blank, in the
    words of the claim: lines with a character that is no white space. *)
Definition nonblank_line_count (content : jsstring) : Z :=
  Z.of_nat (length (List.filter nonblank (split LF (trim content)))).

(** A run of [m] from [w] begins with the events [evs]. *)
Definition begins {P A} (m : M P A) (w : World P) (evs : list event) : Prop :=
  exists tr, trace (fst (m w)) = trace w ++ evs ++ tr.

Definition dataset_request (d : Dataset) : request :=
  mk_request (API_URL env ++ js "/datasets") (Some (js "POST")) json_headers
             (Some (JSON_stringify (dataset_json d))).

(** Values without numbers: strings, literals, arrays and objects of them. *)
Fixpoint number_free (v : json) : bool :=
  match v with
  | JNumber _ _ _ => false
  | JArray items => forallb number_free items
  | JObject members => forallb (fun kv => number_free (snd kv)) members
  | _ => true
  end.

Definition all_ws (w : jsstring) : Prop := forallb json_ws w = true.

(** What the items of an array or the members of an object are wrapped in:
    white space in front of each and behind the last. *)
Definition lead (gap indent : jsstring) : jsstring :=
  match gap with [] => [] | _ => LF :: indent ++ gap end.

Definition trail (gap indent : jsstring) : jsstring :=
  match gap with [] => [] | _ => LF :: indent end.

(** A serialised value without numbers starts with a character that opens
    a value. *)
Definition opens_value (s : jsstring) : Prop :=
  exists c tl, s = c :: tl /\ json_ws c = false
               /\ (c =? 93) = false /\ (c =? 125) = false.

(** The parser reads the serialisation of [v] back, whatever follows, with
    more fuel than the serialisation is long. *)
Definition reads_back (v : json) : Prop :=
  forall gap indent rest fuel,
    all_ws gap -> all_ws indent ->
    (length (serialize gap indent v) < fuel)%nat ->
    parse_value fuel (serialize gap indent v ++ rest) = POk v rest.

(** The space behind the colon of a member, when there is a gap. *)
Definition colon_space (gap : jsstring) : jsstring :=
  match gap with [] => [] | _ => [32] end.

Definition member_text (gap indent : jsstring) (kv : jsstring * json) : jsstring :=
  QuoteJSONString (fst kv) ++ 58 :: colon_space gap ++ serialize gap indent (snd kv).

(** The line feeds of a string, of a row, of a list of rows. *)
Definition line_feeds (s : jsstring) : nat :=
  length (List.filter (N.eqb LF) s).

Definition row_line_feeds (r : CSVRow) : nat :=
  line_feeds (instruction r) + line_feeds (input r) + line_feeds (output r).

Definition rows_line_feeds (rows : list CSVRow) : nat :=
  list_sum (List.map row_line_feeds rows).

Definition csv_header : jsstring := js "instruction,input,output".

(** The calls of [fetch] a run makes. *)
Definition attempts_made {P A} (m : M P A) (w : World P) : nat :=
  calls (fst (m w)) - calls w.

(** The URL and the options [apiRequest] hands to [fetchWithRetry]. *)
Definition request_url (endpoint : jsstring) (options : RequestOptions) : jsstring :=
  API_URL env ++ endpoint
    ++ match opt_params options with
       | Some params => js "?" ++ URLSearchParams_toString env params
       | None => []
       end.

Definition request_options (options : RequestOptions) : RequestOptions :=
  mk_options None (opt_retry options) (opt_retryDelay options)
    (opt_method options) (spread_headers json_headers (opt_headers options))
    (opt_body options).

(** The message of the [ApiError], as the code picks it: the [detail] of
    the error body when it is truthy, otherwise its [message] when that is
    truthy, otherwise the HTTP line. *)
Definition error_message (errorData : json) (response : Response)
    : option jsstring :=
  let detail := get_prop_opt (Some errorData) (js "detail") in
  let message := get_prop_opt (Some errorData) (js "message") in
  if truthy detail then ToString detail
  else if truthy message then ToString message
  else Some (http_message response).


Definition jobs_list_request : request :=
  mk_request (API_URL env ++ js "/jobs") None [] None.

(** A request that changes the job: any method but GET on the job's URL or
    on a URL below it. *)
Definition mutates_job (job : FineTuningJob) (req : request) : Prop :=
  method_of req <> js "GET"
  /\ exists suffix, req_url req = job_url job ++ suffix.

(** The events of a retry: a request is the creation request or the
    reload of the list. *)
Definition retry_event (job : FineTuningJob) (ev : event) : Prop :=
  match ev with
  | EvFetch req => req = retry_request job \/ req = jobs_list_request
  | _ => True
  end.

Definition checkpoints_request (job : FineTuningJob) : request :=
  mk_request (job_url job ++ js "/checkpoints") None [] None.


Definition checkpoint_request (p : JobDetailPage) (checkpointId : jsstring)
    : request :=
  mk_request (API_URL env ++ js "/jobs/" ++ jobId p ++ js "/checkpoints/"
                ++ checkpointId ++ js "/download") None [] None.


(** What holds of the job page after any sequence of inputs: while it is
    mounted, one interval is set, with 3000 ms, and its callback closes over
    the current [isTraining]; once unmounted, none is. *)
Definition polling_inv (p : Polling) : Prop :=
  if mounted p then
    exists id, effect_interval p = Some id
               /\ active (page_timers p) = [mk_timer id 3000 (isTraining p)]
               /\ effect_deps p = Some (isTraining p)
  else active (page_timers p) = [] /\ effect_interval p = None.

(** The same for the hook: while it is enabled, one interval is set, with
    the interval of the last render; while it is disabled or before the
    first render, none is. *)
Definition hook_inv (h : PollingHook) : Prop :=
  match hook_deps h with
  | Some (true, i) =>
      exists id, intervalRef h = Some id
                 /\ active (hook_timers h) = [mk_timer id i tt]
                 /\ hook_cleanup h = true
  | _ => active (hook_timers h) = [] /\ hook_cleanup h = false
  end.

(** A number with two decimals, given in hundredths. *)
Definition fixed2 (n : N) : jsstring :=
  decimal (n / 100) ++ js "." ++ decimal ((n mod 100) / 10) ++ decimal (n mod 10).

(** A computation keeps a property of the page. *)
Definition keeps {P A} (I : P -> Prop) (m : M P A) : Prop :=
  forall w, I (page w) -> I (page (fst (m w))).

(** A computation returns: it does not throw, hang or leave the model. *)
Definition returns {P A} (m : M P A) : Prop :=
  forall w, exists a, snd (m w) = Ret a.

(** A computation stays in the model: it returns, throws, or waits for a
    promise that never settles. *)
Definition in_model {P A} (m : M P A) : Prop :=
  forall w, snd (m w) <> OutOfModel.

(** A computation catches what is thrown in it: it returns or waits, and
    its promise is never rejected. *)
Definition catches {P A} (m : M P A) : Prop :=
  forall w, match snd (m w) with
            | Throw _ | OutOfModel => False
            | _ => True
            end.

(** An event that asks or tells the user nothing: no dialog. *)
Definition no_dialog (ev : event) : Prop :=
  match ev with
  | EvConfirm _ | EvAlert _ => False
  | _ => True
  end.


(** The value of a header: an object has one member for a key. *)
Fixpoint header_value (k : jsstring) (hs : list (jsstring * jsstring))
    : option jsstring :=
  match hs with
  | [] => None
  | (k', v) :: rest => if jsstring_eqb k' k then Some v else header_value k rest
  end.

(** The value the last member with the key gives it, for the members of an
    object literal in the order they are written. *)
Definition header_written (k : jsstring) (hs : list (jsstring * jsstring))
    : option jsstring :=
  header_value k (rev hs).

(** The request a method of [apiClient] sends. *)
Definition verb_request (method : string) (endpoint : jsstring)
    (options : RequestOptions) (payload : option jsstring) : request :=
  mk_request (request_url endpoint options) (Some (js method))
             (spread_headers json_headers (opt_headers options)) payload.

(** The events of [fetchWithRetry] when it calls [fetch] [n] times: a wait
    between two calls, none behind the last. *)
Definition retry_events (req : request) (delay : N) (n : nat) : list event :=
  match n with
  | O => []
  | S k => concat (repeat [EvFetch req; EvSleep delay] k) ++ [EvFetch req]
  end.

(** The statuses without a tab, and the jobs that have one of them. *)
Definition has_no_tab_status (s : JobStatus) : bool :=
  match s with
  | paused | stopped => true
  | _ => false
  end.

Definition has_no_tab (job : FineTuningJob) : bool :=
  has_no_tab_status (job_status job).


Definition stop_request (job : FineTuningJob) : request :=
  post (job_url job ++ js "/stop").

Definition delete_request (job : FineTuningJob) : request :=
  mk_request (job_url job) (Some (js "DELETE")) [] None.

Definition delete_dataset_request (id : jsstring) : request :=
  mk_request (API_URL env ++ js "/datasets/" ++ id) (Some (js "DELETE")) [] None.

Definition datasets_list_request : request :=
  mk_request (API_URL env ++ js "/datasets") None [] None.

(** The data sets page with another loading flag, and with another list. *)
Definition with_loading (b : bool) (p : DatasetsPage) : DatasetsPage :=
  mk_datasets_page (datasets p) (isModalOpen p) (modalMode p) b
    (uploadedFile p) (datasetName p) (selectedFormat p) (csvRows p).

Definition with_datasets (v : jsval) (p : DatasetsPage) : DatasetsPage :=
  mk_datasets_page v (isModalOpen p) (modalMode p) (loading p)
    (uploadedFile p) (datasetName p) (selectedFormat p) (csvRows p).

(** What a reload of a list ends in, by the outcome of its request and, for
    a response that is OK, by what reading its body gave: [kept] is the
    page with the list as it was, [loaded] the page with the list that
    arrived, both with the loading flag off, [waiting] the page with the
    flag on. *)
Definition reload_result {P} (w : World P) (req : request) (key label : jsstring)
    (waiting kept : P) (loaded : jsval -> P) : World P * outcome unit :=
  let sent := trace w ++ [EvFetch req] in
  let failed := sent ++ [EvConsoleError label] in
  let c := S (calls w) in
  match net env (calls w) req with
  | NeverSettles => (mk_world waiting sent c, Hang)
  | Rejects _ => (mk_world kept failed c, Ret tt)
  | Resolves r =>
      if ok r then
        match snd (Response_json r) with
        | inl data =>
            match get_prop (Some data) key with
            | Some v => (mk_world (loaded (js_or v (Some (JArray [])))) sent c, Ret tt)
            | None => (mk_world kept failed c, Ret tt)
            end
        | inr _ => (mk_world kept failed c, Ret tt)
        end
      else (mk_world kept sent c, Ret tt)
  end.

(** What holds of the state of [useApi] at any time: an error is shown
    without data and without the loading flag. *)
Definition api_inv (st : UseApiState) : Prop :=
  state_error st <> None -> state_data st = None /\ state_loading st = false.

(** A text with Windows line ends: a carriage return in front of every
    line feed. *)
Definition CR : N := 13.

Definition crlf (s : jsstring) : jsstring :=
  flat_map (fun c => if c =? LF then [CR; LF] else [c]) s.

(** The lines of such a text: each line but the last ends in a carriage
    return. *)
Fixpoint with_cr (lines : list jsstring) : list jsstring :=
  match lines with
  | [] => []
  | [l] => [l]
  | l :: rest => (l ++ [CR]) :: with_cr rest
  end.


End Embedding.

(** * Concrete inputs *)

Definition failed_to_fetch : exn := TypeError (js "Failed to fetch").

(** An environment to run the code in: the network follows a script, the
    user gives one answer, no number outside the integers is printed. *)
Definition scripted (script : nat -> request -> fetch_outcome) (answer : bool)
    : Runtime :=
  mk_env (fun _ _ _ => js "NaN") script (fun _ => answer) 1762000000000
         (fun _ => js "2025-11-01T12:00:00.000Z") (fun _ => [])
         (js "http://localhost:8000/api") (fun _ _ _ => js "NaN")
         (fun _ => js "NaN").

(** No network. *)
Definition offline : Runtime := scripted (fun _ _ => Rejects failed_to_fetch) true.

(** A network that gives every request the same response. *)
Definition answers (r : Response) : Runtime :=
  scripted (fun _ _ => Resolves r) true.

(** A network that fails twice and then answers 500. *)
Definition flaky : Runtime :=
  scripted (fun n _ => if (n <? 2)%nat then Rejects failed_to_fetch
                       else Resolves (mk_response 500 (js "Internal Server Error")
                                        (Some (js "oops")) false))
           true.

Definition start_of {P} (p : P) : World P := mk_world p [] 0.

(** A fresh response with a JSON body. *)
Definition respond (code : N) (text : string) (content : json) : Response :=
  mk_response code (js text) (Some (JSON_stringify (rt := offline) content)) false.

Definition job_t1 : Job :=
  mk_controller_job (js "t1") (js "m1") (js "d1") [] pending 0 None.

Definition controller_t1 : Controller :=
  mk_controller {[ js "job-1" := job_t1 ]} {[ js "m1" ]} {[ js "d1" ]}.

(** Scenario E of the spec: a CSV file of a header line and three data
    rows. *)
Definition scenario_E_file : File :=
  mk_file (js "train.csv") 64
    (Some (join [LF] [js "instruction,input,output"; js "add,1 2,3";
                      js "negate,4,-4"; js "double,5,10"] ++ [LF])).

Definition object_file : File :=
  mk_file (js "notes.JSON") 2 (Some (js "{}")).

(** A row with a quote and a line feed in its fields. *)
Definition tricky_row : CSVRow :=
  mk_row (js "say " ++ [QUOTE] ++ js "hi" ++ [QUOTE])
         (js "line one" ++ [LF] ++ js "line two") (js "ok").

Definition jsonl_file : File :=
  mk_file (js "rows.jsonl") 0
    (Some (convertRowsToFormat (rt := offline) [tricky_row; tricky_row] jsonl_format)).

Definition csv_file : File :=
  mk_file (js "rows.csv") 0
    (Some (convertRowsToFormat (rt := offline) [tricky_row] csv_format)).

Definition three_retries : RequestOptions :=
  mk_options None (Some 3%nat) None None [] None.

(** An error body with a [detail]. *)
Definition not_found_body : json :=
  JObject [(js "detail", JString (js "Job not found"))].

Definition not_found : Response := respond 404 "Not Found" not_found_body.



(** An error body that is text. *)
Definition bad_gateway : Response :=
  mk_response 502 (js "Bad Gateway") (Some (js "upstream down")) false.

Definition failed_job : FineTuningJob :=
  mk_job (js "job-1") (js "t1") (js "m1") (js "d1") failed 40
         (js "2025-11-01") (js "00:10:00").

Definition home : World HomePage := start_of (mk_home None true).

Definition created : Response := respond 201 "Created" (JObject []).




Definition completed_job : FineTuningJob :=
  mk_job (js "job-1") (js "t1") (js "m1") (js "d1") completed 100
         (js "2025-11-01") (js "01:00:00").

Definition detail_page : World JobDetailPage :=
  start_of (mk_detail (js "job-1")
              (Some (mk_info (js "job-1") (js "t1") (js "m1") (js "d1")
                             (Some (JString (js "completed")))))).

(** Scenario E with Windows line ends. *)
Definition windows_file : File :=
  mk_file (js "train.csv") 68
    (Some (crlf (join [LF] [js "instruction,input,output"; js "add,1 2,3";
                            js "negate,4,-4"; js "double,5,10"] ++ [LF]))).

(** A file of a size just below 1 MB. *)
Definition large_size : N := 1048575.

(** The data sets page with the create form filled in. *)
Definition create_form : World DatasetsPage :=
  start_of (mk_datasets_page (Some (JArray [])) true create_mode false None
              (js "demo") csv_format [tricky_row]).

(** A user who declines every confirm dialog, without network. *)
Definition declining : Runtime :=
  scripted (fun _ _ => Rejects failed_to_fetch) false.

Definition running_job : FineTuningJob :=
  mk_job (js "job-2") (js "t2") (js "m1") (js "d1") running 10
         (js "2025-11-01") (js "00:01:00").

Definition paused_job : FineTuningJob :=
  mk_job (js "job-3") (js "t3") (js "m2") (js "d1") paused 50
         (js "2025-11-01") (js "00:05:00").

Definition paused_info : JobInfo :=
  mk_info (js "job-3") (js "t3") (js "m2") (js "d1")
          (Some (JString (js "paused"))).


Definition no_checkpoints_body : json :=
  JObject [(js "checkpoints", JArray [])].

Definition no_checkpoints : Response := respond 200 "OK" no_checkpoints_body.

(** Two items of a list, and a third with a new id. *)
Definition item_a : Item :=
  [(js "id", JString (js "a")); (js "name", JString (js "first"))].

Definition item_b : Item :=
  [(js "id", JString (js "b")); (js "name", JString (js "second"))].

Definition item_c : Item :=
  [(js "id", JString (js "c")); (js "name", JString (js "third"))].

(** The packaged app: a browser window served from port 3002, with the
    environment naming another backend. *)
Definition packaged_app : Platform :=
  mk_platform true (js "3002") (Some (js "http://example.test/api")).

(** A CSV file of a header line and two lines, the second a single space. *)
Definition blank_last_file : File :=
  mk_file (js "t.csv") 12 (Some (join [LF] [js "text"; js "hello"; js " "])).

(** A file with an extension that is none of the three. *)
Definition text_file : File :=
  mk_file (js "readme.txt") 5 (Some (js "hello")).

(** An error body whose [detail] is an object with a member [toString]. *)
Definition unprintable_body : json :=
  JObject [(js "detail", JObject [(js "toString", JNumber false 0 0)])].

Definition unprintable : Response := respond 400 "Bad Request" unprintable_body.

(** A body whose [checkpoints] is a string. *)
Definition text_checkpoints_body : json :=
  JObject [(js "checkpoints", JString (js "abc"))].

Definition text_checkpoints : Response := respond 200 "OK" text_checkpoints_body.


(** * Properties *)

Section Properties.

Context {rt : Runtime}.

(** ** The Job Controller *)

Lemma transition_edge (s : JobStatus) (a : Action) (s' : JobStatus) :
  transition s a = Some s' <-> edge s a s'.
Proof.
  split.
  - destruct s, a; simpl; intros H; inversion H; constructor.
  - intros H; destruct H; reflexivity.
Qed.

Lemma transition_none (s : JobStatus) (a : Action) :
  transition s a = None <-> forall s', ~ edge s a s'.
Proof.
  split.
  - intros H s' E. apply transition_edge in E. congruence.
  - intros H. destruct (transition s a) as [s'|] eqn:E; [|reflexivity].
    apply transition_edge in E. destruct (H _ E).
Qed.

Lemma apply_effect_status (t : Trigger) (to : JobStatus) (j : Job) :
  ctl_status (apply_effect t to j) = to.
Proof. destruct t; reflexivity. Qed.

(** C1: a trigger on a job of the store either succeeds, and then the
    status it leaves is the one an edge of the table of section 4.4 leads to
    from the status before, or fails and leaves the whole store, so the
    job's status, as it was; when the table has no edge for the trigger from
    the current status the failure is [InvalidState], naming the current
    status and the attempted action.  No other job changes status. *)
Theorem fire_follows_table (c : Controller) (id : jsstring) (t : Trigger) (j : Job) :
  store c !! id = Some j ->
  let s := ctl_status j in
  let a := action_of t in
  let c' := fst (fire c id t) in
  match snd (fire c id t) with
  | inl j' =>
      edge s a (ctl_status j') /\ status_of c' id = Some (ctl_status j')
  | inr e =>
      c' = c /\ status_of c' id = Some s
      /\ ((forall s', ~ edge s a s') -> e = InvalidState s a)
  end
  /\ (forall other, other <> id -> status_of c' other = status_of c other).
Proof.
  intros Hj s a c'. subst s a c'. unfold fire. rewrite Hj.
  destruct (transition (ctl_status j) (action_of t)) as [to|] eqn:Ht.
  - destruct (bool_decide (action_of t = a_start) && negb (references_exist c j)) eqn:Hp;
      simpl.
    + split; [|reflexivity]. repeat split.
      * unfold status_of. rewrite Hj. reflexivity.
      * intros Hno. apply transition_edge in Ht. destruct (Hno _ Ht).
    + split.
      * split.
        -- rewrite apply_effect_status. apply transition_edge, Ht.
        -- unfold status_of. simpl. rewrite lookup_insert_eq. reflexivity.
      * intros other Hne. unfold status_of. simpl.
        rewrite lookup_insert_ne by congruence. reflexivity.
  - simpl. split; [|reflexivity]. repeat split.
    unfold status_of. rewrite Hj. reflexivity.
Qed.

(** ** The actions menu of the jobs list *)

(** C6: in the actions menu of a job, Start is there exactly for a pending
    or paused job, Edit for a pending one, Pause for a running one, Stop for
    a running or paused one, Download Model for a completed one, Retry for a
    failed one, View and Delete always; and a control item that is there
    asks for an action that has an edge from the job's status in the table
    of section 4.4. *)
Theorem menu_offers_legal_actions (s : JobStatus) :
  (In Start (menu s) <-> s = pending \/ s = paused)
  /\ (In Edit (menu s) <-> s = pending)
  /\ (In Pause (menu s) <-> s = running)
  /\ (In Stop (menu s) <-> s = running \/ s = paused)
  /\ (In DownloadModel (menu s) <-> s = completed)
  /\ (In Retry (menu s) <-> s = failed)
  /\ In View (menu s)
  /\ In Delete (menu s)
  /\ (forall item a, In item (menu s) -> item_action item = Some a ->
        exists s', edge s a s').
Proof.
  repeat split; destruct s; simpl; intros; intuition (try discriminate);
    subst; simpl in *;
    repeat match goal with
           | H : Some _ = Some _ |- _ => inversion H; clear H; subst
           | H : None = Some _ |- _ => discriminate H
           end;
    eexists; constructor.
Qed.

(** ** Decimal digits *)

Lemma digits_value_acc (s : jsstring) (a : N) :
  fold_left (fun acc c => 10 * acc + (c - 48)) s a
  = a * 10 ^ N.of_nat (length s) + digits_value s.
Proof.
  unfold digits_value. revert a. induction s as [|c s IH]; intros a.
  - simpl. lia.
  - cbn [fold_left length]. rewrite IH, (IH (10 * 0 + (c - 48))).
    rewrite Nat2N.inj_succ, N.pow_succ_r'. lia.
Qed.

Lemma digits_value_cons (c : N) (s : jsstring) :
  digits_value (c :: s) = (c - 48) * 10 ^ N.of_nat (length s) + digits_value s.
Proof. unfold digits_value at 1. cbn [fold_left]. rewrite digits_value_acc. lia. Qed.

Lemma decimal_digits_value (fuel : nat) :
  forall n acc, n < 10 ^ N.of_nat fuel ->
    digits_value (decimal_digits fuel n acc)
    = n * 10 ^ N.of_nat (length acc) + digits_value acc.
Proof.
  induction fuel as [|f IH]; intros n acc Hn.
  - simpl in Hn. assert (n = 0) by lia. subst. simpl. lia.
  - cbn [decimal_digits]. cbv zeta.
    destruct (n <? 10) eqn:E.
    + apply N.ltb_lt in E. rewrite digits_value_cons.
      rewrite N.mod_small by exact E. f_equal. f_equal. lia.
    + apply N.ltb_ge in E. rewrite IH.
      * rewrite digits_value_cons. cbn [length].
        rewrite Nat2N.inj_succ, N.pow_succ_r'.
        rewrite (N.add_comm 48), N.add_sub.
        pose proof (N.div_mod n 10 ltac:(lia)) as D.
        rewrite D at 3. lia.
      * rewrite Nat2N.inj_succ, N.pow_succ_r' in Hn.
        apply N.Div0.div_lt_upper_bound. lia.
Qed.

(** The digits [decimal] prints are the digits of the number: the number
    parser reads them back. *)
Lemma decimal_value (n : N) : digits_value (decimal n) = n.
Proof.
  unfold decimal. rewrite decimal_digits_value.
  - change (N.of_nat (length (@nil N))) with 0.
    change (digits_value []) with 0. rewrite N.pow_0_r. lia.
  - destruct n as [|p]; [reflexivity|].
    rewrite Nat2N.inj_succ, N2Nat.id.
    pose proof (N.log2_spec (N.pos p) ltac:(lia)) as [_ H].
    eapply N.lt_le_trans; [exact H|].
    apply N.pow_le_mono_l. lia.
Qed.

(** ** Strings: [trim], [split], [join] *)

Lemma blank_nonblank (s : jsstring) : blank s = negb (nonblank s).
Proof.
  induction s as [|c r IH]; simpl; [reflexivity|].
  rewrite IH. destruct (isWhiteSpace c); reflexivity.
Qed.

Lemma nonblank_app (a b : jsstring) :
  nonblank (a ++ b) = nonblank a || nonblank b.
Proof. apply existsb_app. Qed.

Lemma nonblank_rev (s : jsstring) : nonblank (rev s) = nonblank s.
Proof.
  induction s as [|c r IH]; simpl; [reflexivity|].
  rewrite nonblank_app, IH. simpl. rewrite orb_false_r. apply orb_comm.
Qed.

Lemma no_lf_app (a b : jsstring) : no_lf (a ++ b) = no_lf a && no_lf b.
Proof. apply forallb_app. Qed.

Lemma no_lf_rev (s : jsstring) : no_lf (rev s) = no_lf s.
Proof.
  induction s as [|c r IH]; simpl; [reflexivity|].
  rewrite no_lf_app, IH. simpl. rewrite andb_true_r. apply andb_comm.
Qed.

Lemma trimStart_app (a b : jsstring) :
  nonblank a = true -> trimStart (a ++ b) = trimStart a ++ b.
Proof.
  induction a as [|c r IH]; simpl; [discriminate|].
  destruct (isWhiteSpace c); simpl; auto.
Qed.

Lemma trimStart_blank_app (w s : jsstring) :
  blank w = true -> trimStart (w ++ s) = trimStart s.
Proof.
  induction w as [|c r IH]; simpl; [reflexivity|].
  destruct (isWhiteSpace c); simpl; [auto|discriminate].
Qed.

Lemma trimStart_nonblank (s : jsstring) : nonblank (trimStart s) = nonblank s.
Proof.
  induction s as [|c r IH]; simpl; [reflexivity|].
  destruct (isWhiteSpace c) eqn:E; simpl; [exact IH|].
  rewrite E. reflexivity.
Qed.

Lemma trimStart_no_lf (s : jsstring) : no_lf s = true -> no_lf (trimStart s) = true.
Proof.
  induction s as [|c r IH]; simpl; [reflexivity|].
  intros H. apply andb_prop in H as [Hc Hr].
  destruct (isWhiteSpace c); simpl; [auto|].
  rewrite Hc, Hr. reflexivity.
Qed.

Lemma trimStart_empty (s : jsstring) : is_empty (trimStart s) = blank s.
Proof.
  induction s as [|c r IH]; simpl; [reflexivity|].
  destruct (isWhiteSpace c); simpl; auto.
Qed.

Lemma blank_rev (s : jsstring) : blank (rev s) = blank s.
Proof. rewrite !blank_nonblank, nonblank_rev. reflexivity. Qed.

Lemma trimEnd_app (a b : jsstring) :
  nonblank b = true -> trimEnd (a ++ b) = a ++ trimEnd b.
Proof.
  intros H. unfold trimEnd. rewrite rev_app_distr, trimStart_app.
  - rewrite rev_app_distr, rev_involutive. reflexivity.
  - rewrite nonblank_rev. exact H.
Qed.

Lemma trimEnd_app_blank (s w : jsstring) :
  blank w = true -> trimEnd (s ++ w) = trimEnd s.
Proof.
  intros H. unfold trimEnd. rewrite rev_app_distr, trimStart_blank_app.
  - reflexivity.
  - rewrite blank_rev. exact H.
Qed.

Lemma trimEnd_nonblank (s : jsstring) : nonblank (trimEnd s) = nonblank s.
Proof.
  unfold trimEnd. rewrite nonblank_rev, trimStart_nonblank, nonblank_rev.
  reflexivity.
Qed.

Lemma trimEnd_no_lf (s : jsstring) : no_lf s = true -> no_lf (trimEnd s) = true.
Proof.
  intros H. unfold trimEnd. rewrite no_lf_rev. apply trimStart_no_lf.
  rewrite no_lf_rev. exact H.
Qed.

Lemma is_empty_rev (s : jsstring) : is_empty (rev s) = is_empty s.
Proof.
  destruct s as [|c r]; simpl; [reflexivity|].
  destruct (rev r); reflexivity.
Qed.

(** [line.trim()] is the empty string exactly for a line of white space. *)
Lemma trim_empty (s : jsstring) : is_empty (trim s) = blank s.
Proof.
  unfold trim, trimEnd. rewrite is_empty_rev, trimStart_empty, blank_rev.
  rewrite !blank_nonblank, trimStart_nonblank. reflexivity.
Qed.

Lemma split_not_nil (sep : N) (s : jsstring) : split sep s <> [].
Proof.
  induction s as [|c r IH]; simpl; [discriminate|].
  destruct (c =? sep); [discriminate|].
  destruct (split sep r); [contradiction|discriminate].
Qed.

Lemma split_no_lf (a : jsstring) : no_lf a = true -> split LF a = [a].
Proof.
  induction a as [|c r IH]; simpl; [reflexivity|].
  intros H. apply andb_prop in H as [Hc Hr].
  apply negb_true_iff in Hc. rewrite Hc, (IH Hr). reflexivity.
Qed.

Lemma split_app_lf (a b : jsstring) :
  no_lf a = true -> split LF (a ++ LF :: b) = a :: split LF b.
Proof.
  induction a as [|c r IH]; simpl; [reflexivity|].
  intros H. apply andb_prop in H as [Hc Hr].
  apply negb_true_iff in Hc. rewrite Hc, (IH Hr). reflexivity.
Qed.

Lemma join_cons (sep p : jsstring) (rest : list jsstring) :
  rest <> [] -> join sep (p :: rest) = p ++ sep ++ join sep rest.
Proof. destruct rest; [contradiction|reflexivity]. Qed.

(** Splitting at the line feeds gives back the lines that were joined. *)
Lemma split_join (l : jsstring) (ls : list jsstring) :
  forallb no_lf (l :: ls) = true -> split LF (join [LF] (l :: ls)) = l :: ls.
Proof.
  revert l. induction ls as [|l' ls IH]; intros l H.
  - simpl in *. apply split_no_lf. rewrite andb_true_r in H. exact H.
  - rewrite join_cons by discriminate.
    change (forallb no_lf (l :: l' :: ls)) with (no_lf l && forallb no_lf (l' :: ls)) in H.
    apply andb_prop in H as [Hl Hr].
    change ([LF] ++ join [LF] (l' :: ls)) with (LF :: join [LF] (l' :: ls)).
    rewrite split_app_lf by exact Hl.
    rewrite (IH l' Hr). reflexivity.
Qed.

Lemma trim_last_length (l : jsstring) (ls : list jsstring) :
  length (trim_last l ls) = S (length ls).
Proof. revert l. induction ls as [|l' ls IH]; intros l; simpl; auto. Qed.

Lemma trimmed_lines_length (l : jsstring) (ls : list jsstring) :
  length (trimmed_lines l ls) = S (length ls).
Proof. apply trim_last_length. Qed.

Lemma trim_last_no_lf (l : jsstring) (ls : list jsstring) :
  forallb no_lf (l :: ls) = true -> forallb no_lf (trim_last l ls) = true.
Proof.
  revert l. induction ls as [|l' ls IH]; intros l H.
  - simpl in *. rewrite andb_true_r in *. apply trimEnd_no_lf, H.
  - change (forallb no_lf (l :: l' :: ls))
      with (no_lf l && forallb no_lf (l' :: ls)) in H.
    apply andb_prop in H as [Hl Hr].
    simpl trim_last. simpl forallb. rewrite Hl. apply (IH l' Hr).
Qed.

Lemma trim_last_nonblank (l : jsstring) (ls : list jsstring) :
  forallb nonblank (l :: ls) = true -> forallb nonblank (trim_last l ls) = true.
Proof.
  revert l. induction ls as [|l' ls IH]; intros l H.
  - simpl in *. rewrite andb_true_r in *. rewrite trimEnd_nonblank. exact H.
  - change (forallb nonblank (l :: l' :: ls))
      with (nonblank l && forallb nonblank (l' :: ls)) in H.
    apply andb_prop in H as [Hl Hr].
    simpl trim_last. simpl forallb. rewrite Hl. apply (IH l' Hr).
Qed.

Lemma join_nonblank (sep l : jsstring) (ls : list jsstring) :
  nonblank (last_line l ls) = true -> nonblank (join sep (l :: ls)) = true.
Proof.
  revert l. induction ls as [|l' ls IH]; intros l H; [exact H|].
  rewrite join_cons by discriminate. rewrite !nonblank_app.
  rewrite (IH l' H). rewrite !orb_true_r. reflexivity.
Qed.

Lemma last_line_nonblank (l : jsstring) (ls : list jsstring) :
  forallb nonblank (l :: ls) = true ->
  nonblank l = true /\ nonblank (last_line l ls) = true.
Proof.
  revert l. induction ls as [|l' ls IH]; intros l H.
  - simpl in H. rewrite andb_true_r in H. auto.
  - change (forallb nonblank (l :: l' :: ls))
      with (nonblank l && forallb nonblank (l' :: ls)) in H.
    apply andb_prop in H as [Hl Hr]. split; [exact Hl|]. apply (IH l' Hr).
Qed.

Lemma trimEnd_join (l : jsstring) (ls : list jsstring) (w : jsstring) :
  nonblank (last_line l ls) = true -> blank w = true ->
  trimEnd (join [LF] (l :: ls) ++ w) = join [LF] (trim_last l ls).
Proof.
  intros H Hw. rewrite trimEnd_app_blank by exact Hw. clear w Hw.
  revert l H. induction ls as [|l' ls IH]; intros l H.
  - reflexivity.
  - cbn [last_line] in H.
    rewrite join_cons by discriminate.
    assert (Hj : nonblank (join [LF] (l' :: ls)) = true)
      by (apply join_nonblank, H).
    rewrite trimEnd_app by (rewrite nonblank_app, Hj; apply orb_true_r).
    rewrite trimEnd_app by exact Hj.
    rewrite IH by exact H.
    simpl trim_last. rewrite join_cons; [reflexivity|].
    destruct ls; discriminate.
Qed.

(** [trim] of lines joined by line feeds and followed by white space: when
    the first and the last line have a character that is no white space, the
    same lines, trimmed at the two ends. *)
Lemma trim_join (l : jsstring) (ls : list jsstring) (w : jsstring) :
  nonblank l = true -> nonblank (last_line l ls) = true -> blank w = true ->
  trim (join [LF] (l :: ls) ++ w) = join [LF] (trimmed_lines l ls).
Proof.
  intros Hl H Hw. unfold trim.
  assert (E : trimStart (join [LF] (l :: ls) ++ w)
              = join [LF] (trimStart l :: ls) ++ w).
  { destruct ls as [|l' ls].
    - simpl. apply trimStart_app, Hl.
    - rewrite (join_cons _ l), (join_cons _ (trimStart l)) by discriminate.
      rewrite <- !app_assoc. apply trimStart_app, Hl. }
  rewrite E. rewrite trimEnd_join.
  - reflexivity.
  - destruct ls as [|l' ls]; [|exact H].
    cbn [last_line] in *. rewrite trimStart_nonblank. exact H.
  - exact Hw.
Qed.

Lemma trimmed_lines_no_lf (l : jsstring) (ls : list jsstring) :
  forallb no_lf (l :: ls) = true -> forallb no_lf (trimmed_lines l ls) = true.
Proof.
  intros H. apply trim_last_no_lf. simpl in *.
  apply andb_prop in H as [Hl Hr]. rewrite (trimStart_no_lf _ Hl), Hr. reflexivity.
Qed.

Lemma trimmed_lines_nonblank (l : jsstring) (ls : list jsstring) :
  forallb nonblank (l :: ls) = true ->
  forallb nonblank (trimmed_lines l ls) = true.
Proof.
  intros H. apply trim_last_nonblank. simpl in *.
  rewrite trimStart_nonblank. exact H.
Qed.

(** The lines [split] finds in the trimmed text. *)
Lemma split_trim_join (l : jsstring) (ls : list jsstring) (w : jsstring) :
  nonblank l = true -> nonblank (last_line l ls) = true ->
  forallb no_lf (l :: ls) = true -> blank w = true ->
  split LF (trim (join [LF] (l :: ls) ++ w)) = trimmed_lines l ls.
Proof.
  intros Hn Hlast Hl Hw. rewrite trim_join by assumption.
  pose proof (trimmed_lines_no_lf l ls Hl) as Hl'.
  pose proof (trimmed_lines_length l ls) as Hlen.
  destruct (trimmed_lines l ls) as [|x xs]; [discriminate|].
  apply split_join, Hl'.
Qed.

(** ** Traces only grow *)

Section Emits.

Context {P : Type} (Q : event -> Prop).

Lemma emits_silent {A} (m : M P A) :
  (forall w, trace (fst (m w)) = trace w) -> emits Q m.
Proof.
  intros H w. exists []. rewrite H, app_nil_r. split; [reflexivity|constructor].
Qed.

Lemma emits_ret {A} (a : A) : emits Q (@ret P A a).
Proof. apply emits_silent. reflexivity. Qed.

Lemma emits_mret {A} (a : A) : emits Q (mret a : M P A).
Proof. apply emits_ret. Qed.

Lemma emits_throw {A} (e : exn) : emits Q (@throw P A e).
Proof. apply emits_silent. reflexivity. Qed.

Lemma emits_out_of_model {A} :
  emits Q (fun w : World P => (w, @OutOfModel A)).
Proof. apply emits_silent. reflexivity. Qed.

Lemma emits_emit (e : event) : Q e -> emits Q (@emit P e).
Proof. intros H w. exists [e]. split; [reflexivity|]. constructor; [exact H|constructor]. Qed.

Lemma emits_get_page : emits Q (@get_page P).
Proof. apply emits_silent. reflexivity. Qed.

Lemma emits_set_page (f : P -> P) : emits Q (set_page f).
Proof. apply emits_silent. reflexivity. Qed.

Lemma emits_fetch (req : request) : Q (EvFetch req) -> emits Q (fetch (P := P) req).
Proof.
  intros H w. exists [EvFetch req]. unfold fetch.
  destruct (net env (calls w) req); (split; [reflexivity|]);
    (constructor; [exact H|constructor]).
Qed.

Lemma emits_bind {A B} (m : M P A) (k : A -> M P B) :
  emits Q m -> (forall a, emits Q (k a)) -> emits Q (bind m k).
Proof.
  intros Hm Hk w. unfold bind. destruct (Hm w) as (tr1 & E1 & F1).
  destruct (m w) as [w1 [a|e| |]]; simpl in *; try (exists tr1; split; assumption).
  destruct (Hk a w1) as (tr2 & E2 & F2). exists (tr1 ++ tr2).
  rewrite E2, E1, app_assoc. split; [reflexivity|].
  apply Forall_app. split; assumption.
Qed.

Lemma emits_mbind {A B} (m : M P A) (k : A -> M P B) :
  emits Q m -> (forall a, emits Q (k a)) -> emits Q (m ≫= k).
Proof. apply emits_bind. Qed.

Lemma emits_try_catch {A} (m : M P A) (h : exn -> M P A) :
  emits Q m -> (forall e, emits Q (h e)) -> emits Q (try_catch m h).
Proof.
  intros Hm Hh w. unfold try_catch. destruct (Hm w) as (tr1 & E1 & F1).
  destruct (m w) as [w1 [a|e| |]]; simpl in *; try (exists tr1; split; assumption).
  destruct (Hh e w1) as (tr2 & E2 & F2). exists (tr1 ++ tr2).
  rewrite E2, E1, app_assoc. split; [reflexivity|].
  apply Forall_app. split; assumption.
Qed.

Lemma emits_try_finally {A} (m : M P A) (f : M P unit) :
  emits Q m -> emits Q f -> emits Q (try_finally m f).
Proof.
  intros Hm Hf w. unfold try_finally. destruct (Hm w) as (tr1 & E1 & F1).
  destruct (m w) as [w1 [a|e| |]]; simpl in *; try (exists tr1; split; assumption).
  - destruct (emits_bind f (fun _ => ret a) Hf (fun _ => emits_ret a) w1)
      as (tr2 & E2 & F2).
    exists (tr1 ++ tr2). rewrite E2, E1, app_assoc. split; [reflexivity|].
    apply Forall_app. split; assumption.
  - destruct (emits_bind f (fun _ => @throw P A e) Hf (fun _ => emits_throw e) w1)
      as (tr2 & E2 & F2).
    exists (tr1 ++ tr2). rewrite E2, E1, app_assoc. split; [reflexivity|].
    apply Forall_app. split; assumption.
Qed.

Lemma emits_lift_option {A} (o : option A) (e : exn) :
  emits Q (@lift_option P A o e).
Proof. destruct o; [apply emits_ret|apply emits_throw]. Qed.

Lemma emits_await_json (r : Response) : emits Q (@await_json P r).
Proof.
  unfold await_json. destruct (snd (Response_json r));
    [apply emits_ret|apply emits_throw].
Qed.

Lemma emits_get (v : jsval) (k : jsstring) : emits Q (@get P v k).
Proof. apply emits_lift_option. Qed.

Lemma emits_to_string (v : jsval) : emits Q (to_string (P := P) v).
Proof. apply emits_lift_option. Qed.

Lemma emits_await {A} (p : promise A) : emits Q (@await P A p).
Proof.
  destruct p; simpl; [apply emits_ret|apply emits_throw|].
  apply emits_silent. reflexivity.
Qed.

End Emits.

Create HintDb emits.
#[local] Hint Resolve emits_ret emits_mret emits_throw emits_get_page
  emits_set_page emits_lift_option emits_await_json emits_get emits_await
  emits_to_string emits_out_of_model : emits.

(** Splits a computation into its parts and closes the parts the hints
    know; what is left are the events the computation emits itself. *)
Ltac emits_tac :=
  repeat first
    [ progress (auto with emits)
    | apply emits_try_catch
    | apply emits_try_finally
    | apply emits_mbind
    | apply emits_bind
    | apply emits_emit
    | apply emits_fetch
    | match goal with
      | |- emits _ (if ?b then _ else _) => destruct b
      | |- emits _ (match ?x with _ => _ end) => destruct x
      | |- forall _, _ => intro
      end ].

Ltac grows_tac := unfold grows; emits_tac; try exact I.

Lemma grows_prefix {P A} (m : M P A) :
  grows m -> forall w, exists tr, trace (fst (m w)) = trace w ++ tr.
Proof. intros H w. destruct (H w) as (tr & E & _). exists tr. exact E. Qed.

Lemma emits_grows {P A} (Q : event -> Prop) (m : M P A) : emits Q m -> grows m.
Proof.
  intros H w. destruct (H w) as (tr & E & _). exists tr. split; [exact E|].
  apply Forall_forall. intros; exact I.
Qed.

Lemma grows_fetchDatasets : grows fetchDatasets.
Proof. unfold fetchDatasets. grows_tac. Qed.

Lemma grows_handleCloseModal : grows handleCloseModal.
Proof. unfold handleCloseModal. grows_tac. Qed.

(** ** The dataset utilities *)

Lemma sample_count_csv (content : jsstring) :
  sample_count (Some (js "csv")) content
  = Z.max 0 (Z.of_nat (length (split LF (trim content))) - 1).
Proof. reflexivity. Qed.

Lemma sample_count_jsonl (content : jsstring) :
  sample_count (Some (js "jsonl")) content
  = Z.of_nat (length (List.filter (fun line => negb (is_empty (trim line)))
                                  (split LF (trim content)))).
Proof. reflexivity. Qed.

Lemma sample_count_json (content : jsstring) :
  sample_count (Some (js "json")) content
  = match JSON_parse content with
    | Some (JArray items) => Z.of_nat (length items)
    | Some _ => 1%Z
    | None => 0%Z
    end.
Proof. reflexivity. Qed.

Lemma ext_is_true (ext : option jsstring) (name : string) :
  ext_is ext name = true <-> ext = Some (js name).
Proof.
  unfold ext_is, jsstring_eqb. destruct ext as [e|].
  - rewrite bool_decide_eq_true. split; congruence.
  - split; discriminate.
Qed.

Lemma ext_is_false (ext : option jsstring) (name : string) :
  ext <> Some (js name) -> ext_is ext name = false.
Proof.
  intros H. destruct (ext_is ext name) eqn:E; [|reflexivity].
  apply ext_is_true in E. contradiction.
Qed.

Lemma filter_trim_nonblank (lines : list jsstring) :
  List.filter (fun line => negb (is_empty (trim line))) lines
  = List.filter nonblank lines.
Proof.
  apply filter_ext. intros line. rewrite trim_empty, blank_nonblank.
  apply negb_involutive.
Qed.

Lemma split_no_sep (sep : N) (s : jsstring) :
  forallb (fun c => negb (c =? sep)) s = true -> split sep s = [s].
Proof.
  induction s as [|c r IH]; simpl; [reflexivity|].
  intros H. apply andb_prop in H as [Hc Hr].
  apply negb_true_iff in Hc. rewrite Hc, (IH Hr). reflexivity.
Qed.

(** The parts of a text with a separator in it: the parts in front of it,
    then the parts behind it. *)
Lemma split_app_sep (sep : N) (a b : jsstring) :
  split sep (a ++ sep :: b) = split sep a ++ split sep b.
Proof.
  induction a as [|c a IH].
  - cbn [app split]. rewrite N.eqb_refl. reflexivity.
  - cbn [app split]. destruct (c =? sep).
    + rewrite IH. reflexivity.
    + rewrite IH. pose proof (split_not_nil sep a) as Hne.
      destruct (split sep a) as [|h t]; [contradiction|reflexivity].
Qed.

Lemma pop_app_last (parts : list jsstring) (p : jsstring) :
  pop (parts ++ [p]) = Some p.
Proof.
  unfold pop. rewrite List.map_app. cbn [List.map]. apply last_last.
Qed.

(** The extension the code computes for a name that ends in a dot and a
    run of characters without a dot, and for a name without a dot. *)
Lemma file_ext_dot (stem ext : jsstring) :
  dot_free ext = true ->
  file_ext (stem ++ js "." ++ ext) = Some (toLowerCase ext).
Proof.
  intros Hdot. unfold file_ext. change (js ".") with [46]. cbn [app].
  rewrite split_app_sep, (split_no_sep _ _ Hdot), pop_app_last. reflexivity.
Qed.

Lemma file_ext_dot_free (name : jsstring) :
  dot_free name = true -> file_ext name = Some (toLowerCase name).
Proof.
  intros Hdot. unfold file_ext. rewrite (split_no_sep _ _ Hdot). reflexivity.
Qed.

Lemma file_ext_has_extension (name : jsstring) (e : string) :
  has_extension name e -> file_ext name = Some (js e).
Proof.
  intros (stem & ext & -> & Hdot & <-). apply file_ext_dot, Hdot.
Qed.

(** C10: for a file that can be read the promise resolves, and never
    rejects.  For a file whose name ends in [.json], in any case of letters,
    it resolves to 1 when the content is JSON but no array and to 0 when
    the content does not parse; for a name that ends in [.jsonl] to the
    number of non-blank lines of the trimmed content; and to 0 when what
    stands behind the last dot of the name, or the whole name when it has
    no dot, is none of [json], [jsonl], [csv] in lower case. *)
Theorem parseFileForSampleCount_total (file : File) (content : jsstring) :
  file_text file = Some content ->
  (exists n, parseFileForSampleCount file = Resolved n)
  /\ (forall e, parseFileForSampleCount file <> Rejected e)
  /\ parseFileForSampleCount file <> Pending
  /\ (has_extension (file_name file) "json" ->
      forall v, JSON_parse content = Some v ->
                (forall items, v <> JArray items) ->
                parseFileForSampleCount file = Resolved 1%Z)
  /\ (has_extension (file_name file) "json" -> JSON_parse content = None ->
      parseFileForSampleCount file = Resolved 0%Z)
  /\ (has_extension (file_name file) "jsonl" ->
      parseFileForSampleCount file = Resolved (nonblank_line_count content))
  /\ (forall stem ext,
        file_name file = stem ++ js "." ++ ext -> dot_free ext = true ->
        toLowerCase ext <> js "json" -> toLowerCase ext <> js "jsonl" ->
        toLowerCase ext <> js "csv" ->
        parseFileForSampleCount file = Resolved 0%Z)
  /\ (dot_free (file_name file) = true ->
      toLowerCase (file_name file) <> js "json" ->
      toLowerCase (file_name file) <> js "jsonl" ->
      toLowerCase (file_name file) <> js "csv" ->
      parseFileForSampleCount file = Resolved 0%Z).
Proof.
  intros Htext. unfold parseFileForSampleCount. rewrite Htext.
  assert (Hother : forall e, e <> js "json" -> e <> js "jsonl" -> e <> js "csv" ->
                             sample_count (Some e) content = 0%Z).
  { intros e H1 H2 H3. unfold sample_count.
    rewrite !ext_is_false by congruence. reflexivity. }
  split; [eexists; reflexivity|]. split; [discriminate|]. split; [discriminate|].
  split; [|split; [|split; [|split]]].
  - intros Hext v Hv Hna. rewrite (file_ext_has_extension _ _ Hext).
    rewrite sample_count_json, Hv.
    destruct v; try reflexivity. destruct (Hna items eq_refl).
  - intros Hext Hv. rewrite (file_ext_has_extension _ _ Hext).
    rewrite sample_count_json, Hv. reflexivity.
  - intros Hext. rewrite (file_ext_has_extension _ _ Hext).
    rewrite sample_count_jsonl, filter_trim_nonblank. reflexivity.
  - intros stem ext Hname Hdot H1 H2 H3.
    rewrite Hname, (file_ext_dot _ _ Hdot), Hother by assumption. reflexivity.
  - intros Hdot H1 H2 H3.
    rewrite (file_ext_dot_free _ Hdot), Hother by assumption. reflexivity.
Qed.

(** A CSV file of a header line and data lines, each without line feed, the
    header and the last line with a character that is no white space, and
    white space (the final line break) behind: the count is the number of
    data lines. *)
Lemma sample_count_csv_lines (header : jsstring) (data : list jsstring)
    (w : jsstring) :
  nonblank header = true -> nonblank (last_line header data) = true ->
  forallb no_lf (header :: data) = true ->
  blank w = true ->
  sample_count (Some (js "csv")) (join [LF] (header :: data) ++ w)
  = Z.of_nat (length data).
Proof.
  intros Hn Hlast Hl Hw. rewrite sample_count_csv, split_trim_join by assumption.
  rewrite trimmed_lines_length. lia.
Qed.

Lemma begins_try_catch {P A} (m : M P A) (h : exn -> M P A) (w : World P)
    (evs : list event) :
  begins m w evs -> (forall e, grows (h e)) -> begins (try_catch m h) w evs.
Proof.
  intros [tr E] Hh. unfold begins, try_catch.
  destruct (m w) as [w1 [a|e| |]]; simpl in *; try (exists tr; exact E).
  destruct (grows_prefix _ (Hh e) w1) as [tr2 E2]. exists (tr ++ tr2).
  rewrite E2, E, <- !app_assoc. reflexivity.
Qed.

Lemma begins_fetch_bind {P B} (req : request) (k : Response -> M P B)
    (w : World P) :
  (forall r, grows (k r)) -> begins (fetch req ≫= k) w [EvFetch req].
Proof.
  intros Hk. unfold begins, mbind, M_bind, bind, fetch.
  destruct (net env (calls w) req) as [r|e| ].
  - match goal with
    | |- context [k r ?w'] => destruct (grows_prefix _ (Hk r) w') as [tr E]
    end.
    exists tr. rewrite E. simpl. rewrite <- app_assoc. reflexivity.
  - exists []. reflexivity.
  - exists []. reflexivity.
Qed.

Lemma post_dataset_begins (d : Dataset) (w : World DatasetsPage) :
  begins (post_dataset d) w [EvFetch (dataset_request d)].
Proof.
  apply begins_fetch_bind. intros r.
  destruct (ok r); [|grows_tac].
  apply emits_mbind; [apply grows_fetchDatasets|intros _; apply grows_handleCloseModal].
Qed.

(** C5, amended: for a file whose name ends in [.csv], in any case of
    letters, and whose content is a header line followed by n data lines, no
    line with a line feed inside, the header and the last line not blank
    (white space such as the final line break may follow the last line),
    [parseFileForSampleCount] resolves to n, and a save in upload mode posts
    a data set whose [samples] is n. *)
Theorem csv_upload_counts_data_lines (file : File) (header : jsstring)
    (data : list jsstring) (w : jsstring) :
  has_extension (file_name file) "csv" ->
  file_text file = Some (join [LF] (header :: data) ++ w) ->
  nonblank header = true ->
  nonblank (last_line header data) = true ->
  forallb no_lf (header :: data) = true ->
  blank w = true ->
  parseFileForSampleCount file = Resolved (Z.of_nat (length data))
  /\ forall w0 : World DatasetsPage,
       modalMode (page w0) = upload_mode ->
       uploadedFile (page w0) = Some file ->
       let newDataset := uploaded_dataset file (Z.of_nat (length data)) in
       samples newDataset = Z.of_nat (length data)
       /\ begins handleSaveDataset w0 [EvFetch (dataset_request newDataset)].
Proof.
  intros Hext Htext Hn Hlast Hl Hw.
  apply file_ext_has_extension in Hext.
  assert (Hp : parseFileForSampleCount file = Resolved (Z.of_nat (length data))).
  { unfold parseFileForSampleCount. rewrite Htext, Hext.
    rewrite sample_count_csv_lines by assumption. reflexivity. }
  split; [exact Hp|].
  intros w0 Hmode Hfile newDataset. split; [reflexivity|].
  unfold handleSaveDataset. apply begins_try_catch; [|intros e; grows_tac].
  unfold begins, mbind, M_bind, bind, get_page. simpl.
  rewrite Hmode, Hfile, Hp. simpl.
  apply post_dataset_begins.
Qed.

(** ** The JSON parser: it consumes input and never runs out of fuel *)

Lemma json_skip_ws_length (s : jsstring) :
  (length (json_skip_ws s) <= length s)%nat.
Proof.
  induction s as [|c r IH]; simpl; [lia|].
  destruct (json_ws c); simpl; lia.
Qed.

Lemma cons_char_length (c : N) (r : option (jsstring * jsstring))
    (str rest : jsstring) :
  cons_char c r = Some (str, rest) ->
  exists str', r = Some (str', rest) /\ str = c :: str'.
Proof.
  destruct r as [[str' rest']|]; simpl; [|discriminate].
  intros H. inversion H. subst. eauto.
Qed.

Lemma parse_string_body_length (s str rest : jsstring) :
  parse_string_body s = Some (str, rest) -> (length rest < length s)%nat.
Proof.
  remember (length s) as n eqn:Hn. revert s str rest Hn.
  induction n as [n IH] using lt_wf_ind. intros s str rest Hn.
  destruct s as [|c r]; simpl; [discriminate|].
  destruct (c =? QUOTE).
  { intros H. inversion H. subst. simpl. lia. }
  destruct (c =? BACKSLASH).
  - destruct r as [|l r1]; [discriminate|].
    destruct (l =? 117).
    + destruct r1 as [|h1 [|h2 [|h3 [|h4 r2]]]]; try discriminate.
      destruct (hex_value h1), (hex_value h2), (hex_value h3), (hex_value h4);
        try discriminate.
      intros H. apply cons_char_length in H as (str' & H & _).
      apply (IH (length r2)) in H; subst; simpl in *; try lia.
    + destruct (unescape l); [|discriminate].
      intros H. apply cons_char_length in H as (str' & H & _).
      apply (IH (length r1)) in H; subst; simpl in *; try lia.
  - destruct (c <? 32); [discriminate|].
    intros H. apply cons_char_length in H as (str' & H & _).
    apply (IH (length r)) in H; subst; simpl in *; try lia.
Qed.

Lemma span_digits_length (s : jsstring) :
  (length (snd (span_digits s)) <= length s)%nat.
Proof.
  induction s as [|c r IH]; simpl; [lia|].
  destruct (is_digit c); simpl; [|lia].
  destruct (span_digits r); simpl in *. lia.
Qed.

Lemma span_digits_nonempty (s d rest : jsstring) :
  span_digits s = (d, rest) -> d <> [] -> (length rest < length s)%nat.
Proof.
  destruct s as [|c r]; simpl.
  - intros H. inversion H. congruence.
  - destruct (is_digit c).
    + pose proof (span_digits_length r) as L.
      destruct (span_digits r) as [d' r']. intros H. inversion H. subst.
      simpl in *. lia.
    + intros H. inversion H. congruence.
Qed.

Lemma starts_length (c : N) (s r : jsstring) :
  starts c s = Some r -> length s = S (length r).
Proof.
  destruct s as [|x s']; simpl; [discriminate|].
  destruct (x =? c); [|discriminate]. intros H. inversion H. reflexivity.
Qed.

Lemma strip_prefix_length (p s r : jsstring) :
  strip_prefix p s = Some r -> (length r <= length s)%nat.
Proof.
  revert s. induction p as [|c p IH]; simpl; intros s.
  - intros H. inversion H. lia.
  - destruct (starts c s) as [r'|] eqn:E; [|discriminate].
    apply starts_length in E. intros H. apply IH in H. lia.
Qed.

Lemma parse_fraction_length (s fd rest : jsstring) :
  parse_fraction s = Some (fd, rest) -> (length rest <= length s)%nat.
Proof.
  unfold parse_fraction. destruct (starts 46 s) as [r|] eqn:E.
  - apply starts_length in E. pose proof (span_digits_length r) as L.
    destruct (span_digits r) as [d r']. destruct (is_empty d); [discriminate|].
    intros H. inversion H. subst. simpl in L. lia.
  - intros H. inversion H. lia.
Qed.

Lemma parse_exponent_length (s : jsstring) (ex : Z) (rest : jsstring) :
  parse_exponent s = Some (ex, rest) -> (length rest <= length s)%nat.
Proof.
  unfold parse_exponent. destruct s as [|x r].
  - intros H. inversion H. lia.
  - destruct ((x =? 101) || (x =? 69)).
    + assert (L : forall sgn r', (length r' <= length r)%nat ->
                  (let (ed, rest0) := span_digits r' in
                   if is_empty ed then None
                   else Some ((sgn * Z.of_N (digits_value ed))%Z, rest0))
                  = Some (ex, rest) -> (length rest <= length (x :: r))%nat).
      { intros sgn r' Hr'. pose proof (span_digits_length r') as L.
        destruct (span_digits r') as [ed rest0]. destruct (is_empty ed); [discriminate|].
        intros H. inversion H. subst. simpl in *. lia. }
      destruct (starts 43 r) as [r'|] eqn:E1.
      * apply starts_length in E1. apply L. lia.
      * destruct (starts 45 r) as [r'|] eqn:E2.
        -- apply starts_length in E2. apply L. lia.
        -- apply L. lia.
    + intros H. inversion H. lia.
Qed.

Lemma parse_number_length (s : jsstring) (v : json) (rest : jsstring) :
  parse_number s = Some (v, rest) -> (length rest < length s)%nat.
Proof.
  unfold parse_number.
  assert (L : forall neg s1, (length s1 <= length s)%nat ->
    match s1 with
    | c :: r =>
        if is_digit c then
          let (ip, s2) := if c =? 48 then ([c], r) else span_digits s1 in
          match parse_fraction s2 with
          | None => None
          | Some (fd, s3) =>
              match parse_exponent s3 with
              | None => None
              | Some (ex, s4) =>
                  Some (JNumber neg (digits_value (ip ++ fd))
                                (ex - Z.of_nat (length fd))%Z, s4)
              end
          end
        else None
    | [] => None
    end = Some (v, rest) -> (length rest < length s)%nat).
  { intros neg s1 Hs1. destruct s1 as [|c r]; [discriminate|].
    destruct (is_digit c) eqn:Hd; [|discriminate].
    assert (Hs2 : forall ip s2,
              (if c =? 48 then ([c], r) else span_digits (c :: r)) = (ip, s2) ->
              (length s2 <= length r)%nat).
    { intros ip s2. destruct (c =? 48).
      - intros H. inversion H. lia.
      - simpl. rewrite Hd. pose proof (span_digits_length r) as L.
        destruct (span_digits r) as [d r']. intros H. inversion H. subst.
        simpl in L. lia. }
    destruct (if c =? 48 then ([c], r) else span_digits (c :: r)) as [ip s2].
    specialize (Hs2 ip s2 eq_refl).
    destruct (parse_fraction s2) as [[fd s3]|] eqn:Ef; [|discriminate].
    apply parse_fraction_length in Ef.
    destruct (parse_exponent s3) as [[ex s4]|] eqn:Ee; [|discriminate].
    apply parse_exponent_length in Ee.
    intros H. inversion H. subst. simpl in *. lia. }
  destruct (starts 45 s) as [r|] eqn:E.
  - apply starts_length in E. apply L. lia.
  - apply L. lia.
Qed.

Lemma json_skip_ws_cons (s : jsstring) (c : N) (r : jsstring) :
  json_skip_ws s = c :: r -> (length r < length s)%nat.
Proof.
  intros H. pose proof (json_skip_ws_length s) as L. rewrite H in L.
  simpl in L. lia.
Qed.

Lemma starts_skip_ws (c : N) (s r : jsstring) :
  starts c (json_skip_ws s) = Some r -> (length r < length s)%nat.
Proof.
  intros H. apply starts_length in H.
  pose proof (json_skip_ws_length s). lia.
Qed.

(** A successful parse leaves less input than it was given. *)
Lemma parse_consumes (fuel : nat) :
  (forall s v rest, parse_value fuel s = POk v rest ->
                    (length rest < length s)%nat)
  /\ (forall s vs rest, parse_elements fuel s = POk vs rest ->
                        (length rest < length s)%nat)
  /\ (forall s ms rest, parse_members fuel s = POk ms rest ->
                        (length rest < length s)%nat).
Proof.
  induction fuel as [|f (IHv & IHe & IHm)]; [repeat split; discriminate|].
  repeat split.
  - intros s v rest. simpl.
    destruct (json_skip_ws s) as [|c r] eqn:Es; [discriminate|].
    apply json_skip_ws_cons in Es.
    destruct (c =? 123).
    { destruct (starts 125 (json_skip_ws r)) as [r'|] eqn:E.
      - apply starts_skip_ws in E. intros H. inversion H. subst. lia.
      - destruct (parse_members f r) as [ms rest'| |] eqn:Em; try discriminate.
        apply IHm in Em. simpl. intros H. inversion H. subst. lia. }
    destruct (c =? 91).
    { destruct (starts 93 (json_skip_ws r)) as [r'|] eqn:E.
      - apply starts_skip_ws in E. intros H. inversion H. subst. lia.
      - destruct (parse_elements f r) as [vs rest'| |] eqn:Em; try discriminate.
        apply IHe in Em. simpl. intros H. inversion H. subst. lia. }
    destruct (c =? QUOTE).
    { destruct (parse_string_body r) as [[str rest']|] eqn:E; [|discriminate].
      apply parse_string_body_length in E. simpl. intros H. inversion H. subst. lia. }
    assert (Hlit : forall t lit, parse_literal t lit r = POk v rest ->
                                 (length rest < length s)%nat).
    { intros t lit. unfold parse_literal.
      destruct (strip_prefix t r) as [r'|] eqn:E; [|discriminate].
      apply strip_prefix_length in E. intros H. inversion H. subst. lia. }
    destruct (c =? 116); [apply Hlit|].
    destruct (c =? 102); [apply Hlit|].
    destruct (c =? 110); [apply Hlit|].
    destruct (parse_number (c :: r)) as [[v' rest']|] eqn:E; [|discriminate].
    apply parse_number_length in E. simpl. intros H. inversion H. subst.
    simpl in E. lia.
  - intros s vs rest. simpl.
    destruct (parse_value f s) as [v rest0| |] eqn:Ev; try discriminate.
    apply IHv in Ev. simpl.
    destruct (starts 44 (json_skip_ws rest0)) as [r|] eqn:E1.
    + apply starts_skip_ws in E1.
      destruct (parse_elements f r) as [vs' rest'| |] eqn:Ee; try discriminate.
      apply IHe in Ee. simpl. intros H. inversion H. subst. lia.
    + destruct (starts 93 (json_skip_ws rest0)) as [r|] eqn:E2; [|discriminate].
      apply starts_skip_ws in E2. intros H. inversion H. subst. lia.
  - intros s ms rest. simpl.
    destruct (starts QUOTE (json_skip_ws s)) as [r0|] eqn:E0; [|discriminate].
    apply starts_skip_ws in E0.
    destruct (parse_string_body r0) as [[key rest0]|] eqn:Ek; [|discriminate].
    apply parse_string_body_length in Ek. simpl.
    destruct (starts 58 (json_skip_ws rest0)) as [r1|] eqn:E1; [|discriminate].
    apply starts_skip_ws in E1.
    destruct (parse_value f r1) as [v rest1| |] eqn:Ev; try discriminate.
    apply IHv in Ev. simpl.
    destruct (starts 44 (json_skip_ws rest1)) as [r|] eqn:E2.
    + apply starts_skip_ws in E2.
      destruct (parse_members f r) as [ms' rest'| |] eqn:Em; try discriminate.
      apply IHm in Em. simpl. intros H. inversion H. subst. lia.
    + destruct (starts 125 (json_skip_ws rest1)) as [r|] eqn:E3; [|discriminate].
      apply starts_skip_ws in E3. intros H. inversion H. subst. lia.
Qed.

(** With twice the length of the input and two more, the parser does not
    run out of fuel: [JSON_parse] answers [None] only on a syntax error. *)
Lemma parse_fuel (fuel : nat) :
  (forall s, (2 * length s + 2 <= fuel)%nat -> parse_value fuel s <> POutOfFuel)
  /\ (forall s, (2 * length s + 3 <= fuel)%nat -> parse_elements fuel s <> POutOfFuel)
  /\ (forall s, (2 * length s + 3 <= fuel)%nat -> parse_members fuel s <> POutOfFuel).
Proof.
  induction fuel as [|f (IHv & IHe & IHm)]; [repeat split; intros; lia|].
  destruct (parse_consumes f) as (Cv & Ce & Cm).
  repeat split.
  - intros s Hf. simpl.
    destruct (json_skip_ws s) as [|c r] eqn:Es; [discriminate|].
    apply json_skip_ws_cons in Es.
    destruct (c =? 123).
    { destruct (starts 125 (json_skip_ws r)); [discriminate|].
      specialize (IHm r ltac:(lia)).
      destruct (parse_members f r); simpl; congruence. }
    destruct (c =? 91).
    { destruct (starts 93 (json_skip_ws r)); [discriminate|].
      specialize (IHe r ltac:(lia)).
      destruct (parse_elements f r); simpl; congruence. }
    destruct (c =? QUOTE).
    { destruct (parse_string_body r) as [[? ?]|]; discriminate. }
    unfold parse_literal.
    destruct (c =? 116); [destruct (strip_prefix _ r); discriminate|].
    destruct (c =? 102); [destruct (strip_prefix _ r); discriminate|].
    destruct (c =? 110); [destruct (strip_prefix _ r); discriminate|].
    destruct (parse_number (c :: r)) as [[? ?]|]; discriminate.
  - intros s Hf. simpl.
    specialize (IHv s ltac:(lia)).
    destruct (parse_value f s) as [v rest0| |] eqn:Ev; simpl; try congruence.
    apply Cv in Ev.
    destruct (starts 44 (json_skip_ws rest0)) as [r|] eqn:E1.
    + apply starts_skip_ws in E1. specialize (IHe r ltac:(lia)).
      destruct (parse_elements f r); simpl; congruence.
    + destruct (starts 93 (json_skip_ws rest0)); discriminate.
  - intros s Hf. simpl.
    destruct (starts QUOTE (json_skip_ws s)) as [r0|] eqn:E0; [|discriminate].
    apply starts_skip_ws in E0.
    destruct (parse_string_body r0) as [[key rest0]|] eqn:Ek; [|discriminate].
    apply parse_string_body_length in Ek. simpl.
    destruct (starts 58 (json_skip_ws rest0)) as [r1|] eqn:E1; [|discriminate].
    apply starts_skip_ws in E1. specialize (IHv r1 ltac:(lia)).
    destruct (parse_value f r1) as [v rest1| |] eqn:Ev; simpl; try congruence.
    apply Cv in Ev.
    destruct (starts 44 (json_skip_ws rest1)) as [r|] eqn:E2.
    + apply starts_skip_ws in E2. specialize (IHm r ltac:(lia)).
      destruct (parse_members f r); simpl; congruence.
    + destruct (starts 125 (json_skip_ws rest1)); discriminate.
Qed.

(** The fuel [JSON_parse] gives is enough for every input. *)
Theorem parse_value_fuel (text : jsstring) :
  parse_value (2 * length text + 2) text <> POutOfFuel.
Proof. apply (proj1 (parse_fuel _)). lia. Qed.

(** ** [JSON.parse] reads back what [JSON.stringify] writes *)

Lemma hex_value_digit (d : N) : d < 16 -> hex_value (hex_digit d) = Some d.
Proof.
  intros H. unfold hex_digit, hex_value.
  destruct (d <? 10) eqn:E.
  - apply N.ltb_lt in E.
    replace ((48 <=? 48 + d) && (48 + d <=? 57)) with true.
    + f_equal. lia.
    + symmetry. apply andb_true_intro. split; apply N.leb_le; lia.
  - apply N.ltb_ge in E.
    replace ((48 <=? 87 + d) && (87 + d <=? 57)) with false.
    + replace ((97 <=? 87 + d) && (87 + d <=? 102)) with true.
      * f_equal. lia.
      * symmetry. apply andb_true_intro. split; apply N.leb_le; lia.
    + symmetry. apply andb_false_intro2. apply N.leb_gt. lia.
Qed.

Lemma parse_unicode_escape (c : N) (s : jsstring) :
  c < 65536 ->
  parse_string_body (unicode_escape c ++ s)
  = cons_char c (parse_string_body s).
Proof.
  intros H. unfold unicode_escape. simpl.
  rewrite !hex_value_digit.
  - f_equal. zify. Z.to_euclidean_division_equations. lia.
  - apply N.mod_lt. lia.
  - apply N.mod_lt. lia.
  - apply N.mod_lt. lia.
  - apply N.Div0.div_lt_upper_bound. lia.
Qed.

Lemma parse_plain_char (c : N) (s : jsstring) :
  32 <= c -> c <> QUOTE -> c <> BACKSLASH ->
  parse_string_body (c :: s) = cons_char c (parse_string_body s).
Proof.
  intros H1 H2 H3. simpl.
  apply N.eqb_neq in H2. apply N.eqb_neq in H3. rewrite H2, H3.
  replace (c <? 32) with false by (symmetry; apply N.ltb_ge; exact H1).
  reflexivity.
Qed.

Lemma surrogate_range (c : N) :
  is_high_surrogate c = true \/ is_low_surrogate c = true ->
  32 <= c /\ c <> QUOTE /\ c <> BACKSLASH /\ c < 65536.
Proof.
  unfold is_high_surrogate, is_low_surrogate, QUOTE, BACKSLASH.
  intros [H|H]; apply andb_prop in H as [H1 H2];
    apply N.leb_le in H1; apply N.leb_le in H2; lia.
Qed.

(** The string parser reads a quoted string back. *)
Lemma parse_quote_chars (s rest : jsstring) :
  parse_string_body (quote_chars s ++ QUOTE :: rest) = Some (s, rest).
Proof.
  remember (length s) as n eqn:Hn. revert s Hn.
  induction n as [n IH] using lt_wf_ind. intros s Hn.
  destruct s as [|c r]; [reflexivity|].
  assert (IHr : parse_string_body (quote_chars r ++ QUOTE :: rest) = Some (r, rest)).
  { apply (IH (length r)); [subst; simpl; lia|reflexivity]. }
  simpl quote_chars.
  destruct (c =? 8) eqn:E8; [apply N.eqb_eq in E8; subst c; simpl in *; rewrite IHr; reflexivity|].
  destruct (c =? 9) eqn:E9; [apply N.eqb_eq in E9; subst c; simpl in *; rewrite IHr; reflexivity|].
  destruct (c =? 10) eqn:E10; [apply N.eqb_eq in E10; subst c; simpl in *; rewrite IHr; reflexivity|].
  destruct (c =? 12) eqn:E12; [apply N.eqb_eq in E12; subst c; simpl in *; rewrite IHr; reflexivity|].
  destruct (c =? 13) eqn:E13; [apply N.eqb_eq in E13; subst c; simpl in *; rewrite IHr; reflexivity|].
  destruct (c =? QUOTE) eqn:EQ; [apply N.eqb_eq in EQ; subst c; simpl in *; rewrite IHr; reflexivity|].
  destruct (c =? BACKSLASH) eqn:EB; [apply N.eqb_eq in EB; subst c; simpl in *; rewrite IHr; reflexivity|].
  apply N.eqb_neq in EQ, EB.
  destruct (c <? 32) eqn:E32.
  { apply N.ltb_lt in E32.
    transitivity (cons_char c (parse_string_body (quote_chars r ++ QUOTE :: rest)));
      [exact (parse_unicode_escape c _ ltac:(lia))|rewrite IHr; reflexivity]. }
  apply N.ltb_ge in E32.
  destruct (is_high_surrogate c) eqn:Eh.
  { destruct (surrogate_range c (or_introl Eh)) as (_ & _ & _ & Hc).
    destruct r as [|d r'].
    - exact (parse_unicode_escape c _ Hc).
    - destruct (is_low_surrogate d) eqn:El.
      + destruct (surrogate_range d (or_intror El)) as (D1 & D2 & D3 & _).
        rewrite <- !app_comm_cons. rewrite parse_plain_char by assumption.
        rewrite parse_plain_char by assumption.
        rewrite (IH (length r')); [reflexivity|subst; simpl; lia|reflexivity].
      + transitivity (cons_char c (parse_string_body
                                     (quote_chars (d :: r') ++ QUOTE :: rest)));
          [exact (parse_unicode_escape c _ Hc)|rewrite IHr; reflexivity]. }
  destruct (is_low_surrogate c) eqn:El.
  { destruct (surrogate_range c (or_intror El)) as (_ & _ & _ & Hc).
    transitivity (cons_char c (parse_string_body (quote_chars r ++ QUOTE :: rest)));
      [exact (parse_unicode_escape c _ Hc)|rewrite IHr; reflexivity]. }
  rewrite <- app_comm_cons. rewrite parse_plain_char by assumption.
  rewrite IHr. reflexivity.
Qed.

(** Induction on a JSON value, with the property for the items of an array
    and the values of an object. *)
Lemma json_ind (P : json -> Prop) :
  P JNull ->
  (forall b, P (JBool b)) ->
  (forall neg m e, P (JNumber neg m e)) ->
  (forall s, P (JString s)) ->
  (forall items, Forall P items -> P (JArray items)) ->
  (forall members, Forall (fun kv => P (snd kv)) members -> P (JObject members)) ->
  forall v, P v.
Proof.
  intros Hnull Hbool Hnum Hstr Harr Hobj.
  fix IH 1. intros [ |b|neg m e|s|items|members].
  - exact Hnull.
  - apply Hbool.
  - apply Hnum.
  - apply Hstr.
  - apply Harr. induction items as [|x xs IHxs]; constructor; [apply IH|exact IHxs].
  - apply Hobj. induction members as [|[k x] xs IHxs]; constructor;
      [apply IH|exact IHxs].
Qed.

Lemma all_ws_app (a b : jsstring) : all_ws a -> all_ws b -> all_ws (a ++ b).
Proof. unfold all_ws. intros Ha Hb. rewrite forallb_app, Ha, Hb. reflexivity. Qed.

Lemma all_ws_cons (c : N) (w : jsstring) :
  json_ws c = true -> all_ws w -> all_ws (c :: w).
Proof. unfold all_ws. simpl. intros -> ->. reflexivity. Qed.

Lemma all_ws_nil : all_ws [].
Proof. reflexivity. Qed.

Lemma json_skip_ws_app (w s : jsstring) :
  all_ws w -> json_skip_ws (w ++ s) = json_skip_ws s.
Proof.
  unfold all_ws. induction w as [|c w IH]; simpl; [reflexivity|].
  intros H. apply andb_prop in H as [Hc Hw]. rewrite Hc. apply IH, Hw.
Qed.

Lemma json_skip_ws_stop (c : N) (s : jsstring) :
  json_ws c = false -> json_skip_ws (c :: s) = c :: s.
Proof. intros H. simpl. rewrite H. reflexivity. Qed.

Lemma parse_value_skip (fuel : nat) (w s : jsstring) :
  all_ws w -> parse_value fuel (w ++ s) = parse_value fuel s.
Proof.
  intros H. destruct fuel; simpl; [reflexivity|].
  rewrite json_skip_ws_app by exact H. reflexivity.
Qed.

Lemma wrap_items_eq (opening closing : N) (gap indent p : jsstring)
    (parts : list jsstring) :
  wrap_items opening closing gap indent (p :: parts)
  = opening :: lead gap indent
      ++ join (44 :: lead gap indent) (p :: parts)
      ++ trail gap indent ++ [closing].
Proof.
  unfold wrap_items, lead, trail. destruct gap as [|g gap]; reflexivity.
Qed.

Lemma all_ws_lead (gap indent : jsstring) :
  all_ws gap -> all_ws indent -> all_ws (lead gap indent).
Proof.
  intros Hg Hi. unfold lead. destruct gap as [|g gap]; [reflexivity|].
  apply all_ws_cons; [reflexivity|]. apply all_ws_app; assumption.
Qed.

Lemma all_ws_trail (gap indent : jsstring) :
  all_ws indent -> all_ws (trail gap indent).
Proof.
  intros Hi. unfold trail. destruct gap as [|g gap]; [reflexivity|].
  apply all_ws_cons; [reflexivity|exact Hi].
Qed.

Lemma serialize_opens (gap indent : jsstring) (v : json) :
  number_free v = true -> opens_value (serialize gap indent v).
Proof.
  unfold opens_value. destruct v as [ |[|]|neg m e|s|items|members]; simpl; intros H.
  - exists 110, [117; 108; 108]. repeat split.
  - exists 116, [114; 117; 101]. repeat split.
  - exists 102, [97; 108; 115; 101]. repeat split.
  - discriminate.
  - exists QUOTE, (quote_chars s ++ [QUOTE]). repeat split.
  - destruct items as [|x xs].
    + exists 91, [93]. repeat split.
    + simpl List.map. rewrite wrap_items_eq. eexists _, _. repeat split.
  - destruct members as [|x xs].
    + exists 123, [125]. repeat split.
    + simpl List.map. rewrite wrap_items_eq. eexists _, _. repeat split.
Qed.

Lemma starts_opens_value (c : N) (s rest : jsstring) :
  opens_value s -> c = 93 \/ c = 125 ->
  starts c (json_skip_ws (s ++ rest)) = None.
Proof.
  intros (x & tl & -> & Hws & H93 & H125) Hc.
  rewrite <- app_comm_cons, json_skip_ws_stop by exact Hws. simpl.
  destruct Hc; subst c; [rewrite H93|rewrite H125]; reflexivity.
Qed.

Lemma join_opens (sep : jsstring) (p : jsstring) (parts : list jsstring) :
  opens_value p -> opens_value (join sep (p :: parts)).
Proof.
  intros (x & tl & -> & H). destruct parts as [|q parts].
  - exists x, tl. auto.
  - rewrite join_cons by discriminate. exists x, (tl ++ sep ++ join sep (q :: parts)).
    auto.
Qed.

Lemma parse_elements_S (f : nat) (s : jsstring) :
  parse_elements (S f) s
  = pbind (parse_value f s) (fun v rest =>
      match starts 44 (json_skip_ws rest), starts 93 (json_skip_ws rest) with
      | Some r, _ => pbind (parse_elements f r) (fun vs rest' => POk (v :: vs) rest')
      | None, Some r => POk [v] r
      | None, None => PError
      end).
Proof. reflexivity. Qed.

Lemma parse_members_S (f : nat) (s : jsstring) :
  parse_members (S f) s
  = match starts QUOTE (json_skip_ws s) with
    | Some r0 =>
        pbind (of_option (parse_string_body r0)) (fun key rest0 =>
          match starts 58 (json_skip_ws rest0) with
          | Some r1 =>
              pbind (parse_value f r1) (fun v rest =>
                match starts 44 (json_skip_ws rest),
                      starts 125 (json_skip_ws rest) with
                | Some r, _ => pbind (parse_members f r)
                                 (fun ms rest' => POk ((key, v) :: ms) rest')
                | None, Some r => POk [(key, v)] r
                | None, None => PError
                end)
          | None => PError
          end)
    | None => PError
    end.
Proof. reflexivity. Qed.

Ltac len :=
  repeat (progress (rewrite ?length_app in *; cbn [length] in *)).

Lemma starts_same (c : N) (r : jsstring) : starts c (c :: r) = Some r.
Proof. simpl. rewrite N.eqb_refl. reflexivity. Qed.

Lemma starts_other (c x : N) (r : jsstring) :
  (x =? c) = false -> starts c (x :: r) = None.
Proof. simpl. intros ->. reflexivity. Qed.

Lemma parse_elements_join (gap indent pre post : jsstring) (items : list json)
    (rest : jsstring) :
  items <> [] -> Forall reads_back items ->
  all_ws gap -> all_ws indent -> all_ws pre -> all_ws post ->
  forall fuel,
    (length (pre ++ join (44%N :: pre) (List.map (serialize gap indent) items)
               ++ post ++ [93%N]) < fuel)%nat ->
    parse_elements fuel
      (pre ++ join (44 :: pre) (List.map (serialize gap indent) items)
         ++ post ++ 93 :: rest)
    = POk items rest.
Proof.
  intros Hne Hall Hg Hi Hpre Hpost.
  induction items as [|x xs IH]; [contradiction|].
  apply Forall_cons_iff in Hall as [Hx Hxs].
  intros fuel Hf. destruct fuel as [|f]; [lia|].
  rewrite parse_elements_S, parse_value_skip by exact Hpre.
  destruct xs as [|y ys].
  - simpl List.map in *. simpl join in *.
    rewrite (Hx gap indent (post ++ 93 :: rest) f Hg Hi) by (len; lia).
    cbn [pbind]. rewrite json_skip_ws_app by exact Hpost.
    rewrite json_skip_ws_stop by reflexivity.
    rewrite starts_other by reflexivity. rewrite starts_same. reflexivity.
  - change (List.map (serialize gap indent) (x :: y :: ys))
      with (serialize gap indent x :: List.map (serialize gap indent) (y :: ys)) in *.
    rewrite join_cons in * by discriminate.
    rewrite <- !app_assoc in *. rewrite <- !app_comm_cons in *.
    rewrite (Hx gap indent _ f Hg Hi) by (len; lia).
    cbn [pbind]. rewrite json_skip_ws_stop by reflexivity.
    rewrite starts_same. rewrite IH; [reflexivity|discriminate|exact Hxs|].
    len. lia.
Qed.

Lemma member_text_eq (gap indent : jsstring) (kv : jsstring * json) :
  QuoteJSONString (fst kv)
    ++ (match gap with [] => [58] | _ => [58; 32] end)
    ++ serialize gap indent (snd kv)
  = member_text gap indent kv.
Proof. unfold member_text, colon_space. destruct gap; reflexivity. Qed.

Lemma all_ws_colon_space (gap : jsstring) : all_ws (colon_space gap).
Proof. destruct gap; reflexivity. Qed.

Lemma member_text_opens (gap indent : jsstring) (kv : jsstring * json) :
  opens_value (member_text gap indent kv).
Proof.
  unfold member_text, QuoteJSONString. rewrite <- app_comm_cons.
  eexists _, _. repeat split.
Qed.

Lemma parse_members_join (gap indent pre post : jsstring)
    (members : list (jsstring * json)) (rest : jsstring) :
  members <> [] -> Forall (fun kv => reads_back (snd kv)) members ->
  all_ws gap -> all_ws indent -> all_ws pre -> all_ws post ->
  forall fuel,
    (length (pre ++ join (44%N :: pre) (List.map (member_text gap indent) members)
               ++ post ++ [125%N]) < fuel)%nat ->
    parse_members fuel
      (pre ++ join (44 :: pre) (List.map (member_text gap indent) members)
         ++ post ++ 125 :: rest)
    = POk members rest.
Proof.
  intros Hne Hall Hg Hi Hpre Hpost.
  induction members as [|[k x] xs IH]; [contradiction|].
  apply Forall_cons_iff in Hall as [Hx Hxs]. simpl snd in Hx.
  intros fuel Hf. destruct fuel as [|f]; [lia|].
  rewrite parse_members_S, json_skip_ws_app by exact Hpre.
  assert (Hkey : forall tl,
            member_text gap indent (k, x) ++ tl
            = QUOTE :: quote_chars k
                ++ QUOTE :: 58 :: colon_space gap ++ serialize gap indent x ++ tl).
  { intros tl. unfold member_text, QuoteJSONString. simpl fst. simpl snd.
    rewrite <- !app_assoc. rewrite <- !app_comm_cons. rewrite <- !app_assoc.
    reflexivity. }
  assert (Hlen : (length (colon_space gap ++ serialize gap indent x)
                  < length (member_text gap indent (k, x)))%nat).
  { unfold member_text, QuoteJSONString. simpl fst. simpl snd. len. lia. }
  destruct xs as [|y ys].
  - simpl List.map in *. simpl join in *.
    rewrite Hkey. rewrite json_skip_ws_stop by reflexivity.
    rewrite starts_same, parse_quote_chars. cbn [of_option pbind].
    rewrite json_skip_ws_stop by reflexivity. rewrite starts_same.
    rewrite parse_value_skip by apply all_ws_colon_space.
    rewrite (Hx gap indent (post ++ 125 :: rest) f Hg Hi) by (len; lia).
    cbn [pbind]. rewrite json_skip_ws_app by exact Hpost.
    rewrite json_skip_ws_stop by reflexivity.
    rewrite starts_other by reflexivity. rewrite starts_same. reflexivity.
  - change (List.map (member_text gap indent) ((k, x) :: y :: ys))
      with (member_text gap indent (k, x)
              :: List.map (member_text gap indent) (y :: ys)) in *.
    rewrite join_cons in * by discriminate.
    rewrite <- !app_assoc in *. rewrite <- !app_comm_cons in *.
    rewrite Hkey. rewrite json_skip_ws_stop by reflexivity.
    rewrite starts_same, parse_quote_chars. cbn [of_option pbind].
    rewrite json_skip_ws_stop by reflexivity. rewrite starts_same.
    rewrite parse_value_skip by apply all_ws_colon_space.
    rewrite (Hx gap indent _ f Hg Hi) by (len; lia).
    cbn [pbind]. rewrite json_skip_ws_stop by reflexivity.
    rewrite starts_same. rewrite IH; [reflexivity|discriminate|exact Hxs|].
    len. lia.
Qed.

Lemma parse_value_array (f : nat) (r : jsstring) :
  parse_value (S f) (91 :: r)
  = match starts 93 (json_skip_ws r) with
    | Some r' => POk (JArray []) r'
    | None => pbind (parse_elements f r) (fun vs rest => POk (JArray vs) rest)
    end.
Proof. reflexivity. Qed.

Lemma parse_value_object (f : nat) (r : jsstring) :
  parse_value (S f) (123 :: r)
  = match starts 125 (json_skip_ws r) with
    | Some r' => POk (JObject []) r'
    | None => pbind (parse_members f r) (fun ms rest => POk (JObject ms) rest)
    end.
Proof. reflexivity. Qed.

Lemma parse_value_string (f : nat) (r : jsstring) :
  parse_value (S f) (QUOTE :: r)
  = pbind (of_option (parse_string_body r)) (fun str rest => POk (JString str) rest).
Proof. reflexivity. Qed.

Lemma serialize_members_eq (gap indent : jsstring)
    (members : list (jsstring * json)) :
  List.map (fun kv => QuoteJSONString (fst kv)
                        ++ (match gap with [] => [58] | _ => [58; 32] end)
                        ++ serialize gap indent (snd kv)) members
  = List.map (member_text gap indent) members.
Proof. apply map_ext. intros kv. apply member_text_eq. Qed.

(** The parser reads every serialised value without numbers back. *)
Lemma parse_serialize (v : json) : number_free v = true -> reads_back v.
Proof.
  induction v as [ |b|neg m e|s|items IH|members IH] using json_ind;
    intros Hnf gap indent rest fuel Hg Hi Hf;
    (destruct fuel as [|f]; [lia|]).
  - reflexivity.
  - destruct b; reflexivity.
  - discriminate.
  - cbn [serialize]. unfold QuoteJSONString.
    rewrite <- app_comm_cons, <- app_assoc. rewrite parse_value_string.
    cbn [app]. rewrite parse_quote_chars. reflexivity.
  - cbn [serialize number_free] in *. destruct items as [|x xs]; [reflexivity|].
    cbn [List.map] in *. rewrite wrap_items_eq in *.
    rewrite <- app_comm_cons, parse_value_array.
    assert (Hlead : all_ws (lead gap indent)) by (apply all_ws_lead; assumption).
    assert (Hall : Forall reads_back (x :: xs)).
    { apply Forall_forall. intros y Hy. rewrite Forall_forall in IH.
      apply IH; [exact Hy|]. rewrite forallb_forall in Hnf.
      apply Hnf, list_elem_of_In, Hy. }
    rewrite <- !app_assoc.
    rewrite json_skip_ws_app by exact Hlead.
    rewrite starts_opens_value.
    + change (join (44 :: lead gap indent)
                   (serialize gap (indent ++ gap) x
                      :: List.map (serialize gap (indent ++ gap)) xs))
        with (join (44 :: lead gap indent)
                   (List.map (serialize gap (indent ++ gap)) (x :: xs))).
      cbn [app]. rewrite parse_elements_join; try assumption.
      * reflexivity.
      * discriminate.
      * apply all_ws_app; assumption.
      * apply all_ws_trail, Hi.
      * cbn [List.map]. len. lia.
    + apply join_opens, serialize_opens.
      cbn [forallb] in Hnf. apply andb_prop in Hnf as [Hnf _]. exact Hnf.
    + left. reflexivity.
  - cbn [serialize number_free] in *. rewrite serialize_members_eq in *.
    destruct members as [|x xs]; [reflexivity|].
    cbn [List.map] in *. rewrite wrap_items_eq in *.
    rewrite <- app_comm_cons, parse_value_object.
    assert (Hlead : all_ws (lead gap indent)) by (apply all_ws_lead; assumption).
    assert (Hall : Forall (fun kv => reads_back (snd kv)) (x :: xs)).
    { apply Forall_forall. intros y Hy. rewrite Forall_forall in IH.
      apply IH; [exact Hy|]. rewrite forallb_forall in Hnf.
      apply Hnf, list_elem_of_In, Hy. }
    rewrite <- !app_assoc.
    rewrite json_skip_ws_app by exact Hlead.
    rewrite starts_opens_value.
    + change (join (44 :: lead gap indent)
                   (member_text gap (indent ++ gap) x
                      :: List.map (member_text gap (indent ++ gap)) xs))
        with (join (44 :: lead gap indent)
                   (List.map (member_text gap (indent ++ gap)) (x :: xs))).
      cbn [app]. rewrite parse_members_join; try assumption.
      * reflexivity.
      * discriminate.
      * apply all_ws_app; assumption.
      * apply all_ws_trail, Hi.
      * cbn [List.map]. len. lia.
    + apply join_opens, member_text_opens.
    + right. reflexivity.
Qed.

(** [JSON.parse] is a left inverse of [JSON.stringify], with and without
    indentation, on values without numbers. *)
Theorem JSON_parse_stringify (v : json) :
  number_free v = true ->
  JSON_parse (JSON_stringify v) = Some v
  /\ JSON_parse (JSON_stringify_2 v) = Some v.
Proof.
  intros Hnf. pose proof (parse_serialize v Hnf) as H.
  unfold JSON_parse, JSON_stringify, JSON_stringify_2. split.
  - specialize (H [] [] [] (2 * length (serialize [] [] v) + 2)%nat
                  all_ws_nil all_ws_nil ltac:(lia)).
    rewrite app_nil_r in H. rewrite H. reflexivity.
  - specialize (H [32; 32] [] [] (2 * length (serialize [32%N; 32%N] [] v) + 2)%nat
                  ltac:(reflexivity) all_ws_nil ltac:(lia)).
    rewrite app_nil_r in H. rewrite H. reflexivity.
Qed.

(** ** Serialising rows and counting them back *)

Lemma line_feeds_app (a b : jsstring) :
  line_feeds (a ++ b) = (line_feeds a + line_feeds b)%nat.
Proof. unfold line_feeds. rewrite List.filter_app. apply length_app. Qed.

Lemma line_feeds_cons (c : N) (s : jsstring) :
  line_feeds (c :: s) = ((if (LF =? c)%N then 1 else 0) + line_feeds s)%nat.
Proof.
  unfold line_feeds. cbn [List.filter]. destruct (LF =? c); reflexivity.
Qed.

Lemma split_length (s : jsstring) :
  length (split LF s) = S (line_feeds s).
Proof.
  induction s as [|c r IH]; [reflexivity|].
  rewrite line_feeds_cons. cbn [split]. rewrite (N.eqb_sym c LF).
  destruct (LF =? c); cbn [length].
  - rewrite IH. reflexivity.
  - destruct (split LF r) as [|h t] eqn:E; [destruct (split_not_nil _ _ E)|].
    cbn [length] in *. exact IH.
Qed.

Lemma line_feeds_join (l : jsstring) (ls : list jsstring) :
  line_feeds (join [LF] (l :: ls))
  = (length ls + list_sum (List.map line_feeds (l :: ls)))%nat.
Proof.
  revert l. induction ls as [|l' ls IH]; intros l.
  - simpl. lia.
  - rewrite join_cons by discriminate. rewrite !line_feeds_app, IH.
    simpl. lia.
Qed.

Lemma line_feeds_replace_quotes (s : jsstring) :
  line_feeds (replace_quotes s) = line_feeds s.
Proof.
  induction s as [|c r IH]; [reflexivity|]. cbn [replace_quotes].
  destruct (c =? QUOTE) eqn:E.
  - apply N.eqb_eq in E. subst c. rewrite !line_feeds_cons, IH. reflexivity.
  - rewrite !line_feeds_cons, IH. reflexivity.
Qed.

Lemma line_feeds_csv_row (r : CSVRow) :
  line_feeds (csv_row r) = row_line_feeds r.
Proof.
  unfold csv_row, csv_quoted, row_line_feeds.
  repeat (rewrite ?line_feeds_app, ?line_feeds_cons, ?line_feeds_replace_quotes).
  change (line_feeds []) with 0%nat. change (line_feeds (js ",")) with 0%nat.
  change (LF =? QUOTE) with false. cbv iota. lia.
Qed.

Lemma trim_last_fixed (l : jsstring) (ls : list jsstring) :
  Forall (fun x => trimEnd x = x) (l :: ls) -> trim_last l ls = l :: ls.
Proof.
  revert l. induction ls as [|l' ls IH]; intros l H.
  - apply Forall_cons_iff in H as [H _]. simpl. rewrite H. reflexivity.
  - apply Forall_cons_iff in H as [_ H]. simpl. rewrite (IH l' H). reflexivity.
Qed.

Lemma trimEnd_csv_row (r : CSVRow) : trimEnd (csv_row r) = csv_row r.
Proof.
  assert (E : csv_row r
              = (csv_quoted (instruction r) ++ js "," ++ csv_quoted (input r)
                   ++ js "," ++ QUOTE :: replace_quotes (output r)) ++ [QUOTE]).
  { unfold csv_row. unfold csv_quoted at 3.
    rewrite <- !app_assoc, <- app_comm_cons. reflexivity. }
  rewrite E. rewrite trimEnd_app by reflexivity. reflexivity.
Qed.

Lemma nonblank_csv_row (r : CSVRow) : nonblank (csv_row r) = true.
Proof. reflexivity. Qed.

(** The CSV text of the rows is its own trimmed text. *)
Lemma trim_csv (rows : list CSVRow) :
  trim (join [LF] (csv_header :: List.map csv_row rows))
  = join [LF] (csv_header :: List.map csv_row rows).
Proof.
  rewrite <- (app_nil_r (join [LF] (csv_header :: List.map csv_row rows))) at 1.
  assert (Hall : forallb nonblank (csv_header :: List.map csv_row rows) = true).
  { simpl. apply forallb_forall. intros x Hx. apply in_map_iff in Hx.
    destruct Hx as (r & <- & _). apply nonblank_csv_row. }
  apply last_line_nonblank in Hall as [Hh Hlast].
  rewrite trim_join by (assumption || reflexivity).
  unfold trimmed_lines. change (trimStart csv_header) with csv_header.
  rewrite trim_last_fixed; [reflexivity|].
  constructor; [reflexivity|].
  apply Forall_forall. intros x Hx. apply list_elem_of_In, in_map_iff in Hx.
  destruct Hx as (r & <- & _). apply trimEnd_csv_row.
Qed.

(** The count of the CSV text of the rows: a line for each row and one more
    for each line feed inside a field. *)
Lemma sample_count_csv_rows (rows : list CSVRow) :
  sample_count (Some (js "csv")) (convertRowsToFormat rows csv_format)
  = Z.of_nat (length rows + rows_line_feeds rows).
Proof.
  rewrite sample_count_csv. cbn [convertRowsToFormat].
  change (js "instruction,input,output") with csv_header.
  rewrite trim_csv, split_length, line_feeds_join.
  rewrite List.length_map. cbn [List.map list_sum].
  change (line_feeds csv_header) with 0%nat.
  rewrite map_map. unfold rows_line_feeds.
  rewrite (map_ext _ row_line_feeds) by apply line_feeds_csv_row.
  unfold list_sum. cbn [fold_right]. lia.
Qed.

Lemma no_lf_cons (c : N) (s : jsstring) :
  no_lf (c :: s) = negb (c =? LF) && no_lf s.
Proof. reflexivity. Qed.

Lemma hex_digit_no_lf (d : N) : (hex_digit d =? LF) = false.
Proof.
  unfold hex_digit, LF. destruct (d <? 10); apply N.eqb_neq; lia.
Qed.

Lemma no_lf_unicode_escape (c : N) : no_lf (unicode_escape c) = true.
Proof.
  unfold unicode_escape. rewrite !no_lf_cons, !hex_digit_no_lf. reflexivity.
Qed.

(** A quoted string has no line feed: [JSON.stringify] escapes it. *)
Lemma no_lf_quote_chars (s : jsstring) : no_lf (quote_chars s) = true.
Proof.
  remember (length s) as n eqn:Hn. revert s Hn.
  induction n as [n IH] using lt_wf_ind. intros s Hn.
  destruct s as [|c r]; [reflexivity|].
  assert (IHr : no_lf (quote_chars r) = true).
  { apply (IH (length r)); [subst; simpl; lia|reflexivity]. }
  cbn [quote_chars].
  repeat match goal with
         | |- no_lf (if ?c =? ?k then _ else _) = true =>
             let E := fresh "E" in
             destruct (c =? k) eqn:E;
               [rewrite !no_lf_cons, IHr; reflexivity|]
         end.
  destruct (c <? 32).
  { rewrite no_lf_app, no_lf_unicode_escape, IHr. reflexivity. }
  destruct (is_high_surrogate c) eqn:Eh.
  { destruct r as [|d r'].
    - apply no_lf_unicode_escape.
    - destruct (is_low_surrogate d) eqn:El.
      + rewrite !no_lf_cons. change (c =? LF) with (c =? 10). rewrite E1.
        destruct (surrogate_range d (or_intror El)) as (D1 & _).
        replace (d =? LF) with false by (symmetry; apply N.eqb_neq; unfold LF; lia).
        apply (IH (length r')); [subst; simpl; lia|reflexivity].
      + rewrite no_lf_app, no_lf_unicode_escape, IHr. reflexivity. }
  destruct (is_low_surrogate c).
  { rewrite no_lf_app, no_lf_unicode_escape, IHr. reflexivity. }
  rewrite no_lf_cons. change (c =? LF) with (c =? 10). rewrite E1. exact IHr.
Qed.

Lemma no_lf_QuoteJSONString (s : jsstring) : no_lf (QuoteJSONString s) = true.
Proof.
  unfold QuoteJSONString. rewrite no_lf_cons, no_lf_app, no_lf_quote_chars.
  reflexivity.
Qed.

(** A row serialised for a JSONL line: one line, and not blank. *)
Lemma no_lf_row_line (r : CSVRow) : no_lf (JSON_stringify (row_json r)) = true.
Proof.
  unfold JSON_stringify, row_json. cbn [serialize List.map fst snd wrap_items join].
  repeat (rewrite ?no_lf_cons, ?no_lf_app, ?no_lf_QuoteJSONString).
  reflexivity.
Qed.

Lemma nonblank_row_line (r : CSVRow) : nonblank (JSON_stringify (row_json r)) = true.
Proof. reflexivity. Qed.

Lemma filter_all {A} (f : A -> bool) (l : list A) :
  forallb f l = true -> List.filter f l = l.
Proof.
  induction l as [|x l IH]; simpl; [reflexivity|].
  intros H. apply andb_prop in H as [Hx Hl]. rewrite Hx, (IH Hl). reflexivity.
Qed.

Lemma forallb_map_true {A B} (f : B -> bool) (g : A -> B) (l : list A) :
  (forall x, f (g x) = true) -> forallb f (List.map g l) = true.
Proof.
  intros H. induction l as [|x l IH]; simpl; [reflexivity|].
  rewrite H, IH. reflexivity.
Qed.

(** The count of the JSONL text of the rows. *)
Lemma sample_count_jsonl_rows (rows : list CSVRow) :
  sample_count (Some (js "jsonl")) (convertRowsToFormat rows jsonl_format)
  = Z.of_nat (length rows).
Proof.
  rewrite sample_count_jsonl, filter_trim_nonblank. cbn [convertRowsToFormat].
  destruct rows as [|r rows]; [reflexivity|].
  cbn [List.map].
  assert (Hall : forallb nonblank
                   (List.map (fun row => JSON_stringify (row_json row)) (r :: rows))
                 = true)
    by (apply forallb_map_true, nonblank_row_line).
  cbn [List.map] in Hall.
  destruct (last_line_nonblank _ _ Hall) as [Hh Hlast].
  rewrite <- (app_nil_r (join _ _)).
  rewrite split_trim_join; try assumption.
  - rewrite filter_all.
    + rewrite trimmed_lines_length, List.length_map. reflexivity.
    + apply trimmed_lines_nonblank, Hall.
  - apply (forallb_map_true no_lf
             (fun row => JSON_stringify (row_json row)) (r :: rows)).
    apply no_lf_row_line.
Qed.

Lemma number_free_rows (rows : list CSVRow) :
  number_free (JArray (List.map row_json rows)) = true.
Proof. cbn [number_free]. apply forallb_map_true. reflexivity. Qed.

(** The count of the JSON text of the rows. *)
Lemma sample_count_json_rows (rows : list CSVRow) :
  sample_count (Some (js "json")) (convertRowsToFormat rows json_format)
  = Z.of_nat (length rows).
Proof.
  rewrite sample_count_json. cbn [convertRowsToFormat].
  destruct (JSON_parse_stringify _ (number_free_rows rows)) as [_ ->].
  rewrite List.length_map. reflexivity.
Qed.

Lemma begins_get_page_bind {P B} (k : P -> M P B) (w : World P)
    (evs : list event) :
  begins (k (page w)) w evs -> begins (get_page ≫= k) w evs.
Proof. intros H. exact H. Qed.

(** C2, amended: the data set a save in create mode posts has the number of
    rows as [samples] and the text of [convertRowsToFormat] as [content];
    and [parseFileForSampleCount], on a file of the format's extension with
    that text, resolves to the number of rows for [json] and [jsonl],
    whatever the fields hold, and for [csv] to the number of rows plus the
    number of line feeds inside the fields: to the number of rows exactly
    when no field holds a line feed. *)
Theorem convert_then_count (rows : list CSVRow) (format : DatasetFormat)
    (file : File) :
  file_ext (file_name file) = Some (format_name format) ->
  file_text file = Some (convertRowsToFormat rows format) ->
  parseFileForSampleCount file
  = Resolved (Z.of_nat (length rows
                        + match format with
                          | csv_format => rows_line_feeds rows
                          | _ => 0
                          end))
  /\ (format <> csv_format \/ rows_line_feeds rows = 0%nat ->
      parseFileForSampleCount file = Resolved (Z.of_nat (length rows)))
  /\ forall w0 : World DatasetsPage,
       modalMode (page w0) = create_mode ->
       is_empty (datasetName (page w0)) = false ->
       let newDataset := created_dataset (page w0) in
       samples newDataset = Z.of_nat (length (csvRows (page w0)))
       /\ content newDataset
          = Some (convertRowsToFormat (csvRows (page w0)) (selectedFormat (page w0)))
       /\ begins handleSaveDataset w0 [EvFetch (dataset_request newDataset)].
Proof.
  intros Hext Htext.
  assert (Hp : parseFileForSampleCount file
               = Resolved (Z.of_nat (length rows
                                     + match format with
                                       | csv_format => rows_line_feeds rows
                                       | _ => 0
                                       end))).
  { unfold parseFileForSampleCount. rewrite Htext, Hext. f_equal.
    destruct format; cbn [format_name].
    - rewrite sample_count_json_rows. f_equal. lia.
    - rewrite sample_count_jsonl_rows. f_equal. lia.
    - apply sample_count_csv_rows. }
  split; [exact Hp|]. split.
  - intros H. rewrite Hp. f_equal. f_equal.
    destruct format; try lia. destruct H as [H|H]; [congruence|lia].
  - intros w0 Hmode Hname newDataset. repeat split.
    unfold handleSaveDataset. apply begins_try_catch; [|intros e; grows_tac].
    apply begins_get_page_bind. rewrite Hmode, Hname.
    apply post_dataset_begins.
Qed.

(** ** [fetchWithRetry] *)

(** What a run of the loop ends in, in terms of the outcomes of the calls of
    [fetch] it makes: the response of the first call that resolves, all
    calls before it having thrown; the failure after as many throwing
    calls as there were iterations to run; or a wait without end at the
    first call that never settles, all calls before it having thrown. *)
Lemma retry_loop_result {P} (req : request) (retry : nat) (delay : N) :
  forall (todo attempt : nat) (lastError : option exn) (w : World P),
    let r := retry_loop req retry delay todo attempt lastError w in
    match snd r with
    | Ret response =>
        exists k, (k < todo)%nat /\ calls (fst r) = (calls w + S k)%nat
                  /\ net env (calls w + k) req = Resolves response
                  /\ forall i, (i < k)%nat ->
                       exists e, net env (calls w + i) req = Rejects e
    | Throw ex =>
        calls (fst r) = (calls w + todo)%nat
        /\ (forall i, (i < todo)%nat ->
              exists e, net env (calls w + i) req = Rejects e)
        /\ exists le, ex = retry_failure retry le
             /\ match todo with
                | O => le = lastError
                | S t => exists e, net env (calls w + t) req = Rejects e
                                   /\ le = Some e
                end
    | Hang =>
        exists k, (k < todo)%nat /\ calls (fst r) = (calls w + S k)%nat
                  /\ net env (calls w + k) req = NeverSettles
                  /\ forall i, (i < k)%nat ->
                       exists e, net env (calls w + i) req = Rejects e
    | OutOfModel => False
    end.
Proof.
  induction todo as [|t IH]; intros attempt lastError w; cbn zeta.
  - simpl. split; [lia|]. split; [intros i Hi; lia|].
    exists lastError. split; reflexivity.
  - cbn [retry_loop]. unfold try_catch, fetch.
    destruct (net env (calls w) req) as [response|e| ] eqn:E.
    + simpl. exists 0%nat. rewrite Nat.add_0_r.
      split; [lia|]. split; [lia|]. split; [exact E|]. intros i Hi. lia.
    + set (w1 := mk_world (page w) (trace w ++ [EvFetch req]) (S (calls w))).
      assert (Hk : exists w2, calls w2 = S (calls w) /\
                 (((if (attempt <? retry)%nat then emit (EvSleep delay) else mret tt);;
                   retry_loop req retry delay t (S attempt) (Some e)) w1
                  = retry_loop req retry delay t (S attempt) (Some e) w2)).
      { destruct (attempt <? retry)%nat.
        - exists (mk_world (page w1) (trace w1 ++ [EvSleep delay]) (calls w1)).
          split; reflexivity.
        - exists w1. split; reflexivity. }
      destruct Hk as (w2 & Hc & ->).
      specialize (IH (S attempt) (Some e) w2). cbn zeta in IH.
      destruct (snd (retry_loop req retry delay t (S attempt) (Some e) w2))
        as [response|ex| |]; try contradiction.
      * destruct IH as (k & Hk & Hcalls & Hres & Hrej).
        exists (S k). rewrite Hc in *.
        split; [lia|]. split; [lia|]. split.
        -- rewrite <- Hres. f_equal. lia.
        -- intros i Hi. destruct i as [|i].
           ++ exists e. rewrite Nat.add_0_r. exact E.
           ++ destruct (Hrej i ltac:(lia)) as [e' He']. exists e'.
              rewrite <- He'. f_equal. lia.
      * destruct IH as (Hcalls & Hrej & le & Hex & Hle).
        rewrite Hc in *. split; [lia|]. split.
        -- intros i Hi. destruct i as [|i].
           ++ exists e. rewrite Nat.add_0_r. exact E.
           ++ destruct (Hrej i ltac:(lia)) as [e' He']. exists e'.
              rewrite <- He'. f_equal. lia.
        -- exists le. split; [exact Hex|]. destruct t as [|t'].
           ++ exists e. rewrite Nat.add_0_r. split; [exact E|exact Hle].
           ++ destruct Hle as (e' & He' & Hle). exists e'. split; [|exact Hle].
              rewrite <- He'. f_equal. lia.
      * destruct IH as (k & Hk & Hcalls & Hres & Hrej).
        exists (S k). rewrite Hc in *.
        split; [lia|]. split; [lia|]. split.
        -- rewrite <- Hres. f_equal. lia.
        -- intros i Hi. destruct i as [|i].
           ++ exists e. rewrite Nat.add_0_r. exact E.
           ++ destruct (Hrej i ltac:(lia)) as [e' He']. exists e'.
              rewrite <- He'. f_equal. lia.
    + simpl. exists 0%nat. rewrite Nat.add_0_r.
      split; [lia|]. split; [lia|]. split; [exact E|]. intros i Hi. lia.
Qed.


(** ** [apiRequest] *)


Lemma apiRequest_unfold {P} (endpoint : jsstring) (options : RequestOptions) :
  apiRequest (P := P) endpoint options
  = (response ← fetchWithRetry (request_url endpoint options)
                  (request_options options);
     if negb (ok response) then
       errorData ← read_errorData response;
       message ← to_string
                   (js_or (get_prop_opt (Some errorData) (js "detail"))
                      (js_or (get_prop_opt (Some errorData) (js "message"))
                         (Some (JString (http_message response)))));
       throw (ApiError message (Some (status response)) (DataValue errorData))
     else
       try_catch (await_json response) (fun _ => ret (JObject []))).
Proof. reflexivity. Qed.

Lemma error_message_eq (errorData : json) (response : Response) :
  ToString (js_or (get_prop_opt (Some errorData) (js "detail"))
              (js_or (get_prop_opt (Some errorData) (js "message"))
                 (Some (JString (http_message response)))))
  = error_message errorData response.
Proof.
  unfold error_message, js_or.
  destruct (truthy (get_prop_opt (Some errorData) (js "detail"))); [reflexivity|].
  destruct (truthy (get_prop_opt (Some errorData) (js "message"))); reflexivity.
Qed.

(** What [apiRequest] throws for an error body that was read. *)
Lemma apiRequest_throws {P} (errorData : json) (response : Response)
    (w : World P) :
  (message ← to_string
               (js_or (get_prop_opt (Some errorData) (js "detail"))
                  (js_or (get_prop_opt (Some errorData) (js "message"))
                     (Some (JString (http_message response)))));
   throw (ApiError message (Some (status response)) (DataValue errorData))) w
  = (w, Throw (match error_message errorData response with
               | Some message =>
                   ApiError message (Some (status response)) (DataValue errorData)
               | None => to_primitive_error
               end) : outcome json).
Proof.
  unfold to_string, mbind, M_bind, bind. rewrite error_message_eq.
  destruct (error_message errorData response); reflexivity.
Qed.


(** A response that is not OK and whose body is text that is no JSON: the
    second read of the body throws, and [apiRequest] throws that TypeError,
    no [ApiError]. *)
Lemma apiRequest_text_body {P} (endpoint : jsstring) (options : RequestOptions)
    (w w1 : World P) (response : Response) (text : jsstring) :
  fetchWithRetry (request_url endpoint options) (request_options options) w
  = (w1, Ret response) ->
  ok response = false -> bodyUsed response = false ->
  body response = Some text -> JSON_parse text = None ->
  apiRequest endpoint options w = (w1, Throw body_used_error).
Proof.
  intros Hfetch Hok Hused Hbody Hparse. rewrite apiRequest_unfold.
  unfold mbind, M_bind, bind. rewrite Hfetch, Hok. cbn [negb].
  destruct response as [st stt bd used]. cbn [body bodyUsed] in *. subst bd used.
  unfold read_errorData, Response_json, Response_text, consume.
  cbn [body bodyUsed status statusText]. rewrite Hparse. reflexivity.
Qed.

(** ** The jobs list: Retry and Download *)

Lemma emits_setLoading (Q : event -> Prop) (b : bool) : emits Q (setLoading b).
Proof. apply emits_set_page. Qed.

Lemma emits_setJobs (Q : event -> Prop) (v : jsval) : emits Q (setJobs v).
Proof. apply emits_set_page. Qed.

#[local] Hint Resolve emits_setLoading emits_setJobs : emits.

Lemma emits_fetchJobs (Q : event -> Prop) :
  Q (EvFetch jobs_list_request) -> (forall l, Q (EvConsoleError l)) ->
  emits Q fetchJobs.
Proof.
  intros Hf He. unfold fetchJobs, setLoading, setJobs, console_error.
  emits_tac; auto.
Qed.

Lemma emits_alert_detail {P} (Q : event -> Prop) (prefix : string)
    (response : Response) :
  (forall t, Q (EvAlert t)) -> emits Q (alert_detail (P := P) prefix response).
Proof. intros H. unfold alert_detail, alert. emits_tac; auto. Qed.

Lemma retry_spares_job (job : FineTuningJob) (req : request) :
  req = retry_request job \/ req = jobs_list_request -> ~ mutates_job job req.
Proof.
  intros [-> | ->] [Hm (suffix & Hu)].
  - unfold retry_request, job_url in Hu. cbn [req_url] in Hu.
    rewrite <- !app_assoc in Hu. apply app_inv_head in Hu.
    cbv in Hu. discriminate Hu.
  - apply Hm. reflexivity.
Qed.

(** C3: Retry, once confirmed, posts a creation request to the jobs
    collection whose body is the JSON object of exactly the job's name with
    the suffix, its model and its dataset; every request of a retry is that
    one or the reload of the list, so none changes the original job; a retry
    that is not confirmed sends nothing; and the menu has Retry exactly for
    a failed job. *)
Theorem handleRetry_creates_new_job (job : FineTuningJob) (w : World HomePage) :
  (confirm_answer env retry_question = true ->
   begins (handleRetry job) w
          [EvConfirm retry_question; EvFetch (retry_request job)])
  /\ (confirm_answer env retry_question = false ->
      handleRetry job w
      = (mk_world (page w) (trace w ++ [EvConfirm retry_question]) (calls w), Ret tt))
  /\ (req_url (retry_request job) = API_URL env ++ js "/jobs"
      /\ method_of (retry_request job) = js "POST"
      /\ exists text,
           req_body (retry_request job) = Some text
           /\ JSON_parse text
              = Some (JObject [(js "name", JString (job_name job ++ js " (Retry)"));
                               (js "model", JString (job_model job));
                               (js "dataset", JString (job_dataset job))]))
  /\ emits (retry_event job) (handleRetry job)
  /\ (forall req, retry_event job (EvFetch req) -> ~ mutates_job job req)
  /\ (forall s, In Retry (menu s) <-> s = failed).
Proof.
  repeat split.
  - intros Hc. unfold handleRetry, confirm. fold retry_question.
    unfold begins, mbind, M_bind, bind, emit at 1. cbn [fst snd].
    unfold mret, M_ret, ret at 1. rewrite Hc. cbn [negb].
    match goal with
    | |- context [try_catch ?m ?h ?w'] =>
        destruct (begins_try_catch m h w' [EvFetch (retry_request job)]) as [tr E]
    end.
    + apply begins_fetch_bind. intros r.
      destruct (ok r).
      * eapply emits_grows. apply emits_mbind.
        -- apply (emits_fetchJobs (fun _ => True)); auto.
        -- intros _. apply emits_emit. exact I.
      * eapply emits_grows. apply (emits_alert_detail (fun _ => True)). auto.
    + intros e. unfold console_error, alert. grows_tac.
    + exists tr. rewrite E. cbn [trace]. rewrite <- !app_assoc. reflexivity.
  - intros Hc. unfold handleRetry, confirm. fold retry_question.
    unfold mbind, M_bind, bind, emit, mret, M_ret, ret. rewrite Hc. reflexivity.
  - eexists. split; [reflexivity|].
    apply (proj1 (JSON_parse_stringify (newJobData job) eq_refl)).
  - unfold handleRetry, confirm, console_error, alert.
    emits_tac; try exact I; try (left; reflexivity); try (right; reflexivity).
  - intros req Hreq. apply retry_spares_job, Hreq.
  - destruct s; simpl; intuition discriminate.
  - intros ->. simpl. auto.
Qed.

Lemma Number_toString_integer (n : N) :
  n <= 2 ^ 53 -> Number_toString false n 0 = decimal n.
Proof.
  intros H. unfold Number_toString. cbn [Z.leb Z.compare Z.to_N andb].
  change (10 ^ 0) with 1. rewrite N.mul_1_r.
  apply N.leb_le in H. rewrite H. reflexivity.
Qed.



(** ** Polling *)

Lemma clearInterval_single {C} (id : nat) (period : N) (c : C) (next : nat) :
  active (clearInterval id (mk_timers [mk_timer id period c] next)) = [].
Proof. unfold clearInterval. simpl. rewrite Nat.eqb_refl. reflexivity. Qed.

Lemma polling_inv_step (p : Polling) (i : poll_input) :
  polling_inv p -> polling_inv (poll_step p i).
Proof.
  unfold polling_inv. destruct p as [m t d e [act next] calls_].
  destruct i as [ |usable reported|id| ]; cbn [poll_step mounted].
  - destruct m; [auto|]. cbn. intros [-> ->]. cbn. eauto.
  - destruct usable; [|auto]. destruct m; [|auto].
    cbn. intros (id & -> & -> & ->). unfold commit. cbn.
    destruct (Bool.eqb t (is_running_value reported)) eqn:E.
    + apply Bool.eqb_prop in E. subst t. cbn. eauto.
    + cbn. rewrite Nat.eqb_refl. cbn. eauto.
  - cbn [page_timers]. destruct (find_timer id (mk_timers act next)); cbn; auto.
  - cbn. destruct m.
    + intros (id & -> & -> & ->). cbn. rewrite Nat.eqb_refl. cbn. auto.
    + intros [-> ->]. cbn. auto.
Qed.

Lemma polling_inv_run (inputs : list poll_input) (p : Polling) :
  polling_inv p -> polling_inv (poll_run p inputs).
Proof.
  revert p. induction inputs as [|i inputs IH]; intros p H; [exact H|].
  apply IH, polling_inv_step, H.
Qed.

Lemma polling_inv_init : polling_inv polling_init.
Proof. split; reflexivity. Qed.

Ltac hook_crush :=
  unfold hook_effect, hook_run_cleanup, clearInterval, setInterval; cbn;
  rewrite ?Nat.eqb_refl; cbn; eauto.

Lemma hook_inv_render (interval : option N) (enabled : option bool)
    (h : PollingHook) :
  hook_inv h -> hook_inv (useApiPolling interval enabled h).
Proof.
  unfold hook_inv, useApiPolling.
  destruct h as [ref deps cl [act next] ex]. cbn.
  destruct deps as [[e0 i0]|].
  - destruct (Bool.eqb e0 (enabled_arg enabled) && (i0 =? interval_arg interval)) eqn:E.
    + auto.
    + destruct e0.
      * intros (id & -> & -> & ->). destruct (enabled_arg enabled); hook_crush.
      * intros [-> ->]. destruct (enabled_arg enabled), ref; hook_crush.
  - intros [-> ->]. destruct (enabled_arg enabled), ref; hook_crush.
Qed.

Lemma hook_inv_step (h : PollingHook) (i : hook_input) :
  hook_inv h -> hook_inv (hook_step h i).
Proof.
  destruct i as [interval enabled|id| ]; cbn [hook_step].
  - apply hook_inv_render.
  - unfold hook_inv. destruct (find_timer id (hook_timers h)); auto.
  - unfold hook_inv.
    destruct h as [ref deps cl [act next] ex]. cbn.
    destruct deps as [[[|] i0]|].
    + intros (id & -> & -> & ->). hook_crush.
    + intros [-> ->]. hook_crush.
    + intros [-> ->]. hook_crush.
Qed.

Lemma hook_inv_run (inputs : list hook_input) (h : PollingHook) :
  hook_inv h -> hook_inv (hook_run h inputs).
Proof.
  revert h. induction inputs as [|i inputs IH]; intros h H; [exact H|].
  apply IH, hook_inv_step, H.
Qed.

Lemma hook_inv_init : hook_inv hook_init.
Proof. split; reflexivity. Qed.

(** Ticks make no call when no interval is set. *)
Lemma hook_ticks_idle (ids : list nat) (h : PollingHook) :
  active (hook_timers h) = [] ->
  hook_run h (List.map HookTick ids) = h.
Proof.
  intros H. induction ids as [|id ids IH]; [reflexivity|].
  cbn [List.map hook_run fold_left hook_step]. unfold find_timer. rewrite H.
  cbn [List.find]. exact IH.
Qed.


(** ** [convertRowsToFormat] loses nothing *)

Lemma row_json_inj (r r' : CSVRow) : row_json r = row_json r' -> r = r'.
Proof.
  destruct r, r'. unfold row_json. cbn [instruction input output].
  intros H. inversion H. reflexivity.
Qed.

Lemma map_eq_inj {A B} (f : A -> B) (l l' : list A) :
  (forall x y, f x = f y -> x = y) -> List.map f l = List.map f l' -> l = l'.
Proof.
  intros Hf. revert l'. induction l as [|x l IH]; intros [|x' l'] H;
    try discriminate; [reflexivity|].
  cbn [List.map] in H.
  apply (f_equal (fun m => (List.head m, List.tl m))) in H.
  cbn [List.head List.tl] in H. apply pair_equal_spec in H as [H1 H2].
  inversion H1 as [H3]. rewrite (Hf _ _ H3), (IH _ H2). reflexivity.
Qed.

Lemma map_row_json_inj (rows rows' : list CSVRow) :
  List.map row_json rows = List.map row_json rows' -> rows = rows'.
Proof. apply map_eq_inj, row_json_inj. Qed.

(** The lines of the JSONL text are the serialised rows. *)
Lemma jsonl_lines (rows : list CSVRow) :
  rows <> [] ->
  split LF (convertRowsToFormat rows jsonl_format)
  = List.map (fun row => JSON_stringify (row_json row)) rows.
Proof.
  intros Hne. cbn [convertRowsToFormat].
  destruct rows as [|r rows]; [contradiction|].
  cbn [List.map]. apply split_join.
  apply (forallb_map_true no_lf
           (fun row => JSON_stringify (row_json row)) (r :: rows)).
  apply no_lf_row_line.
Qed.

Lemma jsonl_nonempty (rows : list CSVRow) :
  rows <> [] -> convertRowsToFormat rows jsonl_format <> [].
Proof.
  intros Hne E. destruct rows as [|r rows]; [contradiction|].
  cbn [convertRowsToFormat List.map] in E.
  assert (Hall : forallb nonblank
                   (List.map (fun row => JSON_stringify (row_json row)) (r :: rows))
                 = true)
    by (apply forallb_map_true, nonblank_row_line).
  cbn [List.map] in Hall.
  destruct (last_line_nonblank _ _ Hall) as [_ Hlast].
  pose proof (join_nonblank [LF] _ _ Hlast) as Hj.
  rewrite E in Hj. discriminate Hj.
Qed.

Lemma parse_row_line (row : CSVRow) :
  JSON_parse (JSON_stringify (row_json row)) = Some (row_json row).
Proof. apply (proj1 (JSON_parse_stringify (row_json row) eq_refl)). Qed.

Lemma jsonl_parsed_lines (rows : list CSVRow) :
  rows <> [] ->
  List.map JSON_parse (split LF (convertRowsToFormat rows jsonl_format))
  = List.map (fun row => Some (row_json row)) rows.
Proof.
  intros Hne. rewrite jsonl_lines by exact Hne. rewrite map_map.
  apply map_ext. intros row. apply parse_row_line.
Qed.

(** X1: [JSON.parse] reads the rows back from the text of the [json]
    format, and from each line of the text of the [jsonl] format, whatever
    the fields hold; the [jsonl] text of no rows is the empty string. *)
Theorem convertRowsToFormat_reads_back (rows : list CSVRow) :
  JSON_parse (convertRowsToFormat rows json_format)
  = Some (JArray (List.map row_json rows))
  /\ (rows <> [] ->
      List.map JSON_parse (split LF (convertRowsToFormat rows jsonl_format))
      = List.map (fun row => Some (row_json row)) rows)
  /\ (convertRowsToFormat rows jsonl_format = [] <-> rows = []).
Proof.
  split; [|split].
  - cbn [convertRowsToFormat].
    apply (proj2 (JSON_parse_stringify _ (number_free_rows rows))).
  - apply jsonl_parsed_lines.
  - split.
    + intros E. destruct rows as [|r rows]; [reflexivity|].
      destruct (jsonl_nonempty (r :: rows) ltac:(discriminate) E).
    + intros ->. reflexivity.
Qed.

(** What follows a quoted field: nothing, or a character that is no quote. *)
Lemma csv_quoted_inj (f f' x x' : jsstring) :
  List.hd 0 x <> QUOTE -> List.hd 0 x' <> QUOTE ->
  replace_quotes f ++ QUOTE :: x = replace_quotes f' ++ QUOTE :: x' ->
  f = f' /\ x = x'.
Proof.
  intros Hx Hx'. revert f'. induction f as [|c f IH]; intros [|c' f'] H.
  - cbn in H. inversion H. auto.
  - cbn [replace_quotes app] in H. destruct (c' =? QUOTE) eqn:E.
    + cbn in H. inversion H as [H1]. subst x. cbn in Hx. contradiction.
    + cbn in H. inversion H as [[H1 H2]]. subst c'.
      rewrite N.eqb_refl in E. discriminate.
  - cbn [replace_quotes app] in H. destruct (c =? QUOTE) eqn:E.
    + cbn in H. inversion H as [H1]. subst x'. cbn in Hx'. contradiction.
    + cbn in H. inversion H as [[H1 H2]]. subst c.
      rewrite N.eqb_refl in E. discriminate.
  - cbn [replace_quotes] in H.
    destruct (c =? QUOTE) eqn:E, (c' =? QUOTE) eqn:E'.
    + apply N.eqb_eq in E, E'. subst c c'.
      cbn in H. inversion H as [H1]. destruct (IH _ H1) as [-> ->]. auto.
    + cbn in H. inversion H as [[H1 H2]]. apply N.eqb_eq in E. subst.
      rewrite N.eqb_refl in E'. discriminate.
    + cbn in H. inversion H as [[H1 H2]]. apply N.eqb_eq in E'. subst.
      rewrite N.eqb_refl in E. discriminate.
    + cbn in H. inversion H as [[H1 H2]]. destruct (IH _ H2) as [-> ->]. auto.
Qed.

(** The text behind the header: each row on a line of its own. *)
Lemma csv_text_rows (rows : list CSVRow) :
  convertRowsToFormat rows csv_format
  = csv_header ++ flat_map (fun r => LF :: csv_row r) rows.
Proof.
  cbn [convertRowsToFormat]. change (js "instruction,input,output") with csv_header.
  generalize csv_header as h. induction rows as [|r rows IH]; intros h.
  - cbn. rewrite app_nil_r. reflexivity.
  - cbn [List.map flat_map]. rewrite join_cons by discriminate.
    cbn [List.map] in IH. rewrite IH. reflexivity.
Qed.

Lemma csv_row_inj (r r' : CSVRow) (x x' : jsstring) :
  List.hd 0 x <> QUOTE -> List.hd 0 x' <> QUOTE ->
  csv_row r ++ x = csv_row r' ++ x' -> r = r' /\ x = x'.
Proof.
  intros Hx Hx'. destruct r as [a b c], r' as [a' b' c'].
  unfold csv_row, csv_quoted. cbn [instruction input output].
  change (js ",") with [44].
  repeat (rewrite <- ?app_assoc; cbn [app]).
  intros H. inversion H as [H1]. clear H.
  apply csv_quoted_inj in H1 as [-> H1]; [|cbn; discriminate|cbn; discriminate].
  inversion H1 as [H2]. clear H1.
  apply csv_quoted_inj in H2 as [-> H2]; [|cbn; discriminate|cbn; discriminate].
  inversion H2 as [H3]. clear H2.
  apply csv_quoted_inj in H3 as [-> H3]; [|assumption|assumption].
  auto.
Qed.

Lemma csv_lines_inj (rows rows' : list CSVRow) :
  flat_map (fun r => LF :: csv_row r) rows
  = flat_map (fun r => LF :: csv_row r) rows' ->
  rows = rows'.
Proof.
  revert rows'. induction rows as [|r rows IH]; intros [|r' rows'] H;
    try discriminate; [reflexivity|].
  cbn [flat_map] in H. rewrite <- !app_comm_cons in H.
  apply (f_equal (@List.tl N)) in H. cbn [List.tl] in H. rename H into H1.
  apply csv_row_inj in H1 as [-> H1].
  - rewrite (IH _ H1). reflexivity.
  - destruct rows; cbn; discriminate.
  - destruct rows'; cbn; discriminate.
Qed.

(** X2: in each of the three formats the text determines the rows: two
    lists of rows with the same text are the same list, whatever quotes,
    commas and line feeds the fields hold. *)
Theorem convertRowsToFormat_injective (format : DatasetFormat)
    (rows rows' : list CSVRow) :
  convertRowsToFormat rows format = convertRowsToFormat rows' format ->
  rows = rows'.
Proof.
  intros H. destruct format.
  - apply map_row_json_inj.
    pose proof (proj2 (JSON_parse_stringify _ (number_free_rows rows))) as P.
    pose proof (proj2 (JSON_parse_stringify _ (number_free_rows rows'))) as P'.
    cbn [convertRowsToFormat] in H. rewrite H, P' in P. congruence.
  - destruct rows as [|r rows], rows' as [|r' rows']; [reflexivity| | |].
    + symmetry in H.
      destruct (jsonl_nonempty (r' :: rows') ltac:(discriminate) H).
    + destruct (jsonl_nonempty (r :: rows) ltac:(discriminate) H).
    + pose proof (jsonl_parsed_lines (r :: rows) ltac:(discriminate)) as E.
      pose proof (jsonl_parsed_lines (r' :: rows') ltac:(discriminate)) as E'.
      rewrite H, E' in E.
      apply (map_eq_inj (fun row => Some (row_json row))); [|symmetry; exact E].
      intros x y Hxy. apply row_json_inj. congruence.
  - rewrite !csv_text_rows in H. apply app_inv_head in H.
    apply csv_lines_inj, H.
Qed.

(** ** [formatFileSize] *)

(** X3: a size below 1024 is printed in bytes, as it is; a size from 1024
    up to 1024 * 1024 - 1 in KB and a larger one in MB, each with two
    decimals: the multiple of a hundredth of the unit nearest to the size,
    the larger on a tie.  The KB figure lies between 1.00 and 1024.00, the
    MB figure is at least 1.00. *)
Theorem formatFileSize_shape (bytes : N) :
  (bytes < 1024 -> formatFileSize bytes = decimal bytes ++ js " B")
  /\ (1024 <= bytes -> bytes < 1024 * 1024 ->
      exists n, formatFileSize bytes = fixed2 n ++ js " KB"
                /\ 100 <= n <= 102400
                /\ 2048 * n <= 200 * bytes + 1024 < 2048 * (n + 1))
  /\ (1024 * 1024 <= bytes ->
      exists n, formatFileSize bytes = fixed2 n ++ js " MB"
                /\ 100 <= n
                /\ 2097152 * n <= 200 * bytes + 1048576 < 2097152 * (n + 1)).
Proof.
  unfold formatFileSize. split; [|split].
  - intros H. apply N.ltb_lt in H. rewrite H. reflexivity.
  - intros H1 H2. apply N.ltb_ge in H1. apply N.ltb_lt in H2. rewrite H1, H2.
    apply N.ltb_ge in H1. apply N.ltb_lt in H2.
    exists ((200 * bytes + 1024) / (2 * 1024)). split; [reflexivity|].
    change (2 * 1024) with 2048. change (1024 * 1024) with 1048576 in H2.
    zify. Z.to_euclidean_division_equations. lia.
  - intros H1.
    assert (H0 : (bytes <? 1024) = false) by (apply N.ltb_ge; lia).
    apply N.ltb_ge in H1. rewrite H0, H1. apply N.ltb_ge in H1.
    exists ((200 * bytes + 1024 * 1024) / (2 * (1024 * 1024))).
    split; [reflexivity|].
    change (1024 * 1024) with 1048576 in *. change (2 * 1048576) with 2097152.
    zify. Z.to_euclidean_division_equations. lia.
Qed.

(** ** The name and the format of an uploaded data set *)

(** Joining the parts with the separator gives the text back. *)
Lemma join_split (sep : N) (s : jsstring) : join [sep] (split sep s) = s.
Proof.
  induction s as [|c r IH]; [reflexivity|].
  cbn [split]. destruct (c =? sep) eqn:E.
  - apply N.eqb_eq in E. subst c.
    rewrite join_cons by apply split_not_nil. rewrite IH. reflexivity.
  - pose proof (split_not_nil sep r) as Hne.
    destruct (split sep r) as [|h t]; [contradiction|].
    destruct t as [|h' t].
    + cbn [join] in *. rewrite IH. reflexivity.
    + rewrite join_cons in * by discriminate.
      rewrite <- IH. reflexivity.
Qed.

Lemma is_empty_rev_parts {A} (l : list A) : is_empty (rev l) = is_empty l.
Proof.
  destruct l as [|x l]; simpl; [reflexivity|].
  destruct (rev l); reflexivity.
Qed.

Lemma toUpperCase_empty (s : jsstring) : is_empty (toUpperCase s) = is_empty s.
Proof. destruct s; reflexivity. Qed.

(** X4: for a file name with a dot and, behind the last dot, a non-empty
    run of characters without slash, the uploaded data set is named by what
    stands in front of that dot and its format is what stands behind it, in
    upper case; the same run, in lower case, is the extension the sample
    counter looks at.  A name without a dot is kept whole and is its own
    extension.  A name that ends in a dot is kept whole, its format is
    [UNKNOWN], and its samples count as 0. *)
Theorem upload_name_and_extension (file : File) (n : Z) :
  (forall stem ext,
     file_name file = stem ++ js "." ++ ext ->
     ext <> [] ->
     forallb (fun c => negb (c =? 46)) ext = true ->
     existsb (N.eqb 47) ext = false ->
     ds_name (uploaded_dataset file n) = stem
     /\ format (uploaded_dataset file n) = toUpperCase ext
     /\ file_ext (file_name file) = Some (toLowerCase ext))
  /\ (forallb (fun c => negb (c =? 46)) (file_name file) = true ->
      ds_name (uploaded_dataset file n) = file_name file
      /\ file_ext (file_name file) = Some (toLowerCase (file_name file)))
  /\ (forall stem,
        file_name file = stem ++ js "." ->
        ds_name (uploaded_dataset file n) = file_name file
        /\ format (uploaded_dataset file n) = js "UNKNOWN"
        /\ forall content, file_text file = Some content ->
             parseFileForSampleCount file = Resolved 0%Z).
Proof.
  change (js ".") with [46]. split; [|split].
  - intros stem ext Hname Hne Hdot Hslash.
    assert (Hs : split 46 (file_name file) = split 46 stem ++ [ext]).
    { rewrite Hname. cbn [app]. rewrite split_app_sep, (split_no_sep _ _ Hdot).
      reflexivity. }
    unfold uploaded_dataset, file_ext, strip_extension.
    cbn [ds_name format]. rewrite Hs, pop_app_last, rev_app_distr.
    change (rev [ext]) with [ext]. cbn [app option_map].
    rewrite is_empty_rev_parts, Hslash, toUpperCase_empty, rev_involutive.
    change (js ".") with [46]. rewrite join_split.
    pose proof (split_not_nil 46 stem) as Hst.
    destruct (split 46 stem) as [|h t]; [contradiction|].
    destruct ext as [|c ext]; [contradiction|]. cbn [is_empty orb]. auto.
  - intros Hdot.
    unfold uploaded_dataset, file_ext, strip_extension. cbn [ds_name].
    rewrite (split_no_sep _ _ Hdot). cbn. auto.
  - intros stem Hname.
    assert (Hs : split 46 (file_name file) = split 46 stem ++ [[]]).
    { rewrite Hname. rewrite split_app_sep. reflexivity. }
    unfold uploaded_dataset, parseFileForSampleCount, file_ext, strip_extension.
    cbn [ds_name format]. rewrite Hs, pop_app_last, rev_app_distr.
    change (rev [[]]) with [@nil N].
    cbn [app option_map toLowerCase toUpperCase List.map is_empty orb].
    rewrite orb_true_r. split; [reflexivity|]. split; [reflexivity|].
    intros content ->. reflexivity.
Qed.

(** ** What a computation keeps of the page, and that it returns *)

Section Keeps.

Context {P : Type} (I : P -> Prop).

Lemma keeps_silent {A} (m : M P A) :
  (forall w, page (fst (m w)) = page w) -> keeps I m.
Proof. intros H w Hw. rewrite H. exact Hw. Qed.

Lemma keeps_ret {A} (a : A) : keeps I (@ret P A a).
Proof. apply keeps_silent. reflexivity. Qed.

Lemma keeps_mret {A} (a : A) : keeps I (mret a : M P A).
Proof. apply keeps_ret. Qed.

Lemma keeps_throw {A} (e : exn) : keeps I (@throw P A e).
Proof. apply keeps_silent. reflexivity. Qed.

Lemma keeps_emit (e : event) : keeps I (@emit P e).
Proof. apply keeps_silent. reflexivity. Qed.

Lemma keeps_get_page : keeps I (@get_page P).
Proof. apply keeps_silent. reflexivity. Qed.

Lemma keeps_set_page (f : P -> P) :
  (forall p, I p -> I (f p)) -> keeps I (set_page f).
Proof. intros H w Hw. apply H, Hw. Qed.

Lemma keeps_fetch (req : request) : keeps I (fetch (P := P) req).
Proof.
  apply keeps_silent. intros w. unfold fetch.
  destruct (net env (calls w) req); reflexivity.
Qed.

Lemma keeps_bind {A B} (m : M P A) (k : A -> M P B) :
  keeps I m -> (forall a, keeps I (k a)) -> keeps I (bind m k).
Proof.
  intros Hm Hk w Hw. unfold bind. specialize (Hm w Hw).
  destruct (m w) as [w1 [a|e| |]]; cbn [fst] in *; try exact Hm.
  apply Hk, Hm.
Qed.

Lemma keeps_mbind {A B} (m : M P A) (k : A -> M P B) :
  keeps I m -> (forall a, keeps I (k a)) -> keeps I (m ≫= k).
Proof. apply keeps_bind. Qed.

Lemma keeps_try_catch {A} (m : M P A) (h : exn -> M P A) :
  keeps I m -> (forall e, keeps I (h e)) -> keeps I (try_catch m h).
Proof.
  intros Hm Hh w Hw. unfold try_catch. specialize (Hm w Hw).
  destruct (m w) as [w1 [a|e| |]]; cbn [fst] in *; try exact Hm.
  apply Hh, Hm.
Qed.

Lemma keeps_try_finally {A} (m : M P A) (f : M P unit) :
  keeps I m -> keeps I f -> keeps I (try_finally m f).
Proof.
  intros Hm Hf w Hw. unfold try_finally. specialize (Hm w Hw).
  destruct (m w) as [w1 [a|e| |]]; cbn [fst] in *; try exact Hm.
  - apply (keeps_bind f (fun _ => ret a) Hf (fun _ => keeps_ret a)), Hm.
  - apply (keeps_bind f (fun _ => @throw P A e) Hf (fun _ => keeps_throw e)), Hm.
Qed.

Lemma keeps_lift_option {A} (o : option A) (e : exn) :
  keeps I (@lift_option P A o e).
Proof. destruct o; [apply keeps_ret|apply keeps_throw]. Qed.

Lemma keeps_await_json (r : Response) : keeps I (@await_json P r).
Proof.
  unfold await_json. destruct (snd (Response_json r));
    [apply keeps_ret|apply keeps_throw].
Qed.

Lemma keeps_get (v : jsval) (k : jsstring) : keeps I (@get P v k).
Proof. apply keeps_lift_option. Qed.

Lemma keeps_to_string (v : jsval) : keeps I (to_string (P := P) v).
Proof. apply keeps_lift_option. Qed.

Lemma keeps_await {A} (p : promise A) : keeps I (@await P A p).
Proof.
  destruct p; simpl; [apply keeps_ret|apply keeps_throw|].
  apply keeps_silent. reflexivity.
Qed.

End Keeps.

Create HintDb keeps.
#[local] Hint Resolve keeps_ret keeps_mret keeps_throw keeps_emit keeps_get_page
  keeps_fetch keeps_lift_option keeps_await_json keeps_get keeps_await
  keeps_to_string : keeps.

Ltac keeps_tac :=
  repeat first
    [ progress (auto with keeps)
    | apply keeps_try_catch
    | apply keeps_try_finally
    | apply keeps_mbind
    | apply keeps_bind
    | apply keeps_set_page
    | match goal with
      | |- keeps _ (if ?b then _ else _) => destruct b
      | |- keeps _ (match ?x with _ => _ end) => destruct x
      | |- forall _, _ => intro
      end ].

Section Returns.

Context {P : Type}.

Lemma returns_ret {A} (a : A) : returns (@ret P A a).
Proof. intros w. exists a. reflexivity. Qed.

Lemma returns_mret {A} (a : A) : returns (mret a : M P A).
Proof. apply returns_ret. Qed.

Lemma returns_emit (e : event) : returns (@emit P e).
Proof. intros w. exists tt. reflexivity. Qed.

Lemma returns_get_page : returns (@get_page P).
Proof. intros w. exists (page w). reflexivity. Qed.

Lemma returns_bind {A B} (m : M P A) (k : A -> M P B) :
  returns m -> (forall a, returns (k a)) -> returns (bind m k).
Proof.
  intros Hm Hk w. unfold bind. destruct (Hm w) as [a Ha].
  destruct (m w) as [w1 o]. cbn [snd] in Ha. subst o. apply Hk.
Qed.

Lemma returns_mbind {A B} (m : M P A) (k : A -> M P B) :
  returns m -> (forall a, returns (k a)) -> returns (m ≫= k).
Proof. apply returns_bind. Qed.

Lemma in_model_returns {A} (m : M P A) : returns m -> in_model m.
Proof. intros H w. destruct (H w) as [a ->]. discriminate. Qed.

Lemma in_model_throw {A} (e : exn) : in_model (@throw P A e).
Proof. intros w. discriminate. Qed.

Lemma in_model_fetch (req : request) : in_model (fetch (P := P) req).
Proof. intros w. unfold fetch. destruct (net env (calls w) req); discriminate. Qed.

Lemma in_model_lift_option {A} (o : option A) (e : exn) :
  in_model (@lift_option P A o e).
Proof. intros w. destruct o; discriminate. Qed.

Lemma in_model_await_json (r : Response) : in_model (@await_json P r).
Proof.
  intros w. unfold await_json. destruct (snd (Response_json r)); discriminate.
Qed.

Lemma in_model_bind {A B} (m : M P A) (k : A -> M P B) :
  in_model m -> (forall a, in_model (k a)) -> in_model (bind m k).
Proof.
  intros Hm Hk w. unfold bind. specialize (Hm w).
  destruct (m w) as [w1 [a|e| |]]; cbn [snd] in *;
    [apply Hk|discriminate|discriminate|contradiction].
Qed.

Lemma in_model_mbind {A B} (m : M P A) (k : A -> M P B) :
  in_model m -> (forall a, in_model (k a)) -> in_model (m ≫= k).
Proof. apply in_model_bind. Qed.

Lemma catches_returns {A} (m : M P A) : returns m -> catches m.
Proof. intros H w. destruct (H w) as [a ->]. exact I. Qed.

Lemma catches_in_model {A} (m : M P A) : catches m -> in_model m.
Proof.
  intros H w. specialize (H w). destruct (snd (m w)); try discriminate.
  contradiction.
Qed.

Lemma catches_bind {A B} (m : M P A) (k : A -> M P B) :
  catches m -> (forall a, catches (k a)) -> catches (bind m k).
Proof.
  intros Hm Hk w. unfold bind. specialize (Hm w).
  destruct (m w) as [w1 [a|e| |]]; cbn [snd] in *; try contradiction.
  - apply Hk.
  - exact I.
Qed.

Lemma catches_mbind {A B} (m : M P A) (k : A -> M P B) :
  catches m -> (forall a, catches (k a)) -> catches (m ≫= k).
Proof. apply catches_bind. Qed.

(** A [try] whose block stays in the model, with a handler that catches. *)
Lemma catches_try_catch {A} (m : M P A) (h : exn -> M P A) :
  in_model m -> (forall e, catches (h e)) -> catches (try_catch m h).
Proof.
  intros Hm Hh w. unfold try_catch. specialize (Hm w).
  destruct (m w) as [w1 [a|e| |]]; cbn [snd] in *; try exact I.
  - apply Hh.
  - apply Hm. reflexivity.
Qed.

(** What is not thrown is not what the promise is rejected with. *)
Lemma catches_never_rejects {A} (m : M P A) (w : World P) :
  catches m -> (forall e, snd (m w) <> Throw e) /\ snd (m w) <> OutOfModel.
Proof.
  intros H. specialize (H w). destruct (snd (m w)); try contradiction;
    split; try discriminate; intros e; discriminate.
Qed.

End Returns.

(** ** The data sets page: the rows of the editor *)

Lemma filter_index_all {A} (keep : nat -> bool) (rows : list A) :
  forall k, (forall i, (k <= i)%nat -> keep i = true) ->
            filter_index keep k rows = rows.
Proof.
  induction rows as [|x rows IH]; intros k H; cbn [filter_index]; [reflexivity|].
  rewrite H by lia. f_equal. apply IH. intros i Hi. apply H. lia.
Qed.

(** Filtering out one index deletes the element at that index, if any. *)
Lemma filter_index_delete {A} (rows : list A) :
  forall keep k index,
    (forall i, keep i = negb (i =? k + index)%nat) ->
    filter_index keep k rows = delete index rows.
Proof.
  induction rows as [|x rows IH]; intros keep k index H;
    [destruct index; reflexivity|].
  cbn [filter_index]. rewrite H. destruct index as [|j].
  - rewrite Nat.add_0_r, Nat.eqb_refl. cbn. apply filter_index_all.
    intros i Hi. rewrite H. apply negb_true_iff, Nat.eqb_neq. lia.
  - replace (k =? k + S j)%nat with false by (symmetry; apply Nat.eqb_neq; lia).
    cbn. f_equal. apply IH. intros i. rewrite H. f_equal. f_equal. lia.
Qed.

Lemma handleDeleteCsvRow_rows (index : nat) (w : World DatasetsPage) :
  csvRows (page (fst (handleDeleteCsvRow index w)))
  = if (1 <? length (csvRows (page w)))%nat then delete index (csvRows (page w))
    else csvRows (page w).
Proof.
  unfold handleDeleteCsvRow, mbind, M_bind, bind, get_page.
  destruct (1 <? length (csvRows (page w)))%nat; [|reflexivity].
  cbn. apply filter_index_delete. intros i. reflexivity.
Qed.

Lemma delete_nonempty {A} (index : nat) (rows : list A) :
  (1 < length rows)%nat -> delete index rows <> [].
Proof.
  destruct rows as [|x [|y rows]]; cbn [length]; try lia.
  intros _. destruct index as [|[|j]]; discriminate.
Qed.

Lemma fetchDatasets_keeps_rows :
  keeps (fun p => csvRows p <> []) fetchDatasets.
Proof. unfold fetchDatasets. keeps_tac; exact H. Qed.

Lemma handleCloseModal_keeps_rows :
  keeps (fun p => csvRows p <> []) handleCloseModal.
Proof. unfold handleCloseModal. apply keeps_set_page. intros p _. discriminate. Qed.

Lemma post_dataset_keeps_rows (d : Dataset) :
  keeps (fun p => csvRows p <> []) (post_dataset d).
Proof.
  unfold post_dataset. apply keeps_mbind; [apply keeps_fetch|]. intros r.
  destruct (ok r); [|apply keeps_mret].
  apply keeps_mbind; [apply fetchDatasets_keeps_rows|].
  intros _. apply handleCloseModal_keeps_rows.
Qed.

Lemma page_handler_keeps_rows (i : page_input) :
  keeps (fun p => csvRows p <> []) (page_handler i).
Proof.
  destruct i; cbn [page_handler].
  - apply keeps_set_page. auto.
  - apply handleCloseModal_keeps_rows.
  - intros w Hw. cbn. intros E. apply app_eq_nil in E as [_ E]. discriminate E.
  - intros w Hw. rewrite handleDeleteCsvRow_rows.
    destruct (1 <? length (csvRows (page w)))%nat eqn:E; [|exact Hw].
    apply delete_nonempty, Nat.ltb_lt, E.
  - intros w Hw. unfold handleCsvCellChange, mbind, M_bind, bind, get_page.
    destruct (csvRows (page w) !! index) as [row|] eqn:E; [|exact Hw].
    cbn. intros Hnil. apply (f_equal length) in Hnil.
    rewrite length_insert in Hnil. destruct (csvRows (page w)); [|discriminate].
    contradiction.
  - apply keeps_set_page. auto.
  - apply keeps_set_page. auto.
  - apply keeps_set_page. auto.
  - unfold handleSaveDataset. apply keeps_try_catch; [|intros e; apply keeps_emit].
    apply keeps_mbind; [apply keeps_get_page|]. intros p.
    destruct (modalMode p), (is_empty (datasetName p)), (uploadedFile p);
      try apply keeps_mret; try apply post_dataset_keeps_rows;
      (apply keeps_mbind; [apply keeps_await|intros s; apply post_dataset_keeps_rows]).
  - unfold handleDeleteDataset. apply keeps_try_catch; [|intros e; apply keeps_emit].
    apply keeps_mbind; [apply keeps_fetch|]. intros r.
    destruct (ok r); [apply fetchDatasets_keeps_rows|apply keeps_mret].
  - apply fetchDatasets_keeps_rows.
Qed.

(** X5: whatever the user does on the data sets page, the editor keeps at
    least one row: the handler that deletes a row deletes the row at the
    index it is given, and only when more than one row is there, which is
    when the button that calls it is enabled; so a data set that is created
    has at least one sample. *)
Theorem csv_rows_never_empty (inputs : list page_input) (w : World DatasetsPage) :
  csvRows (page w) <> [] ->
  let w' := page_run inputs w in
  csvRows (page w') <> []
  /\ (forall index,
        csvRows (page (fst (handleDeleteCsvRow index w')))
        = if isDeleteRowDisabled (csvRows (page w')) then csvRows (page w')
          else delete index (csvRows (page w')))
  /\ (1 <= samples (created_dataset (page w')))%Z.
Proof.
  intros Hw w'.
  assert (Hrows : csvRows (page w') <> []).
  { subst w'. revert w Hw. induction inputs as [|i inputs IH]; intros w Hw;
      [exact Hw|].
    cbn [page_run fold_left]. apply IH. apply page_handler_keeps_rows, Hw. }
  split; [exact Hrows|]. split.
  - intros index. rewrite handleDeleteCsvRow_rows. unfold isDeleteRowDisabled.
    destruct (csvRows (page w')) as [|x [|y rows]]; [contradiction| |];
      reflexivity.
  - unfold created_dataset. cbn [samples].
    destruct (csvRows (page w')); [contradiction|]. cbn [length]. lia.
Qed.

(** ** The data sets page: the Save button *)

Lemma handleSaveDataset_upload_begins (w : World DatasetsPage) (file : File)
    (content : jsstring) :
  modalMode (page w) = upload_mode -> uploadedFile (page w) = Some file ->
  file_text file = Some content ->
  begins handleSaveDataset w
    [EvFetch (dataset_request
                (uploaded_dataset file
                   (sample_count (file_ext (file_name file)) content)))].
Proof.
  intros Hmode Hfile Htext.
  unfold handleSaveDataset. apply begins_try_catch; [|intros e; grows_tac].
  apply begins_get_page_bind. rewrite Hmode, Hfile.
  assert (E : parseFileForSampleCount file
              = Resolved (sample_count (file_ext (file_name file)) content))
    by (unfold parseFileForSampleCount; rewrite Htext; reflexivity).
  destruct (is_empty (datasetName (page w)));
    (unfold begins, mbind, M_bind, bind; rewrite E; cbn [await ret];
     apply post_dataset_begins).
Qed.

(** X6: the Save button of the modal is enabled exactly when a save sends
    something.  While it is disabled a save does nothing: no request, no
    change of the page.  While it is enabled, a save in create mode first
    posts the data set of the rows, and a save in upload mode first posts the
    data set of the file, once the file is read. *)
Theorem save_button_guards_save (w : World DatasetsPage) :
  let p := page w in
  csvRows p <> [] ->
  (isSaveDisabled (modalMode p) (datasetName p) (csvRows p) (uploadedFile p) = true ->
   handleSaveDataset w = (w, Ret tt))
  /\ (isSaveDisabled (modalMode p) (datasetName p) (csvRows p) (uploadedFile p) = false ->
      match modalMode p with
      | create_mode =>
          begins handleSaveDataset w [EvFetch (dataset_request (created_dataset p))]
      | upload_mode =>
          exists file,
            uploadedFile p = Some file
            /\ forall content,
                 file_text file = Some content ->
                 begins handleSaveDataset w
                   [EvFetch (dataset_request
                               (uploaded_dataset file
                                  (sample_count (file_ext (file_name file))
                                     content)))]
      end).
Proof.
  intros p Hrows. subst p. unfold isSaveDisabled. split.
  - intros H. unfold handleSaveDataset, try_catch, mbind, M_bind, bind, get_page.
    destruct (modalMode (page w)).
    + destruct (uploadedFile (page w)); [discriminate|].
      destruct (is_empty (datasetName (page w))); reflexivity.
    + destruct (csvRows (page w)) as [|r rows]; [contradiction|].
      cbn [length Nat.eqb] in H. rewrite orb_false_r in H. rewrite H.
      reflexivity.
  - intros H. destruct (modalMode (page w)) eqn:Hmode.
    + destruct (uploadedFile (page w)) as [file|] eqn:Hfile; [|discriminate].
      exists file. split; [reflexivity|]. intros content Htext.
      apply handleSaveDataset_upload_begins; assumption.
    + apply orb_false_elim in H as [Hname _].
      unfold handleSaveDataset. apply begins_try_catch; [|intros e; grows_tac].
      apply begins_get_page_bind. rewrite Hmode, Hname.
      apply post_dataset_begins.
Qed.

(** ** Reloading a list *)

Lemma fetchJobs_cases (w : World HomePage) :
  fetchJobs w
  = reload_result w jobs_list_request (js "jobs") (js "Error fetching jobs:")
      (mk_home (jobs (page w)) true) (mk_home (jobs (page w)) false)
      (fun v => mk_home v false).
Proof.
  unfold reload_result, fetchJobs, try_finally, try_catch, mbind, M_bind, bind,
    setLoading, setJobs, set_page, fetch, console_error, emit.
  fold jobs_list_request. cbn [page trace calls fst snd].
  destruct (net env (calls w) jobs_list_request) as [r|e| ] eqn:Hnet.
  - destruct (ok r) eqn:Hok.
    + unfold await_json. destruct (snd (Response_json r)) as [data|e] eqn:Hjson.
      * unfold ret at 1. unfold get, lift_option.
        destruct (get_prop (Some data) (js "jobs")) as [v|] eqn:Hget.
        -- unfold ret. cbn. reflexivity.
        -- unfold ret, throw. cbn. rewrite <- app_assoc. reflexivity.
      * unfold ret, throw. cbn. rewrite <- app_assoc. reflexivity.
    + unfold ret, throw, mret, M_ret, ret. cbn. reflexivity.
  - unfold ret, throw. cbn. rewrite <- app_assoc. reflexivity.
  - reflexivity.
Qed.

Lemma fetchDatasets_cases (w : World DatasetsPage) :
  fetchDatasets w
  = reload_result w datasets_list_request (js "datasets")
      (js "Error fetching datasets:")
      (with_loading true (page w)) (with_loading false (page w))
      (fun v => with_loading false (with_datasets v (page w))).
Proof.
  unfold reload_result, fetchDatasets, try_finally, try_catch, mbind, M_bind, bind,
    set_page, fetch, emit.
  fold datasets_list_request. cbn [page trace calls fst snd].
  destruct (net env (calls w) datasets_list_request) as [r|e| ] eqn:Hnet.
  - destruct (ok r) eqn:Hok.
    + unfold await_json. destruct (snd (Response_json r)) as [data|e] eqn:Hjson.
      * unfold ret at 1. unfold get, lift_option.
        destruct (get_prop (Some data) (js "datasets")) as [v|] eqn:Hget.
        -- unfold ret. cbn. reflexivity.
        -- unfold ret, throw. cbn. rewrite <- app_assoc. reflexivity.
      * unfold ret, throw. cbn. rewrite <- app_assoc. reflexivity.
    + unfold ret, throw, mret, M_ret, ret. cbn. reflexivity.
  - unfold ret, throw. cbn. rewrite <- app_assoc. reflexivity.
  - reflexivity.
Qed.




Lemma catches_reload {P} (w : World P) (req : request) (key label : jsstring)
    (waiting kept : P) (loaded : jsval -> P) :
  match snd (reload_result w req key label waiting kept loaded) with
  | Throw _ | OutOfModel => False
  | _ => True
  end.
Proof.
  unfold reload_result.
  destruct (net env (calls w) req) as [r|e| ]; try exact I.
  destruct (ok r); [|exact I].
  destruct (snd (Response_json r)) as [data|e]; [|exact I].
  destruct (get_prop (Some data) key); exact I.
Qed.

Lemma catches_fetchJobs : catches fetchJobs.
Proof. intros w. rewrite fetchJobs_cases. apply catches_reload. Qed.

Lemma catches_fetchDatasets : catches fetchDatasets.
Proof. intros w. rewrite fetchDatasets_cases. apply catches_reload. Qed.

Lemma emits_fetchDatasets (Q : event -> Prop) :
  Q (EvFetch datasets_list_request) -> (forall l, Q (EvConsoleError l)) ->
  emits Q fetchDatasets.
Proof.
  intros Hf He. unfold fetchDatasets. fold datasets_list_request.
  emits_tac; auto.
Qed.

(** X8: deleting a data set asks no confirmation and shows no alert.  It
    sends the DELETE request for the data set; the list is reloaded exactly
    when the response is OK; a response that is not OK is dropped without a
    trace, a request that is rejected is logged to the console, and while
    the request never settles the handler waits.  Its promise is never
    rejected. *)
Theorem handleDeleteDataset_reloads_on_success (id : jsstring)
    (w : World DatasetsPage) :
  let sent := mk_world (page w)
                (trace w ++ [EvFetch (delete_dataset_request id)])
                (S (calls w)) in
  match net env (calls w) (delete_dataset_request id) with
  | Resolves r =>
      handleDeleteDataset id w = if ok r then fetchDatasets sent else (sent, Ret tt)
  | Rejects _ =>
      handleDeleteDataset id w
      = (mk_world (page w)
           (trace w ++ [EvFetch (delete_dataset_request id);
                        EvConsoleError (js "Error deleting dataset:")])
           (S (calls w)),
         Ret tt)
  | NeverSettles => handleDeleteDataset id w = (sent, Hang)
  end
  /\ (forall e, snd (handleDeleteDataset id w) <> Throw e)
  /\ snd (handleDeleteDataset id w) <> OutOfModel
  /\ emits no_dialog (handleDeleteDataset id).
Proof.
  intros sent.
  assert (H : match net env (calls w) (delete_dataset_request id) with
              | Resolves r =>
                  handleDeleteDataset id w
                  = if ok r then fetchDatasets sent else (sent, Ret tt)
              | Rejects _ =>
                  handleDeleteDataset id w
                  = (mk_world (page w)
                       (trace w ++ [EvFetch (delete_dataset_request id);
                                    EvConsoleError (js "Error deleting dataset:")])
                       (S (calls w)),
                     Ret tt)
              | NeverSettles => handleDeleteDataset id w = (sent, Hang)
              end).
  { unfold handleDeleteDataset, try_catch, mbind, M_bind, bind, fetch.
    fold (delete_dataset_request id).
    destruct (net env (calls w) (delete_dataset_request id)) as [r|e| ].
    - fold sent. destruct (ok r); [|reflexivity].
      pose proof (catches_fetchDatasets sent) as C.
      destruct (fetchDatasets sent) as [w' [[]|e| |]]; cbn [snd] in C;
        try contradiction; reflexivity.
    - unfold emit. cbn. rewrite <- app_assoc. reflexivity.
    - reflexivity. }
  split; [exact H|].
  assert (C : catches (handleDeleteDataset id)).
  { unfold handleDeleteDataset. apply catches_try_catch.
    - apply in_model_mbind; [apply in_model_fetch|]. intros r.
      destruct (ok r); [apply catches_in_model, catches_fetchDatasets|].
      apply in_model_returns, returns_mret.
    - intros e. apply catches_returns, returns_emit. }
  destruct (catches_never_rejects _ w C) as [C1 C2].
  split; [exact C1|]. split; [exact C2|].
  unfold handleDeleteDataset. apply emits_try_catch.
  - apply emits_mbind; [apply emits_fetch; exact I|]. intros r.
    destruct (ok r); [|apply emits_mret].
    apply emits_fetchDatasets; intros; exact I.
  - intros e. apply emits_emit. exact I.
Qed.

(** ** The jobs list: what the handlers of the menu do *)

Lemma in_model_alert_detail {P} (prefix : string) (response : Response) :
  in_model (alert_detail (P := P) prefix response).
Proof.
  unfold alert_detail, get, to_string.
  apply in_model_mbind; [apply in_model_await_json|].
  intros error. apply in_model_mbind; [apply in_model_lift_option|].
  intros detail. apply in_model_mbind; [apply in_model_lift_option|].
  intros text. apply in_model_returns, returns_emit.
Qed.

Lemma returns_confirm {P} (q : jsstring) : returns (confirm (P := P) q).
Proof.
  unfold confirm. apply returns_mbind; [apply returns_emit|].
  intros _. apply returns_mret.
Qed.

Lemma returns_failure {P} (label text : jsstring) :
  returns (console_error (P := P) label;; alert text).
Proof.
  apply returns_mbind; [apply returns_emit|]. intros _. apply returns_emit.
Qed.

(** A handler that sends one request, goes on when the response is OK and
    alerts otherwise. *)
Lemma catches_request_handler (req : request) (after : M HomePage unit)
    (prefix : string) (label text : jsstring) :
  in_model after ->
  catches (try_catch
             (response ← fetch req;
              if ok response then after else alert_detail prefix response)
             (fun _ => console_error label;; alert text)).
Proof.
  intros Hafter. apply catches_try_catch.
  - apply in_model_mbind; [apply in_model_fetch|]. intros r.
    destruct (ok r); [exact Hafter|apply in_model_alert_detail].
  - intros e. apply catches_returns, returns_failure.
Qed.

Lemma catches_after_confirm (q : jsstring) (body : M HomePage unit) :
  catches body ->
  catches (confirmed ← confirm q; if negb confirmed then mret tt else body).
Proof.
  intros Hbody. apply catches_mbind; [apply catches_returns, returns_confirm|].
  intros c. destruct (negb c); [apply catches_returns, returns_mret|exact Hbody].
Qed.

Lemma in_model_fetchJobs : in_model fetchJobs.
Proof. apply catches_in_model, catches_fetchJobs. Qed.

Lemma in_model_item_below {P} (v len : jsval) : in_model (item_below (P := P) v len).
Proof.
  unfold item_below.
  destruct v as [[ | | |s|[|first others]|members]|];
    try (apply in_model_returns, returns_ret).
  apply in_model_mbind; [apply in_model_lift_option|].
  intros key. apply in_model_returns, returns_ret.
Qed.

Lemma catches_handleDownload (job : FineTuningJob) : catches (handleDownload job).
Proof.
  unfold handleDownload. apply catches_try_catch.
  - apply in_model_mbind; [apply in_model_fetch|]. intros r.
    apply in_model_mbind.
    { destruct (negb (ok r)); [apply in_model_throw|].
      apply in_model_returns, returns_mret. }
    intros _. apply in_model_mbind; [apply in_model_await_json|]. intros data.
    unfold get, to_string.
    apply in_model_mbind; [apply in_model_lift_option|]. intros checkpoints.
    apply in_model_mbind.
    { destruct (truthy checkpoints); [apply in_model_lift_option|].
      apply in_model_returns, returns_mret. }
    intros len.
    destruct (negb (truthy checkpoints) || is_zero_number len);
      [apply in_model_returns, returns_emit|].
    apply in_model_mbind; [apply in_model_item_below|]. intros lastCheckpoint.
    apply in_model_mbind; [apply in_model_lift_option|]. intros cp_id.
    apply in_model_mbind; [apply in_model_lift_option|]. intros id_text.
    apply in_model_mbind; [apply in_model_lift_option|]. intros step.
    apply in_model_mbind; [apply in_model_lift_option|]. intros step_text.
    apply in_model_returns, returns_emit.
  - intros e. apply catches_returns, returns_failure.
Qed.

(** X9: the promise of no handler of the actions menu is ever rejected:
    whatever the network and the server answer, and whatever the bodies
    hold, every exception is caught on the way, so the handler returns or
    waits for an answer. *)
Theorem onClick_never_rejects (item : MenuItem) (job : FineTuningJob)
    (w : World HomePage) :
  match snd (onClick item job w) with
  | Throw _ | OutOfModel => False
  | _ => True
  end.
Proof.
  assert (C : catches (onClick item job)); [|exact (C w)].
  destruct item; cbn [onClick].
  - apply catches_returns, returns_emit.
  - unfold handleStart. apply catches_request_handler.
    apply in_model_mbind; [apply in_model_fetchJobs|]. intros _.
    apply in_model_returns, returns_emit.
  - apply catches_returns, returns_emit.
  - unfold handlePause.
    apply catches_request_handler, in_model_fetchJobs.
  - unfold handleStop. apply catches_after_confirm.
    apply catches_request_handler, in_model_fetchJobs.
  - apply catches_handleDownload.
  - apply catches_returns, returns_emit.
  - unfold handleRetry. apply catches_after_confirm.
    apply catches_request_handler.
    apply in_model_mbind; [apply in_model_fetchJobs|]. intros _.
    apply in_model_returns, returns_emit.
  - unfold handleDeleteJob. apply catches_after_confirm.
    apply catches_request_handler, in_model_fetchJobs.
Qed.

Lemma declined (q : jsstring) (body : M HomePage unit) (w : World HomePage) :
  confirm_answer env q = false ->
  (confirmed ← confirm q; if negb confirmed then mret tt else body) w
  = (mk_world (page w) (trace w ++ [EvConfirm q]) (calls w), Ret tt).
Proof.
  intros Hc. unfold confirm, mbind, M_bind, bind, emit, mret, M_ret, ret.
  rewrite Hc. reflexivity.
Qed.

Lemma begins_after_confirm (q : jsstring) (body : M HomePage unit)
    (w : World HomePage) (evs : list event) :
  confirm_answer env q = true ->
  (forall w1, begins body w1 evs) ->
  begins (confirmed ← confirm q; if negb confirmed then mret tt else body) w
         (EvConfirm q :: evs).
Proof.
  intros Hc Hbody. unfold begins, confirm, mbind, M_bind, bind, emit, mret, M_ret.
  unfold ret at 1. unfold ret at 1. rewrite Hc. cbn [negb].
  destruct (Hbody (mk_world (page w) (trace w ++ [EvConfirm q]) (calls w)))
    as [tr E].
  exists tr. rewrite E. cbn [trace]. rewrite <- app_assoc. reflexivity.
Qed.

Lemma begins_request_handler (req : request) (after : M HomePage unit)
    (prefix : string) (label text : jsstring) (w : World HomePage) :
  grows after ->
  begins (try_catch
            (response ← fetch req;
             if ok response then after else alert_detail prefix response)
            (fun _ => console_error label;; alert text))
         w [EvFetch req].
Proof.
  intros Hafter. apply begins_try_catch.
  - apply begins_fetch_bind. intros r. destruct (ok r); [exact Hafter|].
    apply (emits_alert_detail (fun _ => True)). auto.
  - intros e. unfold console_error, alert. grows_tac.
Qed.

Lemma grows_fetchJobs : grows fetchJobs.
Proof. apply (emits_fetchJobs (fun _ => True)); auto. Qed.

(** X10: stopping and deleting a job ask first.  Each shows its confirm
    dialog before anything else; declined, it sends no request and changes
    nothing; confirmed, the next thing it does is to send the request, a
    POST to the [stop] route of the job or a DELETE of the job. *)
Theorem destructive_actions_ask_first (job : FineTuningJob) (w : World HomePage) :
  (confirm_answer env stop_question = false ->
   handleStop job w
   = (mk_world (page w) (trace w ++ [EvConfirm stop_question]) (calls w), Ret tt))
  /\ (confirm_answer env stop_question = true ->
      begins (handleStop job) w
             [EvConfirm stop_question; EvFetch (stop_request job)])
  /\ (confirm_answer env delete_question = false ->
      handleDeleteJob job w
      = (mk_world (page w) (trace w ++ [EvConfirm delete_question]) (calls w),
         Ret tt))
  /\ (confirm_answer env delete_question = true ->
      begins (handleDeleteJob job) w
             [EvConfirm delete_question; EvFetch (delete_request job)]).
Proof.
  split; [|split; [|split]].
  - intros Hc. unfold handleStop. apply declined, Hc.
  - intros Hc. unfold handleStop. apply begins_after_confirm; [exact Hc|].
    intros w1. apply begins_request_handler, grows_fetchJobs.
  - intros Hc. unfold handleDeleteJob. apply declined, Hc.
  - intros Hc. unfold handleDeleteJob. apply begins_after_confirm; [exact Hc|].
    intros w1. apply begins_request_handler, grows_fetchJobs.
Qed.


(** X12: a download from the jobs list without checkpoints.  When the
    answer is OK and its [checkpoints] is missing, falsy or the empty list,
    the handler alerts that no checkpoints are available and downloads
    nothing; when the answer is not OK, or the request fails, it logs the
    error and alerts that the download failed. *)
Theorem handleDownload_without_checkpoints (job : FineTuningJob)
    (w : World HomePage) :
  let sent := trace w ++ [EvFetch (checkpoints_request job)] in
  let failure := [EvConsoleError (js "Error downloading model:");
                  EvAlert (js "Failed to download model. Please try again.")] in
  (forall r data v,
     net env (calls w) (checkpoints_request job) = Resolves r ->
     ok r = true ->
     snd (Response_json r) = inl data ->
     get_prop (Some data) (js "checkpoints") = Some v ->
     truthy v = false \/ v = Some (JArray []) ->
     handleDownload job w
     = (mk_world (page w)
          (sent ++ [EvAlert (js "No checkpoints available for download")])
          (S (calls w)),
        Ret tt))
  /\ (forall r,
        net env (calls w) (checkpoints_request job) = Resolves r ->
        ok r = false ->
        handleDownload job w
        = (mk_world (page w) (sent ++ failure) (S (calls w)), Ret tt))
  /\ (forall e,
        net env (calls w) (checkpoints_request job) = Rejects e ->
        handleDownload job w
        = (mk_world (page w) (sent ++ failure) (S (calls w)), Ret tt)).
Proof.
  intros sent failure. subst sent failure.
  split; [|split].
  - intros r data v Hnet Hok Hjson Hget Hv.
    unfold handleDownload, try_catch, mbind, M_bind, bind, fetch.
    fold (checkpoints_request job). rewrite Hnet, Hok. cbn [negb].
    unfold mret, M_ret, ret at 1. unfold await_json. rewrite Hjson.
    unfold ret at 1. unfold get at 1. rewrite Hget. cbn [lift_option].
    unfold ret at 1.
    destruct Hv as [Hv| ->].
    + rewrite Hv. cbn [negb]. reflexivity.
    + cbn [truthy negb]. reflexivity.
  - intros r Hnet Hok.
    unfold handleDownload, try_catch, mbind, M_bind, bind, fetch.
    fold (checkpoints_request job). rewrite Hnet, Hok. cbn [negb].
    unfold throw, console_error, alert, emit. cbn [page trace calls].
    rewrite <- !app_assoc. reflexivity.
  - intros e Hnet.
    unfold handleDownload, try_catch, mbind, M_bind, bind, fetch.
    fold (checkpoints_request job). rewrite Hnet.
    unfold console_error, alert, emit. cbn [page trace calls].
    rewrite <- !app_assoc. reflexivity.
Qed.

(** ** The jobs list: the filter and the tabs *)

Lemma includes_empty (s : jsstring) : includes s [] = true.
Proof. destruct s; reflexivity. Qed.

Lemma jsstring_eqb_eq (a b : jsstring) : jsstring_eqb a b = true <-> a = b.
Proof. unfold jsstring_eqb. apply bool_decide_eq_true. Qed.

Lemma status_name_eqb (s t : JobStatus) :
  jsstring_eqb (status_name s) (status_name t) = bool_decide (s = t).
Proof. destruct s, t; reflexivity. Qed.

(** The tabs with a status, as statuses. *)
Lemma tab_is_status (f : jsstring) :
  In f tabs -> f = js "all"
               \/ exists s, f = status_name s /\ has_no_tab_status s = false.
Proof.
  unfold tabs. cbn [In]. intros [<-|[<-|[<-|[<-|[<-|[]]]]]]; [left; reflexivity| | | |];
    right; [exists running|exists completed|exists failed|exists pending];
    split; reflexivity.
Qed.

Lemma status_count_cons (s : JobStatus) (job : FineTuningJob)
    (jobs : list FineTuningJob) :
  tab_count (status_name s) (job :: jobs)
  = ((if bool_decide (job_status job = s) then 1 else 0)
     + tab_count (status_name s) jobs)%nat.
Proof.
  unfold tab_count.
  replace (jsstring_eqb (status_name s) (js "all")) with false
    by (destruct s; reflexivity).
  cbn [List.filter]. rewrite status_name_eqb.
  destruct (bool_decide (job_status job = s)); reflexivity.
Qed.

Lemma tab_counts_add_up (jobs : list FineTuningJob) :
  tab_count (js "all") jobs
  = (tab_count (js "running") jobs + tab_count (js "completed") jobs
     + tab_count (js "failed") jobs + tab_count (js "pending") jobs
     + length (List.filter has_no_tab jobs))%nat.
Proof.
  change (js "running") with (status_name running).
  change (js "completed") with (status_name completed).
  change (js "failed") with (status_name failed).
  change (js "pending") with (status_name pending).
  induction jobs as [|job jobs IH]; [reflexivity|].
  rewrite !status_count_cons. cbn [List.filter].
  unfold tab_count at 1. change (jsstring_eqb (js "all") (js "all")) with true.
  cbv iota. cbn [length].
  unfold tab_count at 1 in IH.
  change (jsstring_eqb (js "all") (js "all")) with true in IH.
  cbv iota in IH. rewrite IH.
  set (a := tab_count (status_name running) jobs).
  set (b := tab_count (status_name completed) jobs).
  set (c := tab_count (status_name failed) jobs).
  set (d := tab_count (status_name pending) jobs).
  set (e := length (List.filter has_no_tab jobs)).
  unfold has_no_tab at 1.
  destruct (job_status job); cbn [has_no_tab_status length];
    repeat case_bool_decide; try discriminate; try congruence; lia.
Qed.

(** X13: the list the jobs page shows.  With an empty search box and the
    tab All it is the whole list; a job that is shown is a job of the list
    whose status is the tab's, unless the tab is All; with an empty search
    box a tab shows as many jobs as the count on it says; and since there
    are tabs for running, completed, failed and pending only, a paused or
    stopped job is shown under All alone, and the counts of the four status
    tabs add up to the count of All less the paused and stopped jobs. *)
Theorem filteredJobs_and_tabs (lowerCase : jsstring -> jsstring)
    (jobs : list FineTuningJob) :
  lowerCase [] = [] ->
  filteredJobs lowerCase [] (js "all") jobs = jobs
  /\ (forall q f job,
        In job (filteredJobs lowerCase q f jobs) ->
        In job jobs /\ (f = js "all" \/ status_name (job_status job) = f))
  /\ (forall q f job,
        In f tabs -> In job (filteredJobs lowerCase q f jobs) ->
        has_no_tab job = true -> f = js "all")
  /\ (forall f, length (filteredJobs lowerCase [] f jobs) = tab_count f jobs)
  /\ tab_count (js "all") jobs
     = (tab_count (js "running") jobs + tab_count (js "completed") jobs
        + tab_count (js "failed") jobs + tab_count (js "pending") jobs
        + length (List.filter has_no_tab jobs))%nat.
Proof.
  intros Hlower.
  assert (Hsearch : forall job, matchesSearch lowerCase [] job = true).
  { intros job. unfold matchesSearch. rewrite Hlower, includes_empty. reflexivity. }
  assert (Hin : forall q f job,
             In job (filteredJobs lowerCase q f jobs) ->
             In job jobs /\ (f = js "all" \/ status_name (job_status job) = f)).
  { intros q f job H. unfold filteredJobs in H. apply filter_In in H as [Hj Hm].
    split; [exact Hj|]. apply andb_prop in Hm as [_ Hm]. unfold matchesStatus in Hm.
    apply orb_prop in Hm as [Hm|Hm]; apply jsstring_eqb_eq in Hm; auto. }
  split; [|split; [|split; [|split]]].
  - unfold filteredJobs. apply filter_all. apply forallb_forall. intros job _.
    rewrite Hsearch. reflexivity.
  - exact Hin.
  - intros q f job Hf Hjob Hno. destruct (Hin q f job Hjob) as [_ [H|H]]; [exact H|].
    destruct (tab_is_status f Hf) as [H'|(s & -> & Hs)]; [exact H'|].
    exfalso. unfold has_no_tab in Hno.
    destruct (job_status job), s; try discriminate Hs; try discriminate Hno;
      cbv in H; discriminate H.
  - intros f. unfold filteredJobs, tab_count, matchesStatus.
    destruct (jsstring_eqb f (js "all")) eqn:E.
    + rewrite filter_all; [reflexivity|]. apply forallb_forall. intros job _.
      rewrite Hsearch. reflexivity.
    + f_equal. apply filter_ext. intros job. rewrite Hsearch. reflexivity.
  - apply tab_counts_add_up.
Qed.

(** ** The status badges *)

(** X14: the badge of the job page has an entry for four of the six
    statuses of a job.  For a job whose status is running, completed, failed
    or pending it is built from the entry, with the text the badge of the
    jobs list shows for that status; for a paused or a stopped job there is
    no entry, and building the badge throws a TypeError.  The menu of the
    jobs list offers View, which leads to the job page, for every status. *)
Theorem job_page_badge (info : JobInfo) (s : JobStatus) :
  info_status info = Some (JString (status_name s)) ->
  match s with
  | running | completed | failed | pending =>
      exists config, getStatusBadge info = Ret config
                     /\ badge_text config = StatusBadge_label s
  | paused | stopped =>
      getStatusBadge info
      = Throw (TypeError (js "Cannot read properties of undefined"))
  end
  /\ In View (menu s).
Proof.
  intros H. unfold getStatusBadge. rewrite H. cbn [ToString ToString_json].
  split; [|left; reflexivity].
  destruct s; cbn [status_name];
    first [ eexists; split; reflexivity | reflexivity ].
Qed.

(** ** The API client: waits, verbs, headers, downloads *)

Lemma repeat_events_cons (x : list event) (k : nat) (tail : list event) :
  concat (repeat x (S k)) ++ tail = x ++ concat (repeat x k) ++ tail.
Proof. cbn [repeat concat]. rewrite <- app_assoc. reflexivity. Qed.

(** The events of the loop of [fetchWithRetry], by the number of calls of
    [fetch] it makes. *)
Lemma retry_loop_events {P} (req : request) (retry : nat) (delay : N) :
  forall (todo attempt : nat) (lastError : option exn) (w : World P),
    (attempt + todo = S retry)%nat ->
    let r := retry_loop req retry delay todo attempt lastError w in
    trace (fst r) = trace w ++ retry_events req delay (calls (fst r) - calls w)
    /\ (todo <> 0%nat -> (calls w < calls (fst r))%nat)
    /\ page (fst r) = page w.
Proof.
  induction todo as [|t IH]; intros attempt lastError w Hsum; cbn zeta.
  - cbn [retry_loop throw fst trace calls page]. rewrite Nat.sub_diag.
    cbn [retry_events]. rewrite app_nil_r.
    split; [reflexivity|]. split; [intros H; destruct (H eq_refl)|reflexivity].
  - cbn [retry_loop]. unfold try_catch, fetch.
    destruct (net env (calls w) req) as [response|e| ];
      [|
       |cbn [fst trace calls page];
        replace (S (calls w) - calls w)%nat with 1%nat by lia;
        split; [reflexivity|]; split; [lia|reflexivity]].
    + cbn [fst trace calls page].
      replace (S (calls w) - calls w)%nat with 1%nat by lia.
      split; [reflexivity|]. split; [lia|reflexivity].
    + set (w1 := mk_world (page w) (trace w ++ [EvFetch req]) (S (calls w))).
      destruct (attempt <? retry)%nat eqn:E.
      * apply Nat.ltb_lt in E.
        set (w2 := mk_world (page w1) (trace w1 ++ [EvSleep delay]) (calls w1)).
        change ((emit (EvSleep delay);; retry_loop req retry delay t (S attempt) (Some e)) w1)
          with (retry_loop req retry delay t (S attempt) (Some e) w2).
        destruct (IH (S attempt) (Some e) w2 ltac:(lia)) as (Ht & Hc & Hp).
        specialize (Hc ltac:(lia)). cbn [calls w2 w1] in Hc.
        rewrite Hp. split; [|split; [lia|reflexivity]].
        rewrite Ht. cbn [trace calls w2 w1].
        destruct (calls (fst (retry_loop req retry delay t (S attempt) (Some e) w2))
                  - S (calls w))%nat as [|k] eqn:Ek; [lia|].
        replace (calls (fst (retry_loop req retry delay t (S attempt) (Some e) w2))
                 - calls w)%nat with (S (S k)) by lia.
        unfold retry_events. rewrite repeat_events_cons.
        rewrite <- !app_assoc. reflexivity.
      * apply Nat.ltb_ge in E. assert (t = 0%nat) by lia. subst t.
        change ((mret tt;; retry_loop req retry delay 0 (S attempt) (Some e)) w1)
          with (w1, @Throw Response (retry_failure retry (Some e))).
        cbn [fst trace calls page w1].
        replace (S (calls w) - calls w)%nat with 1%nat by lia.
        split; [reflexivity|]. split; [lia|reflexivity].
Qed.

(** X15: [fetchWithRetry] waits between two calls of [fetch] and nowhere
    else: when it calls [fetch] n times, its events are n requests, the same
    each time, with a wait of [retryDelay] milliseconds between each two,
    none in front of the first and none behind the last.  n is at least 1
    and at most retry + 1, the delay is 1000 when the options name none,
    and the page is left as it was. *)
Theorem fetchWithRetry_waits_between_attempts {P} (url : jsstring)
    (options : RequestOptions) (w : World P) :
  let run := fetchWithRetry url options w in
  let n := attempts_made (fetchWithRetry url options) w in
  trace (fst run)
  = trace w ++ retry_events (fetch_request url options) (retryDelay_of options) n
  /\ (1 <= n <= retry_of options + 1)%nat
  /\ page (fst run) = page w
  /\ (opt_retryDelay options = None -> retryDelay_of options = 1000).
Proof.
  intros run n. subst run n. unfold attempts_made, fetchWithRetry.
  destruct (retry_loop_events (P := P) (fetch_request url options)
              (retry_of options) (retryDelay_of options)
              (S (retry_of options)) 0%nat None w ltac:(lia)) as (Ht & Hc & Hp).
  specialize (Hc ltac:(lia)).
  pose proof (retry_loop_result (P := P) (fetch_request url options)
                (retry_of options) (retryDelay_of options)
                (S (retry_of options)) 0%nat None w) as Hr.
  cbn zeta in Hr.
  split; [exact Ht|]. split; [|split; [exact Hp|]].
  - destruct (snd (retry_loop (fetch_request url options) (retry_of options)
                     (retryDelay_of options) (S (retry_of options)) 0 None w))
      as [response|ex| |]; try contradiction.
    + destruct Hr as (k & Hk & Hcalls & _). lia.
    + destruct Hr as (Hcalls & _). lia.
    + destruct Hr as (k & Hk & Hcalls & _). lia.
  - intros H. unfold retryDelay_of. rewrite H. reflexivity.
Qed.

Lemma grows_retry_loop {P} (req : request) (retry : nat) (delay : N) :
  forall todo attempt lastError,
    grows (retry_loop (P := P) req retry delay todo attempt lastError).
Proof.
  induction todo as [|t IH]; intros attempt lastError; cbn [retry_loop].
  - grows_tac.
  - apply emits_try_catch; [apply emits_fetch; exact I|].
    intros e. apply emits_mbind.
    + destruct (attempt <? retry)%nat; grows_tac.
    + intros _. apply IH.
Qed.

Lemma begins_fetchWithRetry {P} (url : jsstring) (options : RequestOptions)
    (w : World P) :
  begins (fetchWithRetry url options) w [EvFetch (fetch_request url options)].
Proof.
  unfold fetchWithRetry. cbn [retry_loop]. apply begins_try_catch.
  - unfold begins, fetch.
    destruct (net env (calls w) (fetch_request url options));
      exists []; reflexivity.
  - intros e. apply emits_mbind.
    + destruct (0 <? retry_of options)%nat; grows_tac.
    + intros _. apply grows_retry_loop.
Qed.

Lemma begins_bind {P A B} (m : M P A) (k : A -> M P B) (w : World P)
    (evs : list event) :
  begins m w evs -> (forall a, grows (k a)) -> begins (m ≫= k) w evs.
Proof.
  intros [tr E] Hk. unfold begins, mbind, M_bind, bind.
  destruct (m w) as [w1 [a|e| |]]; cbn [fst] in *; try (exists tr; exact E).
  destruct (grows_prefix _ (Hk a) w1) as [tr2 E2]. exists (tr ++ tr2).
  rewrite E2, E, <- !app_assoc. reflexivity.
Qed.

Lemma begins_apiRequest {P} (endpoint : jsstring) (options : RequestOptions)
    (w : World P) :
  begins (apiRequest endpoint options) w
    [EvFetch (fetch_request (request_url endpoint options)
                            (request_options options))].
Proof.
  rewrite apiRequest_unfold. apply begins_bind; [apply begins_fetchWithRetry|].
  intros response. destruct (negb (ok response)).
  - apply emits_mbind; [|intros; grows_tac].
    unfold read_errorData.
    destruct (Response_json response) as [r' [v|e]]; [grows_tac|].
    destruct (Response_text r') as [r'' [t|e']]; grows_tac.
  - grows_tac.
Qed.

Lemma header_value_app (k : jsstring) (a b : list (jsstring * jsstring)) :
  header_value k (a ++ b)
  = match header_value k a with
    | Some v => Some v
    | None => header_value k b
    end.
Proof.
  induction a as [|[k' v] a IH]; [reflexivity|].
  cbn [app header_value]. destruct (jsstring_eqb k' k); [reflexivity|exact IH].
Qed.

Lemma header_value_set_header (k k' v : jsstring) (hs : list (jsstring * jsstring)) :
  header_value k (set_header k' v hs)
  = if jsstring_eqb k' k then Some v else header_value k hs.
Proof.
  induction hs as [|[k0 v0] hs IH]; cbn [set_header header_value].
  - destruct (jsstring_eqb k' k); reflexivity.
  - destruct (jsstring_eqb k0 k') eqn:E0.
    + apply jsstring_eqb_eq in E0. subst k0. cbn [header_value].
      destruct (jsstring_eqb k' k); reflexivity.
    + cbn [header_value]. rewrite IH.
      destruct (jsstring_eqb k0 k) eqn:E1; [|reflexivity].
      apply jsstring_eqb_eq in E1. subst k0.
      destruct (jsstring_eqb k' k) eqn:E2; [|reflexivity].
      apply jsstring_eqb_eq in E2. subst k'.
      unfold jsstring_eqb in E0. rewrite bool_decide_eq_true_2 in E0 by reflexivity.
      discriminate E0.
Qed.

(** A header of the spread [{ ...a, ...b }]: the value [b] gives it, or
    else the value [a] gives it. *)
Lemma header_value_spread (k : jsstring) (a b : list (jsstring * jsstring)) :
  header_value k (spread_headers a b)
  = match header_written k b with
    | Some v => Some v
    | None => header_value k a
    end.
Proof.
  unfold spread_headers, header_written. revert a.
  induction b as [|[k' v] b IH]; intros a; [reflexivity|].
  cbn [fold_left fst snd rev]. rewrite IH, header_value_app, header_value_set_header.
  destruct (header_value k (rev b)); [reflexivity|].
  cbn [header_value]. destruct (jsstring_eqb k' k); reflexivity.
Qed.

(** X16: the methods of [apiClient].  Each first sends a request to the
    URL of the endpoint, with its own method whatever method the options
    name; [get] and [delete] send the body of the options, [post], [put] and
    [patch] send the data as JSON, and no body at all when the data is falsy
    (missing, [null], [false], 0 or the empty string).  The [Content-Type]
    of the request is the one the options' headers give it, and
    [application/json] when they give none. *)
Theorem apiClient_verbs {P} (endpoint : jsstring) (data : jsval)
    (o : RequestOptions) (w : World P) :
  begins (apiClient_get endpoint o) w
         [EvFetch (verb_request "GET" endpoint o (opt_body o))]
  /\ begins (apiClient_delete endpoint o) w
            [EvFetch (verb_request "DELETE" endpoint o (opt_body o))]
  /\ begins (apiClient_post endpoint data o) w
            [EvFetch (verb_request "POST" endpoint o (body_of data))]
  /\ begins (apiClient_put endpoint data o) w
            [EvFetch (verb_request "PUT" endpoint o (body_of data))]
  /\ begins (apiClient_patch endpoint data o) w
            [EvFetch (verb_request "PATCH" endpoint o (body_of data))]
  /\ (body_of data = None <-> truthy data = false)
  /\ (forall v, truthy (Some v) = true -> body_of (Some v) = Some (JSON_stringify v))
  /\ (forall method payload,
        header_value (js "Content-Type")
          (req_headers (verb_request method endpoint o payload))
        = Some (match header_written (js "Content-Type") (opt_headers o) with
                | Some v => v
                | None => js "application/json"
                end)).
Proof.
  repeat split.
  - apply (begins_apiRequest endpoint (with_method o "GET" (opt_body o))).
  - apply (begins_apiRequest endpoint (with_method o "DELETE" (opt_body o))).
  - apply (begins_apiRequest endpoint (with_method o "POST" (body_of data))).
  - apply (begins_apiRequest endpoint (with_method o "PUT" (body_of data))).
  - apply (begins_apiRequest endpoint (with_method o "PATCH" (body_of data))).
  - unfold body_of. destruct data as [v|]; [|reflexivity].
    destruct (truthy (Some v)); [discriminate|reflexivity].
  - unfold body_of. destruct data as [v|]; [|reflexivity].
    destruct (truthy (Some v)); [discriminate|reflexivity].
  - intros v Hv. unfold body_of. rewrite Hv. reflexivity.
  - intros method payload. cbn [verb_request req_headers].
    rewrite header_value_spread.
    destruct (header_written (js "Content-Type") (opt_headers o)); reflexivity.
Qed.

(** X17: [apiClient.download].  It sends the request to the URL of the
    endpoint with the options as they are: no query string, no default
    header.  When the response it gets is not OK it throws the [ApiError]
    that names the status, and saves nothing; when it is OK it saves the
    body under the file name it was given, and returns. *)
Theorem apiClient_download_settles {P} (endpoint filename : jsstring)
    (o : RequestOptions) (w w1 : World P) (response : Response) :
  fetchWithRetry (API_URL env ++ endpoint) o w = (w1, Ret response) ->
  (ok response = false ->
   apiClient_download endpoint filename o w
   = (w1, Throw (ApiError (js "Download failed: HTTP " ++ decimal (status response))
                          (Some (status response)) NoData)))
  /\ (ok response = true ->
      forall blob, snd (Response_blob response) = inl blob ->
        apiClient_download endpoint filename o w
        = (mk_world (page w1) (trace w1 ++ [EvDownload (FromBlob blob) filename])
                    (calls w1),
           Ret tt))
  /\ begins (apiClient_download endpoint filename o) w
            [EvFetch (mk_request (API_URL env ++ endpoint) (opt_method o)
                                 (opt_headers o) (opt_body o))].
Proof.
  intros Hfetch. unfold apiClient_download. split; [|split].
  - intros Hok. unfold mbind, M_bind, bind. rewrite Hfetch, Hok. reflexivity.
  - intros Hok blob Hblob. unfold mbind, M_bind, bind.
    rewrite Hfetch, Hok. cbn [negb]. rewrite Hblob. reflexivity.
  - apply begins_bind; [apply (begins_fetchWithRetry (API_URL env ++ endpoint) o)|].
    intros r. destruct (negb (ok r)); [grows_tac|].
    destruct (snd (Response_blob r)); grows_tac.
Qed.

(** X18: an [ApiError] of [apiRequest] carries a status exactly when a
    response arrived.  With a status, the first call of [fetch] that was
    not rejected, within the retries, resolved with a response of that
    status, which is not OK; the data of the error is what the code read
    as the body of that response, the parsed JSON or else the text, and the
    message is the one picked from it.  Without a status, every call of
    [fetch] was rejected, and the data is the last error. *)
Theorem apiRequest_error_status {P} (endpoint : jsstring)
    (options : RequestOptions) (w : World P) (message : jsstring)
    (code : option N) (d : api_data) :
  snd (apiRequest endpoint options w) = Throw (ApiError message code d) ->
  let req := fetch_request (request_url endpoint options) (request_options options) in
  match code with
  | Some c =>
      exists k response errorData,
        (k <= retry_of options)%nat
        /\ net env (calls w + k) req = Resolves response
        /\ (forall i, (i < k)%nat ->
               exists e, net env (calls w + i) req = Rejects e)
        /\ status response = c /\ ok response = false
        /\ (forall w0 : World P,
               read_errorData response w0 = (w0, Ret errorData))
        /\ match snd (Response_json response) with
           | inl v => errorData = v
           | inr _ => exists text, errorData = JString text
           end
        /\ d = DataValue errorData
        /\ error_message errorData response = Some message
  | None =>
      (forall i, (i <= retry_of options)%nat ->
                 exists e, net env (calls w + i) req = Rejects e)
      /\ exists last, net env (calls w + retry_of options) req = Rejects last
                      /\ d = DataError last
  end.
Proof.
  intros H req. rewrite apiRequest_unfold in H.
  unfold mbind at 1, M_bind at 1, bind at 1 in H.
  pose proof (retry_loop_result (P := P) req (retry_of options)
                (retryDelay_of options) (S (retry_of options)) 0%nat None w) as Hr.
  cbn zeta in Hr.
  change (retry_loop req (retry_of options) (retryDelay_of options)
            (S (retry_of options)) 0 None w)
    with (fetchWithRetry (request_url endpoint options) (request_options options) w)
    in Hr.
  destruct (fetchWithRetry (request_url endpoint options) (request_options options) w)
    as [w1 [response|ex| |]]; cbn [snd fst] in *; try contradiction;
    try discriminate H.
  - destruct Hr as (k & Hk & _ & Hres & Hrej).
    destruct (ok response) eqn:Hok; cbn [negb] in H.
    + unfold try_catch, await_json in H.
      destruct (snd (Response_json response)); discriminate H.
    + unfold mbind at 1, M_bind at 1, bind at 1 in H.
      assert (Hread : exists errorData,
                 (forall w0 : World P,
                    read_errorData response w0 = (w0, Ret errorData))
                 /\ match snd (Response_json response) with
                    | inl v => errorData = v
                    | inr _ => exists text, errorData = JString text
                    end).
      { unfold read_errorData in *.
        destruct (Response_json response) as [r' [v|e]].
        - exists v. split; [reflexivity|reflexivity].
        - unfold Response_text in *.
          destruct (consume r') as [r'' [text|]].
          + exists (JString text). split; [reflexivity|]. exists text. reflexivity.
          + discriminate H. }
      destruct Hread as (errorData & Hread & Hbody).
      rewrite (Hread w1), apiRequest_throws in H. cbn [snd] in H.
      destruct (error_message errorData response) as [msg|] eqn:Emsg;
        [|discriminate H].
      inversion H. subst. exists k, response, errorData.
      split; [lia|]. repeat split; auto.
  - destruct Hr as (_ & Hrej & le & Hex & e & He & Hle). subst le ex.
    inversion H. subst. split.
    + intros i Hi. apply Hrej. lia.
    + exists e. split; [exact He|reflexivity].
Qed.

(** ** The list operations of [useListData] *)

Lemma lookup_member_none (k : jsstring) (item : Item) :
  lookup_member k item = None -> Forall (fun kv => fst kv <> k) item.
Proof.
  induction item as [|[k' v] item IH]; intros H; [constructor|].
  cbn [lookup_member] in H. destruct (lookup_member k item); [discriminate|].
  constructor; [|apply IH; reflexivity].
  cbn [fst]. intros ->. unfold jsstring_eqb in H.
  rewrite bool_decide_eq_true_2 in H by reflexivity. discriminate H.
Qed.

Lemma lookup_set_member_other (k k' : jsstring) (v : json) (item : Item) :
  k' <> k -> lookup_member k (set_member k' v item) = lookup_member k item.
Proof.
  intros Hne. induction item as [|[k0 v0] item IH]; cbn [set_member lookup_member].
  - unfold jsstring_eqb. rewrite bool_decide_eq_false_2 by exact Hne. reflexivity.
  - destruct (jsstring_eqb k0 k') eqn:E.
    + apply jsstring_eqb_eq in E. subst k0. cbn [lookup_member].
      destruct (lookup_member k item); [reflexivity|].
      unfold jsstring_eqb. rewrite bool_decide_eq_false_2 by exact Hne. reflexivity.
    + cbn [lookup_member]. rewrite IH. reflexivity.
Qed.

(** Setting a member of an object, whose keys are distinct. *)
Lemma lookup_set_member_same (k : jsstring) (v : json) (item : Item) :
  NoDup (List.map fst item) ->
  lookup_member k (set_member k v item) = Some v
  /\ NoDup (List.map fst (set_member k v item)).
Proof.
  induction item as [|[k0 v0] item IH]; intros Hnd; cbn [set_member].
  - cbn [lookup_member List.map fst]. unfold jsstring_eqb.
    rewrite bool_decide_eq_true_2 by reflexivity.
    split; [reflexivity|]. constructor; [apply not_elem_of_nil|constructor].
  - cbn [List.map fst] in Hnd. apply NoDup_cons in Hnd as [Hin Hnd].
    destruct (jsstring_eqb k0 k) eqn:E.
    + apply jsstring_eqb_eq in E. subst k0. cbn [lookup_member List.map fst].
      assert (Hnone : lookup_member k item = None).
      { clear -Hin. induction item as [|[k1 v1] item IH]; [reflexivity|].
        cbn [List.map fst] in Hin. apply not_elem_of_cons in Hin as [Hne Hin].
        cbn [lookup_member]. rewrite (IH Hin). unfold jsstring_eqb.
        rewrite bool_decide_eq_false_2 by congruence. reflexivity. }
      rewrite Hnone. unfold jsstring_eqb.
      rewrite bool_decide_eq_true_2 by reflexivity.
      split; [reflexivity|]. apply NoDup_cons. split; assumption.
    + destruct (IH Hnd) as [Hl Hn]. cbn [lookup_member List.map fst].
      rewrite Hl. split; [reflexivity|]. apply NoDup_cons. split; [|exact Hn].
      intros Hin'. apply Hin. clear -Hin' E.
      induction item as [|[k1 v1] item IH].
      * cbn in Hin'. apply list_elem_of_singleton in Hin'. subst k0.
        unfold jsstring_eqb in E. rewrite bool_decide_eq_true_2 in E by reflexivity.
        discriminate E.
      * cbn [set_member] in Hin'. destruct (jsstring_eqb k1 k) eqn:E1.
        -- apply jsstring_eqb_eq in E1. subst k1. cbn [List.map fst] in *.
           apply elem_of_cons in Hin' as [->|Hin'].
           ++ unfold jsstring_eqb in E.
              rewrite bool_decide_eq_true_2 in E by reflexivity. discriminate E.
           ++ apply elem_of_cons. right. exact Hin'.
        -- cbn [List.map fst] in *. apply elem_of_cons in Hin' as [->|Hin'].
           ++ apply elem_of_cons. left. reflexivity.
           ++ apply elem_of_cons. right. apply IH, Hin'.
Qed.

Lemma set_member_keeps_NoDup (k : jsstring) (v : json) (item : Item) :
  NoDup (List.map fst item) -> NoDup (List.map fst (set_member k v item)).
Proof. intros H. apply (lookup_set_member_same k v item H). Qed.

(** A member of the spread [{ ...item, ...updates }]: the value [updates]
    gives it, or else the value [item] gives it. *)
Lemma lookup_spread (k : jsstring) (updates item : Item) :
  NoDup (List.map fst item) ->
  lookup_member k (spread item updates)
  = match lookup_member k updates with
    | Some v => Some v
    | None => lookup_member k item
    end.
Proof.
  unfold spread. revert item.
  induction updates as [|[k' v] updates IH]; intros item Hnd; [reflexivity|].
  cbn [fold_left fst snd lookup_member].
  rewrite IH by (apply set_member_keeps_NoDup, Hnd).
  destruct (lookup_member k updates); [reflexivity|].
  destruct (jsstring_eqb k' k) eqn:E.
  - apply jsstring_eqb_eq in E. subst k'.
    apply (lookup_set_member_same k v item Hnd).
  - apply lookup_set_member_other. intros ->. unfold jsstring_eqb in E.
    rewrite bool_decide_eq_true_2 in E by reflexivity. discriminate E.
Qed.

Lemma lookup_spread_other (k : jsstring) (updates item : Item) :
  lookup_member k updates = None ->
  lookup_member k (spread item updates) = lookup_member k item.
Proof.
  intros H. apply lookup_member_none in H. unfold spread. revert item.
  induction H as [|[k' v] updates Hk _ IH]; intros item; [reflexivity|].
  cbn [fold_left fst snd]. rewrite IH. apply lookup_set_member_other, Hk.
Qed.

Lemma has_id_spread (id : jsstring) (updates item : Item) :
  lookup_member (js "id") updates = None ->
  has_id id (spread item updates) = has_id id item.
Proof. intros H. unfold has_id. rewrite lookup_spread_other by exact H. reflexivity. Qed.

Lemma filter_none {A} (f : A -> bool) (l : list A) :
  Forall (fun x => f x = false) l -> List.filter (fun x => negb (f x)) l = l.
Proof.
  intros H. apply filter_all. apply forallb_forall. intros x Hx.
  rewrite Forall_forall in H. rewrite (H x); [reflexivity|].
  apply list_elem_of_In, Hx.
Qed.

Lemma removeItem_select (id : jsstring) (items : list Item)
    (select : Item -> bool) :
  (forall it, select it = true -> has_id id it = false) ->
  List.filter select (removeItem id items) = List.filter select items.
Proof.
  intros Hs. unfold removeItem. induction items as [|it items IH];
    [reflexivity|].
  cbn [List.filter]. destruct (has_id id it) eqn:E; cbn [negb List.filter].
  - rewrite IH. destruct (select it) eqn:E'; [|reflexivity].
    rewrite (Hs it E') in E. discriminate E.
  - rewrite IH. reflexivity.
Qed.

(** X19: the list operations of [useListData].  Removing an id leaves no
    item with that id and keeps the other items, all of them and in their
    order: what is left is a sublist of the list, as long as the list less
    its items with the id, and a selection of items without the id reads
    the same in the list and in what is left of it; adding an
    item with an id that is new and removing that id gives the list back;
    an update keeps the length of the list, changes nothing when no item has
    the id, and gives the items with the id the members of the update,
    keeping their other members; with an update that has no [id] member
    every item keeps its id, so that what a removal leaves is not changed by
    an update before it. *)
Theorem useListData_updaters (id : jsstring) (items : list Item) :
  (forall item,
     has_id id item = true -> Forall (fun it => has_id id it = false) items ->
     removeItem id (addItem item items) = items)
  /\ Forall (fun it => has_id id it = false) (removeItem id items)
  /\ sublist (removeItem id items) items
  /\ (length (removeItem id items) + length (List.filter (has_id id) items)
      = length items)%nat
  /\ (forall select : Item -> bool,
        (forall it, select it = true -> has_id id it = false) ->
        List.filter select (removeItem id items) = List.filter select items)
  /\ (forall id', id' <> id ->
        List.filter (has_id id') (removeItem id items) = List.filter (has_id id') items)
  /\ (forall updates, length (updateItem id updates items) = length items)
  /\ (forall updates,
        Forall (fun it => has_id id it = false) items ->
        updateItem id updates items = items)
  /\ (forall updates k,
        Forall (fun it => NoDup (List.map fst it)) items ->
        List.map (lookup_member k) (updateItem id updates items)
        = List.map (fun it => if has_id id it
                              then match lookup_member k updates with
                                   | Some v => Some v
                                   | None => lookup_member k it
                                   end
                              else lookup_member k it) items)
  /\ (forall updates id',
        lookup_member (js "id") updates = None ->
        List.map (has_id id') (updateItem id updates items)
        = List.map (has_id id') items)
  /\ (forall updates,
        lookup_member (js "id") updates = None ->
        removeItem id (updateItem id updates items) = removeItem id items).
Proof.
  pose proof (removeItem_select id items) as Hsel.
  split; [|split; [|split; [|split; [|split; [|split; [|split; [|split; [|split; [|split]]]]]]]]].
  - intros item Hid Hnone. unfold removeItem, addItem.
    rewrite List.filter_app. cbn [List.filter]. rewrite Hid. cbn [negb].
    rewrite app_nil_r. apply filter_none, Hnone.
  - unfold removeItem. apply Forall_forall. intros it Hit.
    apply list_elem_of_In, filter_In in Hit as [_ Hit].
    apply negb_true_iff, Hit.
  - clear Hsel. unfold removeItem. induction items as [|it items IH]; [constructor|].
    cbn [List.filter]. destruct (negb (has_id id it)).
    + apply sublist_skip, IH.
    + apply sublist_cons, IH.
  - clear Hsel. unfold removeItem. induction items as [|it items IH]; [reflexivity|].
    cbn [List.filter]. destruct (has_id id it); cbn [negb length]; lia.
  - exact Hsel.
  - intros id' Hne. apply Hsel. intros it E'.
    destruct (has_id id it) eqn:E; [|reflexivity].
    exfalso. unfold has_id in E, E'.
    destruct (lookup_member (js "id") it) as [[ | | |s| | ]|]; try discriminate.
    apply jsstring_eqb_eq in E, E'. congruence.
  - intros updates. unfold updateItem. apply List.length_map.
  - clear Hsel. intros updates Hnone. unfold updateItem.
    induction Hnone as [|it items Hit _ IH]; [reflexivity|].
    cbn [List.map]. rewrite Hit, IH. reflexivity.
  - clear Hsel. intros updates k Hnd. unfold updateItem. rewrite map_map.
    induction Hnd as [|it items Hit _ IH]; [reflexivity|].
    cbn [List.map]. rewrite IH. f_equal.
    destruct (has_id id it); [|reflexivity]. apply lookup_spread, Hit.
  - intros updates id' Hu. unfold updateItem. rewrite map_map.
    apply map_ext. intros it. destruct (has_id id it); [|reflexivity].
    apply has_id_spread, Hu.
  - clear Hsel. intros updates Hu. unfold removeItem, updateItem.
    induction items as [|it items IH]; [reflexivity|].
    cbn [List.map List.filter]. rewrite IH.
    destruct (has_id id it) eqn:E.
    + rewrite has_id_spread by exact Hu. rewrite E. reflexivity.
    + rewrite E. reflexivity.
Qed.

(** ** The API base URL *)

(** X20: the API base URL.  The constant [API_URL] is what [getApiUrl]
    returns, on the server and in a browser, and it is never empty: in the
    packaged app, served from port 3002, it is the backend on port 8001
    whatever the environment names; elsewhere it is the environment's
    [NEXT_PUBLIC_API_URL], and the backend on port 8000 when that is unset
    or empty. *)
Theorem API_URL_is_getApiUrl (p : Platform) :
  constants_API_URL p = getApiUrl p
  /\ getApiUrl p <> []
  /\ (has_window p = true -> location_port p = js "3002" ->
      getApiUrl p = js "http://localhost:8001/api")
  /\ (has_window p = false \/ location_port p <> js "3002" ->
      getApiUrl p = match NEXT_PUBLIC_API_URL p with
                    | Some (c :: url) => c :: url
                    | _ => js "http://localhost:8000/api"
                    end)
  /\ endpoint_jobs (API_ENDPOINTS p) = getApiUrl p ++ js "/jobs"
  /\ endpoint_datasets (API_ENDPOINTS p) = getApiUrl p ++ js "/datasets".
Proof.
  assert (E : constants_API_URL p = getApiUrl p).
  { unfold constants_API_URL, getApiUrl. destruct (has_window p); reflexivity. }
  assert (Henv : env_url_or (js "http://localhost:8000/api") p
                 = match NEXT_PUBLIC_API_URL p with
                   | Some (c :: url) => c :: url
                   | _ => js "http://localhost:8000/api"
                   end).
  { unfold env_url_or. destruct (NEXT_PUBLIC_API_URL p) as [[|c url]|]; reflexivity. }
  split; [exact E|]. split; [|split; [|split; [|split]]].
  - unfold getApiUrl. rewrite !Henv.
    destruct (has_window p), (jsstring_eqb (location_port p) (js "3002")),
      (NEXT_PUBLIC_API_URL p) as [[|c url]|]; discriminate.
  - intros Hw Hp. unfold getApiUrl. rewrite Hw, Hp. reflexivity.
  - intros H. unfold getApiUrl. rewrite Henv. destruct (has_window p); [|reflexivity].
    destruct H as [H|H]; [discriminate H|].
    cbn [negb]. unfold jsstring_eqb. rewrite bool_decide_eq_false_2 by exact H.
    reflexivity.
  - unfold API_ENDPOINTS. cbn [endpoint_jobs]. rewrite E. reflexivity.
  - unfold API_ENDPOINTS. cbn [endpoint_datasets]. rewrite E. reflexivity.
Qed.

(** ** Leaving a page *)

Lemma poll_ticks_idle (ids : list nat) (p : Polling) :
  active (page_timers p) = [] ->
  poll_run p (List.map Tick ids) = p.
Proof.
  intros H. induction ids as [|id ids IH]; [reflexivity|].
  cbn [List.map poll_run fold_left poll_step]. unfold find_timer. rewrite H.
  cbn [List.find]. exact IH.
Qed.

(** X21: no interval outlives its page.  At any time the job page, and a
    component that uses [useApiPolling], has at most one interval set; when
    it unmounts, the clean-up of the effect clears it, no interval is left,
    and no tick makes a call any more. *)
Theorem unmount_clears_the_interval (inputs : list poll_input)
    (hook_inputs : list hook_input) :
  let p := poll_run polling_init inputs in
  let h := hook_run hook_init hook_inputs in
  (length (active (page_timers p)) <= 1)%nat
  /\ active (page_timers (poll_step p Unmount)) = []
  /\ (forall ids,
        poll_calls (poll_run (poll_step p Unmount) (List.map Tick ids))
        = poll_calls p)
  /\ (length (active (hook_timers h)) <= 1)%nat
  /\ active (hook_timers (hook_step h HookUnmount)) = []
  /\ (forall ids,
        executes (hook_run (hook_step h HookUnmount) (List.map HookTick ids))
        = executes h).
Proof.
  intros p h.
  pose proof (polling_inv_run inputs polling_init polling_inv_init) as Hp.
  pose proof (hook_inv_run hook_inputs hook_init hook_inv_init) as Hh.
  fold p in Hp. fold h in Hh.
  pose proof (polling_inv_step p Unmount Hp) as Hp'.
  pose proof (hook_inv_step h HookUnmount Hh) as Hh'.
  assert (Ep : active (page_timers (poll_step p Unmount)) = []).
  { unfold polling_inv in Hp'. cbn [poll_step mounted] in Hp'.
    destruct Hp' as [Hp' _]. exact Hp'. }
  assert (Eh : active (hook_timers (hook_step h HookUnmount)) = []).
  { unfold hook_inv in Hh'. cbn [hook_step hook_deps] in Hh'.
    destruct Hh' as [Hh' _]. exact Hh'. }
  split; [|split; [exact Ep|split; [|split; [|split; [exact Eh|]]]]].
  - unfold polling_inv in Hp. destruct (mounted p).
    + destruct Hp as (id & _ & -> & _). cbn. lia.
    + destruct Hp as [-> _]. cbn. lia.
  - intros ids. rewrite poll_ticks_idle by exact Ep.
    cbn [poll_step]. unfold effect_cleanup.
    destruct (effect_interval p); reflexivity.
  - unfold hook_inv in Hh. destruct (hook_deps h) as [[[|] i]|].
    + destruct Hh as (id & _ & -> & _). cbn. lia.
    + destruct Hh as [-> _]. cbn. lia.
    + destruct Hh as [-> _]. cbn. lia.
  - intros ids. rewrite hook_ticks_idle by exact Eh.
    cbn [hook_step]. unfold hook_run_cleanup.
    destruct (hook_cleanup h); [|reflexivity].
    destruct (intervalRef h); reflexivity.
Qed.

(** ** Windows line ends *)

Lemma trimStart_split (s : jsstring) :
  exists lead, s = lead ++ trimStart s /\ blank lead = true.
Proof.
  induction s as [|c r (lead & E & B)]; [exists []; auto|].
  cbn [trimStart]. destruct (isWhiteSpace c) eqn:Ec.
  - exists (c :: lead). cbn [app blank forallb]. rewrite Ec. cbn [andb].
    split; [f_equal; exact E|exact B].
  - exists []. auto.
Qed.

Lemma trimStart_head (s : jsstring) :
  trimStart s = [] \/ exists c r, trimStart s = c :: r /\ isWhiteSpace c = false.
Proof.
  induction s as [|c r IH]; [left; reflexivity|].
  cbn [trimStart]. destruct (isWhiteSpace c) eqn:Ec; [exact IH|].
  right. exists c, r. auto.
Qed.

Lemma trimEnd_split (s : jsstring) :
  exists trail, s = trimEnd s ++ trail /\ blank trail = true.
Proof.
  destruct (trimStart_split (rev s)) as (lead & E & B).
  exists (rev lead). split; [|rewrite blank_rev; exact B].
  unfold trimEnd. rewrite <- rev_app_distr, <- E, rev_involutive. reflexivity.
Qed.

Lemma trimEnd_last (s : jsstring) :
  trimEnd s = [] \/ exists x d, trimEnd s = x ++ [d] /\ isWhiteSpace d = false.
Proof.
  unfold trimEnd. destruct (trimStart_head (rev s)) as [->|(c & r & -> & Hc)].
  - left. reflexivity.
  - right. exists (rev r), c. auto.
Qed.

Lemma trim_blank (s : jsstring) : blank s = true -> trim s = [].
Proof.
  intros H. pose proof (trim_empty s) as E. rewrite H in E.
  destruct (trim s); [reflexivity|discriminate E].
Qed.

Lemma blank_app (a b : jsstring) : blank (a ++ b) = blank a && blank b.
Proof. apply forallb_app. Qed.

Lemma trim_lead (lead s : jsstring) : blank lead = true -> trim (lead ++ s) = trim s.
Proof. intros H. unfold trim. rewrite trimStart_blank_app by exact H. reflexivity. Qed.

Lemma trim_trail (s trail : jsstring) : blank trail = true -> trim (s ++ trail) = trim s.
Proof.
  intros H. destruct (nonblank s) eqn:E.
  - unfold trim. rewrite trimStart_app by exact E.
    apply trimEnd_app_blank, H.
  - assert (Hs : blank s = true) by (rewrite blank_nonblank, E; reflexivity).
    rewrite (trim_blank s Hs). apply trim_blank.
    rewrite blank_app, Hs, H. reflexivity.
Qed.

(** A text is its trimmed text, with white space in front and behind. *)
Lemma trim_split (s : jsstring) :
  exists lead trail,
    s = lead ++ trim s ++ trail /\ blank lead = true /\ blank trail = true.
Proof.
  destruct (trimStart_split s) as (lead & E & B).
  destruct (trimEnd_split (trimStart s)) as (trail & E' & B').
  exists lead, trail. split; [|auto]. unfold trim. rewrite <- E'. exact E.
Qed.

(** A trimmed text is empty, or it starts and ends with characters that
    are no white space. *)
Lemma trim_ends (s : jsstring) :
  trim s = []
  \/ (exists c r, trim s = c :: r /\ isWhiteSpace c = false)
     /\ (exists x d, trim s = x ++ [d] /\ isWhiteSpace d = false).
Proof.
  unfold trim. destruct (trimEnd_last (trimStart s)) as [E|Hlast]; [left; exact E|].
  right. split; [|exact Hlast].
  destruct (trimStart_head s) as [E|(c & r & E & Hc)].
  - rewrite E. destruct Hlast as (x & d & Hx & _). rewrite E in Hx.
    destruct x; discriminate Hx.
  - destruct (trimEnd_split (trimStart s)) as (trail & E' & B').
    destruct (trimEnd (trimStart s)) as [|c' r'] eqn:Et.
    + destruct Hlast as (x & d & Hx & _). destruct x; discriminate Hx.
    + exists c', r'. split; [reflexivity|].
      rewrite E in E'. cbn [app] in E'. inversion E'. subst c'. exact Hc.
Qed.

Lemma crlf_app (a b : jsstring) : crlf (a ++ b) = crlf a ++ crlf b.
Proof. apply flat_map_app. Qed.

Lemma blank_crlf (s : jsstring) : blank (crlf s) = blank s.
Proof.
  induction s as [|c r IH]; [reflexivity|].
  change (crlf (c :: r)) with ((if c =? LF then [CR; LF] else [c]) ++ crlf r).
  rewrite blank_app, IH. destruct (c =? LF) eqn:E.
  - apply N.eqb_eq in E. subst c. reflexivity.
  - cbn [blank forallb]. rewrite andb_true_r. reflexivity.
Qed.

Lemma crlf_other (c : N) (r : jsstring) :
  isWhiteSpace c = false -> crlf (c :: r) = c :: crlf r.
Proof.
  intros H. change (crlf (c :: r)) with ((if c =? LF then [CR; LF] else [c]) ++ crlf r).
  destruct (c =? LF) eqn:E; [|reflexivity].
  apply N.eqb_eq in E. subst c. discriminate H.
Qed.

(** Trimming a text with Windows line ends gives the trimmed text, with
    Windows line ends. *)
Lemma trim_crlf (s : jsstring) : trim (crlf s) = crlf (trim s).
Proof.
  destruct (trim_split s) as (lead & trail & E & Bl & Bt).
  rewrite E at 1. rewrite !crlf_app.
  rewrite trim_lead by (rewrite blank_crlf; exact Bl).
  rewrite trim_trail by (rewrite blank_crlf; exact Bt).
  destruct (trim_ends s) as [->|[(c & r & Ec & Hc) (x & d & Ex & Hd)]];
    [reflexivity|].
  unfold trim at 1.
  assert (Es : trimStart (crlf (trim s)) = crlf (trim s)).
  { rewrite Ec, crlf_other by exact Hc. cbn [trimStart]. rewrite Hc. reflexivity. }
  rewrite Es, Ex, crlf_app. rewrite (crlf_other d []) by exact Hd.
  change (crlf []) with (@nil N).
  rewrite trimEnd_app by (cbn [nonblank existsb]; rewrite Hd; reflexivity).
  f_equal. unfold trimEnd. cbn [rev app trimStart]. rewrite Hd. reflexivity.
Qed.

Lemma line_feeds_crlf (s : jsstring) : line_feeds (crlf s) = line_feeds s.
Proof.
  induction s as [|c r IH]; [reflexivity|].
  change (crlf (c :: r)) with ((if c =? LF then [CR; LF] else [c]) ++ crlf r).
  rewrite line_feeds_app, IH, line_feeds_cons. f_equal.
  rewrite (N.eqb_sym LF c). destruct (c =? LF) eqn:E; [reflexivity|].
  unfold line_feeds. cbn [List.filter]. rewrite (N.eqb_sym LF c), E. reflexivity.
Qed.

Lemma split_crlf (s : jsstring) : split LF (crlf s) = with_cr (split LF s).
Proof.
  induction s as [|c r IH]; [reflexivity|].
  pose proof (split_not_nil LF r) as Hne.
  change (crlf (c :: r)) with ((if c =? LF then [CR; LF] else [c]) ++ crlf r).
  cbn [split]. destruct (c =? LF) eqn:E.
  - cbn [app split]. change (CR =? LF) with false. rewrite N.eqb_refl.
    cbv iota. rewrite IH.
    destruct (split LF r) as [|h t]; [contradiction|]. reflexivity.
  - cbn [app split]. rewrite E, IH.
    destruct (split LF r) as [|h t]; [contradiction|].
    destruct t as [|h' t]; reflexivity.
Qed.

Lemma nonblank_with_cr (lines : list jsstring) :
  length (List.filter nonblank (with_cr lines))
  = length (List.filter nonblank lines).
Proof.
  induction lines as [|l lines IH]; [reflexivity|].
  destruct lines as [|l' lines]; [reflexivity|].
  change (with_cr (l :: l' :: lines)) with ((l ++ [CR]) :: with_cr (l' :: lines)).
  cbn [List.filter]. rewrite nonblank_app.
  change (nonblank [CR]) with false. rewrite orb_false_r.
  destruct (nonblank l); cbn [length]; rewrite IH; reflexivity.
Qed.

(** X22: Windows line ends do not change a count.  For a file that is no
    [json] file, the samples counted in the text with a carriage return in
    front of every line feed are the samples counted in the text without:
    the lines less the header for [csv], the lines that are not blank for
    [jsonl], 0 for any other extension. *)
Theorem crlf_counts_the_same (file file' : File) (content : jsstring) :
  file_name file' = file_name file ->
  file_text file = Some content ->
  file_text file' = Some (crlf content) ->
  file_ext (file_name file) <> Some (js "json") ->
  parseFileForSampleCount file' = parseFileForSampleCount file.
Proof.
  intros Hname Htext Htext' Hjson. unfold parseFileForSampleCount.
  rewrite Htext, Htext', Hname. f_equal. unfold sample_count.
  rewrite (ext_is_false _ "json" Hjson).
  destruct (ext_is (file_ext (file_name file)) "jsonl").
  - rewrite !filter_trim_nonblank, trim_crlf, split_crlf, nonblank_with_cr.
    reflexivity.
  - destruct (ext_is (file_ext (file_name file)) "csv"); [|reflexivity].
    cbv zeta. rewrite trim_crlf, !split_length, line_feeds_crlf. reflexivity.
Qed.

(** ** The job page: a download that fails *)

(** X23: a download from the job page that fails.  The promise of the
    handler is never rejected and the handler leaves the page as it is.
    When the response is not OK, when the request is rejected, and when the
    body of an OK response cannot be read, it saves nothing: it logs the
    error, shows the alert that asks to try again, and returns.  While the
    request never settles it waits, and the user is told nothing. *)
Theorem handleDownloadCheckpoint_failure (checkpointId : jsstring) (step : N)
    (w : World JobDetailPage) :
  let req := checkpoint_request (page w) checkpointId in
  let run := handleDownloadCheckpoint checkpointId step w in
  let failed := (mk_world (page w)
                   (trace w ++ [EvFetch req;
                                EvConsoleError (js "Error downloading checkpoint:");
                                EvAlert (js "Failed to download checkpoint. Please try again.")])
                   (S (calls w)), Ret tt) in
  (forall e, snd run <> Throw e)
  /\ snd run <> OutOfModel
  /\ page (fst run) = page w
  /\ (forall r, net env (calls w) req = Resolves r -> ok r = false ->
        run = failed)
  /\ (forall e, net env (calls w) req = Rejects e -> run = failed)
  /\ (forall r e, net env (calls w) req = Resolves r -> ok r = true ->
        snd (Response_blob r) = inr e -> run = failed)
  /\ (net env (calls w) req = NeverSettles ->
      run = (mk_world (page w) (trace w ++ [EvFetch req]) (S (calls w)), Hang)).
Proof.
  intros req run failed. subst req run failed.
  assert (C : catches (handleDownloadCheckpoint checkpointId step)).
  { unfold handleDownloadCheckpoint. apply catches_try_catch.
    - apply in_model_mbind; [apply in_model_returns, returns_get_page|]. intros p.
      apply in_model_mbind; [apply in_model_fetch|]. intros r.
      apply in_model_mbind.
      + destruct (negb (ok r)); [apply in_model_throw|].
        apply in_model_returns, returns_mret.
      + intros _. destruct (snd (Response_blob r));
          [apply in_model_returns, returns_emit|apply in_model_throw].
    - intros e. apply catches_returns, returns_failure. }
  destruct (catches_never_rejects _ w C) as [C1 C2].
  split; [exact C1|]. split; [exact C2|]. clear C C1 C2.
  split; [|split; [|split; [|split]]].
  - apply (keeps_silent (fun p => p = page w)); [|reflexivity].
    clear w. intros w.
    unfold handleDownloadCheckpoint, try_catch, mbind, M_bind, bind, get_page, fetch.
    destruct (net env (calls w) _) as [r|e| ]; [|reflexivity|reflexivity].
    destruct (ok r); cbn [negb]; [|reflexivity].
    unfold mret, M_ret, ret. destruct (snd (Response_blob r)); reflexivity.
  - intros r Hnet Hok.
    unfold handleDownloadCheckpoint, try_catch, mbind, M_bind, bind, get_page, fetch.
    fold (checkpoint_request (page w) checkpointId). rewrite Hnet, Hok.
    cbn [negb]. unfold throw, console_error, alert, emit. cbn [page trace calls].
    rewrite <- !app_assoc. reflexivity.
  - intros e Hnet.
    unfold handleDownloadCheckpoint, try_catch, mbind, M_bind, bind, get_page, fetch.
    fold (checkpoint_request (page w) checkpointId). rewrite Hnet.
    unfold console_error, alert, emit. cbn [page trace calls].
    rewrite <- !app_assoc. reflexivity.
  - intros r e Hnet Hok Hblob.
    unfold handleDownloadCheckpoint, try_catch, mbind, M_bind, bind, get_page, fetch.
    fold (checkpoint_request (page w) checkpointId). rewrite Hnet, Hok.
    cbn [negb]. unfold mret, M_ret, ret. rewrite Hblob.
    unfold throw, console_error, alert, emit. cbn [page trace calls].
    rewrite <- !app_assoc. reflexivity.
  - intros Hnet.
    unfold handleDownloadCheckpoint, try_catch, mbind, M_bind, bind, get_page, fetch.
    fold (checkpoint_request (page w) checkpointId). rewrite Hnet. reflexivity.
Qed.

(** ** The state of [useApi] *)

Lemma api_inv_step (h : UseApi) (i : api_input) :
  api_inv (api_state h) -> api_inv (api_state (api_step h i)).
Proof.
  unfold api_inv. intros H.
  destruct i as [ |[data|t] ot| | ]; cbn [api_step].
  - cbn. intros E. destruct (E eq_refl).
  - unfold execute_settles, execute_catch. destruct (isMountedRef h); [|exact H].
    destruct ot as [t|]; cbn; [auto|]. intros E. destruct (E eq_refl).
  - unfold execute_settles, execute_catch. destruct (isMountedRef h); [|exact H].
    cbn. auto.
  - cbn. auto.
  - exact H.
Qed.

Lemma api_mounted_step (h : UseApi) (i : api_input) :
  isMountedRef h = false -> isMountedRef (api_step h i) = false.
Proof.
  intros H. destruct i as [ |[data|t] ot| | ]; cbn [api_step]; try exact H;
    try reflexivity;
    unfold execute_settles, execute_catch; rewrite H; exact H.
Qed.

Lemma api_inv_run (inputs : list api_input) (h : UseApi) :
  api_inv (api_state h) -> api_inv (api_state (api_run h inputs)).
Proof.
  revert h. induction inputs as [|i inputs IH]; intros h H; [exact H|].
  cbn [api_run fold_left]. apply IH, api_inv_step, H.
Qed.

Lemma api_mounted_run (inputs : list api_input) (h : UseApi) :
  isMountedRef h = false -> isMountedRef (api_run h inputs) = false.
Proof.
  revert h. induction inputs as [|i inputs IH]; intros h H; [exact H|].
  cbn [api_run fold_left]. apply IH, api_mounted_step, H.
Qed.

(** X24: the state of [useApi].  Whatever calls of [execute] start and
    settle, in whatever order, and whenever [reset] is called, the hook
    never shows an error together with data or with the loading flag: a
    call that starts clears the error, a call that fails clears the data.
    Once the component is unmounted, a call that settles changes no state
    and calls no callback, and its promise settles as [apiFunction] did. *)
Theorem useApi_state (immediate : bool) (inputs : list api_input) :
  let h := api_run (useApi_init immediate) inputs in
  api_inv (api_state h)
  /\ (state_loading (api_state h) = true -> state_error (api_state h) = None)
  /\ (forall r t more,
        let gone := api_run (useApi_unmount h) more in
        execute_settles r t gone = gone /\ execute_result r t gone = r).
Proof.
  intros h.
  assert (Hinv : api_inv (api_state h)).
  { apply api_inv_run. intros E. destruct (E eq_refl). }
  split; [exact Hinv|]. split.
  - intros Hl. destruct (state_error (api_state h)) eqn:E; [|reflexivity].
    destruct Hinv as [_ Hf]; [rewrite E; discriminate|]. congruence.
  - intros r t more gone.
    assert (Hm : isMountedRef gone = false)
      by (apply api_mounted_run; reflexivity).
    unfold execute_settles, execute_result, execute_catch. rewrite Hm.
    destruct r; split; reflexivity.
Qed.

End Properties.

(** * Concrete runs *)

(** ** The Job Controller *)

Lemma fire_follows_table_witness :
  store controller_t1 !! js "job-1" = Some job_t1
  /\ status_of (fst (fire controller_t1 (js "job-1") start)) (js "job-1")
     = Some running.
Proof.
  assert (H : store controller_t1 !! js "job-1" = Some job_t1)
    by (vm_compute; reflexivity).
  split; [exact H|].
  pose proof (fire_follows_table controller_t1 (js "job-1") start job_t1 H) as T.
  cbv zeta in T. destruct T as [T _].
  destruct (snd (fire controller_t1 (js "job-1") start)) as [j'|e] eqn:E.
  - destruct T as [Hedge ->]. inversion Hedge; reflexivity.
  - vm_compute in E. discriminate E.
Defined.

Lemma menu_offers_legal_actions_witness :
  In Pause (menu running) /\ exists s', edge running a_pause s'.
Proof.
  assert (H : In Pause (menu running)) by (simpl; auto).
  split; [exact H|].
  destruct (menu_offers_legal_actions running) as (_ & _ & _ & _ & _ & _ & _ & _ & L).
  exact (L Pause a_pause H eq_refl).
Defined.

(** Scenario A of the spec: a job is created pending, started, stopped; a
    further start fails with [InvalidState] and the job stays stopped. *)
Example scenario_A :
  let c1 := fst (fire controller_t1 (js "job-1") start) in
  let c2 := fst (fire c1 (js "job-1") stop) in
  status_of c1 (js "job-1") = Some running
  /\ status_of c2 (js "job-1") = Some stopped
  /\ snd (fire c2 (js "job-1") start) = inr (InvalidState stopped a_start)
  /\ status_of (fst (fire c2 (js "job-1") start)) (js "job-1") = Some stopped.
Proof. vm_compute. repeat split. Qed.

(** ** Data sets *)

Lemma csv_upload_counts_data_lines_witness :
  parseFileForSampleCount scenario_E_file = Resolved 3%Z.
Proof.
  exact (proj1 (csv_upload_counts_data_lines (rt := offline)
                  scenario_E_file (js "instruction,input,output")
                  [js "add,1 2,3"; js "negate,4,-4"; js "double,5,10"] [LF]
                  (ex_intro _ (js "train")
                     (ex_intro _ (js "csv") (conj eq_refl (conj eq_refl eq_refl))))
                  eq_refl eq_refl eq_refl eq_refl eq_refl)).
Defined.

(** A header line and two data lines, the second a single space: the claim
    counts two samples, the code one, since [trim] takes the last line
    away. *)
Lemma blank_last_line_not_counted :
  file_name blank_last_file = js "t" ++ js ".csv"
  /\ file_text blank_last_file
     = Some (join [LF] (js "text" :: [js "hello"; js " "]))
  /\ forallb no_lf (js "text" :: [js "hello"; js " "]) = true
  /\ parseFileForSampleCount blank_last_file = Resolved 1%Z
  /\ parseFileForSampleCount blank_last_file
     <> Resolved (Z.of_nat (length [js "hello"; js " "])).
Proof. vm_compute. repeat split. discriminate. Qed.

(** A [.JSON] file that holds an object, a [.jsonl] file of two rows, and
    a [.txt] file. *)
Lemma parseFileForSampleCount_total_witness :
  parseFileForSampleCount object_file = Resolved 1%Z
  /\ parseFileForSampleCount jsonl_file = Resolved 2%Z
  /\ parseFileForSampleCount text_file = Resolved 0%Z.
Proof.
  split; [|split].
  - destruct (parseFileForSampleCount_total object_file (js "{}") eq_refl)
      as (_ & _ & _ & H & _).
    apply (H (ex_intro _ (js "notes")
                (ex_intro _ (js "JSON") (conj eq_refl (conj eq_refl eq_refl))))
             (JObject [])); [reflexivity|discriminate].
  - destruct (parseFileForSampleCount_total jsonl_file
                (convertRowsToFormat (rt := offline) [tricky_row; tricky_row]
                   jsonl_format) eq_refl)
      as (_ & _ & _ & _ & _ & H & _).
    rewrite (H (ex_intro _ (js "rows")
                  (ex_intro _ (js "jsonl") (conj eq_refl (conj eq_refl eq_refl))))).
    vm_compute. reflexivity.
  - destruct (parseFileForSampleCount_total text_file (js "hello") eq_refl)
      as (_ & _ & _ & _ & _ & _ & H & _).
    apply (H (js "readme") (js "txt")); [reflexivity|reflexivity| | | ];
      discriminate.
Defined.

Lemma convert_then_count_witness :
  parseFileForSampleCount jsonl_file = Resolved 2%Z.
Proof.
  destruct (convert_then_count (rt := offline)
              [tricky_row; tricky_row] jsonl_format jsonl_file eq_refl eq_refl)
    as (_ & H & _).
  apply H. left. discriminate.
Defined.

(** The CSV text of one row whose field holds a line feed has three lines,
    and is counted as two samples. *)
Lemma csv_line_feed_miscounted :
  file_ext (file_name csv_file) = Some (format_name csv_format)
  /\ file_text csv_file
     = Some (convertRowsToFormat (rt := offline) [tricky_row] csv_format)
  /\ parseFileForSampleCount csv_file = Resolved 2%Z
  /\ parseFileForSampleCount csv_file
     <> Resolved (Z.of_nat (length [tricky_row])).
Proof. vm_compute. repeat split. discriminate. Qed.

(** ** The API client *)



(** An error body whose [detail] cannot be converted to a string: what is
    thrown is the TypeError of the conversion, no [ApiError]. *)
Example unprintable_detail :
  snd (apiRequest (rt := answers unprintable) (js "/jobs") no_options (start_of tt))
  = Throw to_primitive_error.
Proof. vm_compute. reflexivity. Qed.


(** A plain-text error body: the error is the TypeError of the second read. *)
Example text_error_body :
  snd (apiRequest (rt := answers bad_gateway) (js "/jobs") no_options (start_of tt))
  = Throw body_used_error.
Proof. vm_compute. reflexivity. Qed.

(** ** The jobs list *)

Lemma handleRetry_creates_new_job_witness :
  confirm_answer (answers created) retry_question = true
  /\ exists tr,
       trace (fst (handleRetry (rt := answers created) failed_job home))
       = [EvConfirm retry_question;
          EvFetch (retry_request (rt := answers created) failed_job)] ++ tr.
Proof.
  split; [reflexivity|].
  destruct (handleRetry_creates_new_job (rt := answers created) failed_job home)
    as (H & _).
  destruct (H eq_refl) as [tr E]. exists tr. exact E.
Defined.



(** A [checkpoints] that is a string: its last character is taken for the
    checkpoint, which has no [id] and no [step], and the file is named
    after [undefined]. *)
Example text_checkpoints_download :
  handleDownload (rt := answers text_checkpoints) completed_job home
  = (mk_world (page home)
       [EvFetch (checkpoints_request (rt := answers text_checkpoints)
                   completed_job);
        EvDownload
          (FromUrl (js "http://localhost:8000/api/jobs/job-1/checkpoints/undefined/download"))
          (js "job-1-checkpoint-undefined.json")]
       1,
     Ret tt).
Proof. vm_compute. reflexivity. Qed.

(** ** Polling *)



(** ** More of the data set utilities *)

Lemma convertRowsToFormat_reads_back_witness :
  List.map JSON_parse
    (split LF (convertRowsToFormat (rt := offline) [tricky_row; tricky_row]
                 jsonl_format))
  = [Some (row_json tricky_row); Some (row_json tricky_row)].
Proof.
  destruct (convertRowsToFormat_reads_back (rt := offline) [tricky_row; tricky_row])
    as (_ & H & _).
  apply H. discriminate.
Defined.

Lemma convertRowsToFormat_injective_witness :
  convertRowsToFormat (rt := offline) [tricky_row] csv_format
  = convertRowsToFormat (rt := offline) [tricky_row] csv_format
  /\ [tricky_row] = [tricky_row].
Proof.
  split; [reflexivity|].
  apply (convertRowsToFormat_injective (rt := offline) csv_format
           [tricky_row] [tricky_row]).
  reflexivity.
Defined.

(** A size of one byte less than 1 MB is printed as 1024.00 KB. *)
Lemma formatFileSize_shape_witness :
  1024 <= large_size /\ large_size < 1024 * 1024
  /\ formatFileSize large_size = js "1024.00 KB"
  /\ exists n, formatFileSize large_size = fixed2 n ++ js " KB"
               /\ 100 <= n <= 102400.
Proof.
  assert (H1 : 1024 <= large_size) by (unfold large_size; lia).
  assert (H2 : large_size < 1024 * 1024) by (unfold large_size; lia).
  split; [exact H1|]. split; [exact H2|]. split; [reflexivity|].
  destruct (formatFileSize_shape large_size) as (_ & H & _).
  destruct (H H1 H2) as (n & E & B & _). exists n. split; assumption.
Defined.

Lemma upload_name_and_extension_witness :
  ds_name (uploaded_dataset (rt := offline) scenario_E_file 3) = js "train"
  /\ format (uploaded_dataset (rt := offline) scenario_E_file 3) = js "CSV"
  /\ file_ext (file_name scenario_E_file) = Some (js "csv").
Proof.
  destruct (upload_name_and_extension (rt := offline) scenario_E_file 3) as (H & _).
  apply (H (js "train") (js "csv")); [reflexivity|discriminate|reflexivity|reflexivity].
Defined.

Lemma crlf_counts_the_same_witness :
  parseFileForSampleCount windows_file = parseFileForSampleCount scenario_E_file.
Proof.
  apply (crlf_counts_the_same scenario_E_file windows_file
           (join [LF] [js "instruction,input,output"; js "add,1 2,3";
                       js "negate,4,-4"; js "double,5,10"] ++ [LF]));
    [reflexivity|reflexivity|reflexivity|discriminate].
Defined.

(** ** The data sets page *)

(** The only row cannot be deleted; of two rows one can. *)
Lemma csv_rows_never_empty_witness :
  csvRows (page (start_of datasets_page_init)) <> []
  /\ csvRows (page (page_run (rt := offline)
                      [ClickDeleteRow 0; ClickAddRow; ClickDeleteRow 1;
                       ClickDeleteRow 0]
                      (start_of datasets_page_init))) <> [].
Proof.
  assert (H : csvRows (page (start_of datasets_page_init)) <> []) by discriminate.
  split; [exact H|].
  apply (csv_rows_never_empty (rt := offline)
           [ClickDeleteRow 0; ClickAddRow; ClickDeleteRow 1; ClickDeleteRow 0]
           (start_of datasets_page_init) H).
Defined.

Lemma save_button_guards_save_witness :
  csvRows (page create_form) <> []
  /\ isSaveDisabled create_mode (js "demo") [tricky_row] None = false
  /\ begins (handleSaveDataset (rt := offline)) create_form
       [EvFetch (dataset_request (rt := offline)
                   (created_dataset (rt := offline) (page create_form)))].
Proof.
  assert (H : csvRows (page create_form) <> []) by discriminate.
  split; [exact H|]. split; [reflexivity|].
  destruct (save_button_guards_save (rt := offline) create_form H) as [_ S].
  apply (S eq_refl).
Defined.


(** ** The jobs list *)

Lemma destructive_actions_ask_first_witness :
  confirm_answer declining stop_question = false
  /\ handleStop (rt := declining) running_job home
     = (mk_world (page home) [EvConfirm stop_question] 0, Ret tt).
Proof.
  split; [reflexivity|].
  destruct (destructive_actions_ask_first (rt := declining) running_job home)
    as (H & _).
  apply (H eq_refl).
Defined.

Lemma handleDownload_without_checkpoints_witness :
  handleDownload (rt := answers no_checkpoints) completed_job home
  = (mk_world (page home)
       [EvFetch (checkpoints_request (rt := answers no_checkpoints) completed_job);
        EvAlert (js "No checkpoints available for download")]
       1,
     Ret tt).
Proof.
  destruct (handleDownload_without_checkpoints (rt := answers no_checkpoints)
              completed_job home) as (H & _).
  apply (H no_checkpoints no_checkpoints_body (Some (JArray [])));
    [reflexivity|reflexivity|vm_compute; reflexivity|reflexivity|right; reflexivity].
Defined.

Lemma filteredJobs_and_tabs_witness :
  toLowerCase [] = []
  /\ filteredJobs toLowerCase [] (js "all") [failed_job; paused_job; running_job]
     = [failed_job; paused_job; running_job]
  /\ length (filteredJobs toLowerCase [] (js "running")
               [failed_job; paused_job; running_job])
     = tab_count (js "running") [failed_job; paused_job; running_job].
Proof.
  split; [reflexivity|].
  destruct (filteredJobs_and_tabs toLowerCase [failed_job; paused_job; running_job]
              eq_refl) as (H1 & _ & _ & H4 & _).
  split; [exact H1|apply H4].
Defined.

(** The badge of the job page for a paused job. *)
Lemma job_page_badge_witness :
  info_status paused_info = Some (JString (status_name paused))
  /\ getStatusBadge (rt := offline) paused_info
     = Throw (TypeError (js "Cannot read properties of undefined"))
  /\ In View (menu paused).
Proof.
  split; [reflexivity|].
  apply (job_page_badge (rt := offline) paused_info paused eq_refl).
Defined.

(** ** More of the API client *)

(** Two failures and an answer: three requests, two waits of 1000 ms. *)
Lemma fetchWithRetry_waits_between_attempts_witness :
  opt_retryDelay three_retries = None
  /\ retryDelay_of three_retries = 1000
  /\ trace (fst (fetchWithRetry (rt := flaky) (js "/jobs") three_retries
                   (start_of tt)))
     = [EvFetch (fetch_request (js "/jobs") three_retries); EvSleep 1000;
        EvFetch (fetch_request (js "/jobs") three_retries); EvSleep 1000;
        EvFetch (fetch_request (js "/jobs") three_retries)].
Proof.
  destruct (fetchWithRetry_waits_between_attempts (rt := flaky) (js "/jobs")
              three_retries (start_of tt)) as (Ht & _ & _ & Hd).
  split; [reflexivity|]. split; [apply Hd; reflexivity|].
  rewrite Ht. reflexivity.
Defined.

Lemma apiClient_verbs_witness :
  truthy (Some (JObject [])) = true
  /\ body_of (rt := offline) (Some (JObject [])) = Some (js "{}")
  /\ body_of (rt := offline) (Some (JNumber false 0 0)) = None.
Proof.
  destruct (apiClient_verbs (rt := offline) (js "/jobs") (Some (JNumber false 0 0))
              no_options (start_of tt)) as (_ & _ & _ & _ & _ & H0 & H1 & _).
  split; [reflexivity|]. split.
  - apply (H1 (JObject []) eq_refl).
  - apply H0. reflexivity.
Defined.

Lemma apiClient_download_settles_witness :
  ok not_found = false
  /\ snd (apiClient_download (rt := answers not_found) (js "/jobs/j/checkpoints/c/download")
            (js "c.json") no_options (start_of tt))
     = Throw (ApiError (js "Download failed: HTTP 404") (Some 404) NoData).
Proof.
  split; [reflexivity|].
  destruct (apiClient_download_settles (rt := answers not_found)
              (js "/jobs/j/checkpoints/c/download") (js "c.json") no_options
              (start_of tt)
              (fst (fetchWithRetry (rt := answers not_found)
                      (API_URL (answers not_found)
                         ++ js "/jobs/j/checkpoints/c/download")
                      no_options (start_of tt)))
              not_found eq_refl) as (H & _).
  rewrite (H eq_refl). reflexivity.
Defined.

(** A 404 with a JSON body: the error carries the status, the body and
    the [detail] of the body; without network it carries none. *)
Lemma apiRequest_error_status_witness :
  (exists response,
     net (answers not_found) 0
       (fetch_request (request_url (rt := answers not_found) (js "/jobs/job-9")
                         no_options)
                      (request_options no_options))
     = Resolves response
     /\ status response = 404
     /\ snd (Response_json response) = inl not_found_body
     /\ error_message (rt := answers not_found) not_found_body response
        = Some (js "Job not found"))
  /\ exists last,
       net offline 0
         (fetch_request (request_url (rt := offline) (js "/jobs") no_options)
                        (request_options no_options))
       = Rejects last
       /\ DataError failed_to_fetch = DataError last.
Proof.
  split.
  - assert (H : snd (apiRequest (rt := answers not_found) (js "/jobs/job-9")
                       no_options (start_of tt))
                = Throw (ApiError (js "Job not found") (Some 404)
                           (DataValue not_found_body)))
      by (vm_compute; reflexivity).
    destruct (apiRequest_error_status (rt := answers not_found) (js "/jobs/job-9")
                no_options (start_of tt) _ (Some 404) _ H)
      as (k & response & errorData & Hk & Hnet & _ & Hs & _ & _ & Hb & Hd & Hm).
    assert (k = 0%nat) by (unfold no_options, retry_of in Hk; simpl in Hk; lia).
    subst k. inversion Hd. subst errorData.
    exists response. split; [exact Hnet|]. split; [exact Hs|]. split; [|exact Hm].
    destruct (snd (Response_json response)) as [v|e];
      [subst v; reflexivity|].
    destruct Hb as [text Hb]. discriminate Hb.
  - assert (H : snd (apiRequest (rt := offline) (js "/jobs") no_options (start_of tt))
                = Throw (ApiError
                           (js "Network request failed after 1 attempts: Failed to fetch")
                           None (DataError failed_to_fetch)))
      by (vm_compute; reflexivity).
    destruct (apiRequest_error_status (rt := offline) (js "/jobs") no_options
                (start_of tt) _ None _ H) as (_ & last & Hl & Hd).
    exists last. split; [exact Hl|exact Hd].
Defined.

(** ** The hooks and the pages *)

Lemma useListData_updaters_witness :
  has_id (js "c") item_c = true
  /\ removeItem (js "c") (addItem item_c [item_a; item_b]) = [item_a; item_b].
Proof.
  split; [reflexivity|].
  destruct (useListData_updaters (js "c") [item_a; item_b]) as (H & _).
  apply H; [reflexivity|]. repeat constructor.
Defined.

Lemma API_URL_is_getApiUrl_witness :
  has_window packaged_app = true
  /\ location_port packaged_app = js "3002"
  /\ getApiUrl packaged_app = js "http://localhost:8001/api".
Proof.
  split; [reflexivity|]. split; [reflexivity|].
  destruct (API_URL_is_getApiUrl packaged_app) as (_ & _ & H & _).
  apply H; reflexivity.
Defined.

Lemma handleDownloadCheckpoint_failure_witness :
  ok not_found = false
  /\ handleDownloadCheckpoint (rt := answers not_found) (js "cp-2") 200 detail_page
     = (mk_world (page detail_page)
          [EvFetch (checkpoint_request (rt := answers not_found) (page detail_page)
                      (js "cp-2"));
           EvConsoleError (js "Error downloading checkpoint:");
           EvAlert (js "Failed to download checkpoint. Please try again.")]
          1,
        Ret tt).
Proof.
  split; [reflexivity|].
  destruct (handleDownloadCheckpoint_failure (rt := answers not_found) (js "cp-2")
              200 detail_page) as (_ & _ & _ & H & _).
  apply (H not_found); reflexivity.
Defined.
